(** * Metaplace dashboard: build-status fold and transaction-log statistics

    A shallow embedding of [app.py]: the build-status part of [get_build]
    (the pass/fail fold over the polled jobs and the [last-build] cache slot)
    and the statistics loop of [transactions] (latencies, status percentages,
    per-currency buckets), together with the pieces of the Python 2.7 runtime
    these two functions lean on: [sorted], [itertools.groupby],
    [datetime.strptime], binary64 floats, [decimal.Decimal] and the ['%.2f']
    conversion. *)

From Stdlib Require Import ZArith Lia String Ascii List Bool.
From Stdlib Require Import SpecFloat.
From stdpp Require Import gmap strings list fin_maps pretty sorting.
From Stdlib Require Import Reals Lra.

Local Open Scope Z_scope.

(** ** Python runtime: exceptions and a small error monad *)

Inductive exn : Type :=
  | ValueError
  | TypeError
  | InvalidOperation
  | DivisionByZero
  | ZeroDivisionError
  | OverflowError
  | Overflow.

Inductive result (A : Type) : Type :=
  | Ok (a : A)
  | Raise (e : exn).
Arguments Ok {A} a.
Arguments Raise {A} e.

#[global] Instance result_ret : MRet result := λ A a, Ok a.

#[global] Instance result_bind : MBind result := λ A B k r,
  match r with
  | Ok a => k a
  | Raise e => Raise e
  end.

Definition is_Ok {A : Type} (r : result A) : bool :=
  match r with Ok _ => true | Raise _ => false end.

(** ** Python runtime: [sorted]

    [sorted] returns the items in ascending order and is stable; insertion
    after the items that are not greater gives the same list. *)

Section Sorted.
Context {A : Type} (le : A → A → bool).

Fixpoint insert_sorted (x : A) (l : list A) : list A :=
  match l with
  | [] => [x]
  | y :: l' => if le y x then y :: insert_sorted x l' else x :: l
  end.

Definition sorted (l : list A) : list A :=
  foldl (λ acc x, insert_sorted x acc) [] l.
End Sorted.

(** ** Build status ([get_jenkins], [get_travis], [get_build]) *)

Module Build.

(** The [builds] table. *)
Definition builds_jenkins : list string :=
  ["solitude"; "marketplace"; "marketplace-api"; "marketplace-webpay";
   "amo-master"; "solitude"]%string.

Definition builds_travis : list string :=
  ["andymckay/receipts"; "mozilla/fireplace"; "andymckay/django-paranoia";
   "andymckay/curling"; "andymckay/django-statsd";
   "andymckay/mozilla-logger"]%string.

(** What the two CI services answer for a job: the [result] string of
    Jenkins' last completed build, and Travis' [last_build_result]
    ([None] for JSON null). *)
Record network : Type := {
  jenkins : string → string;
  travis : string → option Z
}.

(** [results['results'][key] = resp.json()['result'] == 'SUCCESS'] *)
Definition get_jenkins (net : network) (keys : list string)
    (results : gmap string bool) : gmap string bool :=
  foldl (λ acc key, <[key := String.eqb (jenkins net key) "SUCCESS"]> acc)
        results keys.

(** [results['results'][key] = resp.json()['last_build_result'] == 0] *)
Definition get_travis (net : network) (keys : list string)
    (results : gmap string bool) : gmap string bool :=
  foldl (λ acc key,
           <[key := match travis net key with
                    | Some n => n =? 0
                    | None => false
                    end]> acc)
        results keys.

(** The dict [{'when': ..., 'results': {...}}]; [when] is the clock
    reading of [datetime.now()]. *)
Record poll : Type := {
  when : Z;
  results : gmap string bool
}.

(** Values read back from the cache. *)
Inductive pyobj : Type :=
  | PyNone
  | PyBool (b : bool)
  | PyInt (n : Z)
  | PyStr (s : string).

(** Truth value of an object. *)
Definition truth (o : pyobj) : bool :=
  match o with
  | PyNone => false
  | PyBool b => b
  | PyInt n => negb (n =? 0)
  | PyStr s => negb (String.eqb s "")
  end.

(** [bool(o)] *)
Definition py_bool (o : pyobj) : pyobj := PyBool (truth o).

(** [o is None] *)
Definition is_None (o : pyobj) : bool :=
  match o with PyNone => true | _ => false end.

(** [a != b]; a bool compares as the int 0 or 1. *)
Definition py_ne (a b : pyobj) : bool :=
  match a, b with
  | PyNone, PyNone => false
  | PyBool x, PyBool y => negb (Bool.eqb x y)
  | PyBool x, PyInt n | PyInt n, PyBool x => negb (n =? (if x then 1 else 0))
  | PyInt n, PyInt m => negb (n =? m)
  | PyStr s, PyStr t => negb (String.eqb s t)
  | _, _ => true
  end.

(** The two cache slots the function uses; [None] is a miss (never set,
    or expired).  [get_build] itself only ever stores booleans under
    [last-build]. *)
Record cache : Type := {
  slot_build : option poll;
  slot_last_build : option pyobj
}.

(** [cache.get('last-build')] *)
Definition cache_get_last_build (c : cache) : pyobj :=
  match slot_last_build c with
  | Some v => v
  | None => PyNone
  end.

Definition cache_set_build (r : poll) (c : cache) : cache :=
  {| slot_build := Some r; slot_last_build := slot_last_build c |}.

Definition cache_set_last_build (b : bool) (c : cache) : cache :=
  {| slot_build := slot_build c; slot_last_build := Some (PyBool b) |}.

(** Which arm of the [if last is None / elif last != passing] statement
    ran.  [Changed] is the arm holding the (commented out) [notify]
    call. *)
Inductive arm : Type :=
  | Initialised
  | Changed
  | Unchanged.

(** [sorted(result['results'].items())]: tuples compare by the job name
    first; the names of a dict are distinct. *)
Definition item_le (a b : string * bool) : bool := String.leb a.1 b.1.

(** [all(...)] *)
Definition all (l : list bool) : bool := forallb (λ b, b) l.

Record outcome : Type := {
  out_when : Z;
  out_results : list (string * bool);   (* the OrderedDict *)
  out_passing : bool;
  out_arm : arm;
  out_cache : cache
}.

Definition get_build (c : cache) (net : network) (now : Z) : outcome :=
  let '(result, c1) :=
    match slot_build c with
    | Some r => (r, c)
    | None =>
        let r := {| when := now;
                    results := get_travis net builds_travis
                                 (get_jenkins net builds_jenkins ∅) |} in
        (r, cache_set_build r c)
    end in
  let ordered := sorted item_le (map_to_list (results result)) in
  let passing := all (ordered.*2) in
  let last := py_bool (cache_get_last_build c1) in
  let c2 := cache_set_last_build true c1 in
  let '(taken, c3) :=
    if is_None last then (Initialised, cache_set_last_build passing c2)
    else if py_ne last (PyBool passing)
         then (Changed, cache_set_last_build passing c2)
         else (Unchanged, c2) in
  {| out_when := when result; out_results := ordered;
     out_passing := passing; out_arm := taken; out_cache := c3 |}.

End Build.

(** ** Python runtime: [datetime], [timedelta] and [datetime.strptime]

    Only the fixed format [lfmt = '%Y-%m-%dT%H:%M:%S'] of [transactions]
    is modelled.  [_strptime] turns it into the regular expression

    [(?P<Y>\d\d\d\d)-(?P<m>1[0-2]|0[1-9]|[1-9])-(?P<d>3[0-1]|[1-2]\d|0[1-9]|[1-9]| [1-9])T(?P<H>2[0-3]|[0-1]\d|\d):(?P<M>[0-5]\d|\d):(?P<S>6[0-1]|[0-5]\d|\d)]

    compiled with [IGNORECASE], matches it at the start of the data, and
    raises [ValueError] when there is no match or when the match does not
    reach the end of the data. *)

Definition chars (s : string) : list ascii := list_ascii_of_string s.

Definition code (c : ascii) : Z := Z.of_N (N_of_ascii c).

Definition in_range (lo hi : Z) (c : ascii) : bool :=
  (lo <=? code c) && (code c <=? hi).

(** [\d] on a byte string *)
Definition is_digit : ascii → bool := in_range 48 57.

Definition is_char (x : ascii) (c : ascii) : bool := code c =? code x.

(** A literal under [IGNORECASE]. *)
Definition lower (c : ascii) : Z :=
  if in_range 65 90 c then code c + 32 else code c.

Definition is_char_nocase (x : ascii) (c : ascii) : bool := lower c =? lower x.

(** One piece of the expression: a literal, or a group of alternatives,
    each alternative a sequence of character classes. *)
Inductive piece : Type :=
  | Literal (c : ascii)
  | Group (alternatives : list (list (ascii → bool))).

Definition d_ := is_digit.
Definition r_ (lo hi : ascii) : ascii → bool := in_range (code lo) (code hi).
Definition c_ (x : ascii) : ascii → bool := is_char x.

Definition lfmt_regex : list piece :=
  [ Group [[d_; d_; d_; d_]];
    Literal "-";
    Group [[c_ "1"; r_ "0" "2"]; [c_ "0"; r_ "1" "9"]; [r_ "1" "9"]];
    Literal "-";
    Group [[c_ "3"; r_ "0" "1"]; [r_ "1" "2"; d_]; [c_ "0"; r_ "1" "9"];
           [r_ "1" "9"]; [c_ " "; r_ "1" "9"]];
    Literal "T";
    Group [[c_ "2"; r_ "0" "3"]; [r_ "0" "1"; d_]; [d_]];
    Literal ":";
    Group [[r_ "0" "5"; d_]; [d_]];
    Literal ":";
    Group [[c_ "6"; r_ "0" "1"]; [r_ "0" "5"; d_]; [d_]] ]%char.

(** Match a sequence of classes at the head of [s]: the text matched and
    what follows it. *)
Fixpoint match_classes (cs : list (ascii → bool)) (s : list ascii)
    : option (list ascii * list ascii) :=
  match cs, s with
  | [], _ => Some ([], s)
  | _ :: _, [] => None
  | p :: cs', x :: s' =>
      if p x then
        match match_classes cs' s' with
        | Some (m, rest) => Some (x :: m, rest)
        | None => None
        end
      else None
  end.

(** Backtracking match of the pieces at the head of [s]; alternatives are
    tried in the order written.  Gives the text of each group and the
    unmatched tail. *)
Fixpoint re_match (ps : list piece) (s : list ascii)
    : option (list (list ascii) * list ascii) :=
  match ps with
  | [] => Some ([], s)
  | Literal c :: ps' =>
      match s with
      | x :: s' => if is_char_nocase c x then re_match ps' s' else None
      | [] => None
      end
  | Group alts :: ps' =>
      (fix try (alts : list (list (ascii → bool))) :=
         match alts with
         | [] => None
         | a :: alts' =>
             match match_classes a s with
             | Some (m, rest) =>
                 match re_match ps' rest with
                 | Some (groups, tail) => Some (m :: groups, tail)
                 | None => try alts'
                 end
             | None => try alts'
             end
         end) alts
  end.

(** [int(text)] for the text of a group: digits, possibly after a blank. *)
Definition int_of_group (m : list ascii) : Z :=
  foldl (λ acc c, if is_digit c then 10 * acc + (code c - 48) else acc) 0 m.

Record datetime : Type := {
  year : Z; month : Z; day : Z; hour : Z; minute : Z; second : Z
}.

Definition is_leap (y : Z) : bool :=
  (y mod 4 =? 0) && (negb (y mod 100 =? 0) || (y mod 400 =? 0)).

Definition days_in_month (y m : Z) : Z :=
  if m =? 2 then (if is_leap y then 29 else 28)
  else if (m =? 4) || (m =? 6) || (m =? 9) || (m =? 11) then 30
  else 31.

(** The checks of the [datetime] constructor. *)
Definition valid_datetime (d : datetime) : bool :=
  (1 <=? year d) && (year d <=? 9999) &&
  (1 <=? month d) && (month d <=? 12) &&
  (1 <=? day d) && (day d <=? days_in_month (year d) (month d)) &&
  (0 <=? hour d) && (hour d <=? 23) &&
  (0 <=? minute d) && (minute d <=? 59) &&
  (0 <=? second d) && (second d <=? 59).

(** [datetime.strptime(s, lfmt)]; [None] stands for a missing column
    (the reader's [restval]), which is not a string. *)
Definition strptime (s : option string) : result datetime :=
  match s with
  | None => Raise TypeError
  | Some s =>
      match re_match lfmt_regex (chars s) with
      | Some ([gY; gm; gd; gH; gM; gS], []) =>
          let dt := {| year := int_of_group gY; month := int_of_group gm;
                       day := int_of_group gd; hour := int_of_group gH;
                       minute := int_of_group gM; second := int_of_group gS |} in
          if valid_datetime dt then Ok dt else Raise ValueError
      | _ => Raise ValueError
      end
  end.

(** Days before January 1st of year [y], and before the first of month
    [m] in year [y]; [toordinal] counts days from 0001-01-01 = 1. *)
Definition days_before_year (y : Z) : Z :=
  let p := y - 1 in p * 365 + p / 4 - p / 100 + p / 400.

Definition days_before_month (y m : Z) : Z :=
  foldl (λ acc k, acc + days_in_month y k) 0 (seqZ 1 (m - 1)).

Definition toordinal (d : datetime) : Z :=
  days_before_year (year d) + days_before_month (year d) (month d) + day d.

(** A normalised [timedelta]: [0 <= seconds < 86400],
    [0 <= microseconds < 1000000]. *)
Record timedelta : Type := {
  td_days : Z; td_seconds : Z; td_microseconds : Z
}.

(** [a - b] on two naive datetimes. *)
Definition datetime_sub (a b : datetime) : timedelta :=
  let secs := (hour a * 3600 + minute a * 60 + second a)
              - (hour b * 3600 + minute b * 60 + second b) in
  {| td_days := (toordinal a - toordinal b) + secs / 86400;
     td_seconds := secs mod 86400;
     td_microseconds := 0 |}.

(** Truth value of a timedelta: false only for [timedelta(0)]. *)
Definition timedelta_bool (t : timedelta) : bool :=
  negb ((td_days t =? 0) && (td_seconds t =? 0) && (td_microseconds t =? 0)).

Definition to_microseconds (t : timedelta) : Z :=
  (td_days t * 86400 + td_seconds t) * 1000000 + td_microseconds t.

(** ** Python runtime: floats

    A Python float is an IEEE 754 binary64 number: [spec_float] with 53
    bits of precision.  Every arithmetic operation returns the exact
    result rounded to the nearest float, ties to the even mantissa. *)

Definition float : Type := spec_float.

(** The integer nearest to [n / d] (for [0 < d]), ties to even. *)
Definition round_half_even (n d : Z) : Z :=
  let q := n / d in
  match 2 * (n mod d) ?= d with
  | Lt => q
  | Eq => if Z.even q then q else q + 1
  | Gt => q + 1
  end.

(** The fraction [(n / d) / 2^k]. *)
Definition scale2 (n d k : Z) : Z * Z :=
  if 0 <=? k then (n, d * 2 ^ k) else (n * 2 ^ (- k), d).

(** [floor (log2 (n / d))] for [0 < n] and [0 < d]. *)
Definition log2_ratio (n d : Z) : Z :=
  let k := Z.log2 n - Z.log2 d in
  let '(n', d') := scale2 n d k in
  if d' <=? n' then k else k - 1.

(** The float nearest to [± n / d], for [0 <= n] and [0 < d]: mantissas
    have 53 bits, the least exponent is -1074 (subnormal numbers), and
    what rounds to [2^1024] or more is an infinity. *)
Definition b64_round (neg : bool) (n d : Z) : float :=
  if n =? 0 then S754_zero neg
  else
    let e := Z.max (log2_ratio n d - 52) (-1074) in
    let '(n', d') := scale2 n d e in
    let m := round_half_even n' d' in
    let '(m, e) := if m =? 2 ^ 53 then (2 ^ 52, e + 1) else (m, e) in
    match m with
    | Zpos p => if e <=? 971 then S754_finite neg p e else S754_infinity neg
    | _ => S754_zero neg
    end.

(** [float(n)] for an int. *)
Definition float_of_int (n : Z) : float := b64_round (n <? 0) (Z.abs n) 1.

(** A finite float [± m * 2^e] as a signed numerator over a power of two:
    [(num, k)] stands for [num / 2^k]. *)
Definition dyadic (neg : bool) (m : positive) (e : Z) : Z * Z :=
  let num := if 0 <=? e then Zpos m * 2 ^ e else Zpos m in
  ((if neg then - num else num), (if 0 <=? e then 0 else - e)).

(** [x + y] *)
Definition float_add (x y : float) : float :=
  match x, y with
  | S754_nan, _ | _, S754_nan => S754_nan
  | S754_infinity sx, S754_infinity sy =>
      if Bool.eqb sx sy then x else S754_nan
  | S754_infinity _, _ => x
  | _, S754_infinity _ => y
  | S754_zero sx, S754_zero sy => S754_zero (sx && sy)
  | S754_zero _, _ => y
  | _, S754_zero _ => x
  | S754_finite sx mx ex, S754_finite sy my ey =>
      let '(nx, kx) := dyadic sx mx ex in
      let '(ny, ky) := dyadic sy my ey in
      let k := Z.max kx ky in
      let num := nx * 2 ^ (k - kx) + ny * 2 ^ (k - ky) in
      if num =? 0 then S754_zero false
      else b64_round (num <? 0) (Z.abs num) (2 ^ k)
  end.

(** [x * y] *)
Definition float_mul (x y : float) : float :=
  match x, y with
  | S754_nan, _ | _, S754_nan => S754_nan
  | S754_infinity _, S754_zero _ | S754_zero _, S754_infinity _ => S754_nan
  | S754_infinity sx, S754_infinity sy
  | S754_infinity sx, S754_finite sy _ _
  | S754_finite sx _ _, S754_infinity sy => S754_infinity (xorb sx sy)
  | S754_zero sx, S754_zero sy
  | S754_zero sx, S754_finite sy _ _
  | S754_finite sx _ _, S754_zero sy => S754_zero (xorb sx sy)
  | S754_finite sx mx ex, S754_finite sy my ey =>
      let '(nx, kx) := dyadic false mx ex in
      let '(ny, ky) := dyadic false my ey in
      b64_round (xorb sx sy) (nx * ny) (2 ^ (kx + ky))
  end.

(** [x / y]; dividing by a zero raises [ZeroDivisionError]. *)
Definition float_div (x y : float) : result float :=
  match x, y with
  | _, S754_zero _ => Raise ZeroDivisionError
  | S754_nan, _ | _, S754_nan => Ok S754_nan
  | S754_infinity _, S754_infinity _ => Ok S754_nan
  | S754_infinity sx, S754_finite sy _ _ => Ok (S754_infinity (xorb sx sy))
  | S754_finite sx _ _, S754_infinity sy
  | S754_zero sx, S754_infinity sy
  | S754_zero sx, S754_finite sy _ _ => Ok (S754_zero (xorb sx sy))
  | S754_finite sx mx ex, S754_finite sy my ey =>
      let '(nx, kx) := dyadic false mx ex in
      let '(ny, ky) := dyadic false my ey in
      Ok (b64_round (xorb sx sy) (nx * 2 ^ ky) (ny * 2 ^ kx))
  end.

(** [a / b] on two ints under [from __future__ import division]: the
    exact quotient rounded once. *)
Definition int_true_divide (a b : Z) : result float :=
  if b =? 0 then Raise ZeroDivisionError
  else if a =? 0 then Ok (S754_zero (b <? 0))
  else Ok (b64_round (xorb (a <? 0) (b <? 0)) (Z.abs a) (Z.abs b)).

(** Decimal digits of a natural number, and the two-digit form used after
    the decimal point. *)
Definition str_of_nat (n : Z) : string := pretty (Z.to_N n).

Definition two_digits (n : Z) : string :=
  String (pretty_N_char (Z.to_N (n / 10)))
    (String (pretty_N_char (Z.to_N (n mod 10))) EmptyString).

(** The magnitude of a finite float in hundredths, rounded to the nearest
    integer, ties to even: what ['%.2f'] prints. *)
Definition hundredths (m : positive) (e : Z) : Z :=
  if 0 <=? e then 100 * Zpos m * 2 ^ e
  else round_half_even (100 * Zpos m) (2 ^ (- e)).

Definition show_hundredths (neg : bool) (h : Z) : string :=
  ((if neg then "-" else "") +:+ str_of_nat (h / 100) +:+ "." +:+
   two_digits (h mod 100))%string.

(** ['%.2f' % x] for a float [x]. *)
Definition format_2f (x : float) : string :=
  match x with
  | S754_nan => "nan"
  | S754_infinity s => if s then "-inf" else "inf"
  | S754_zero s => show_hundredths s 0
  | S754_finite s m e => show_hundredths s (hundredths m e)
  end.

(** ** Python runtime: [decimal.Decimal]

    The default context: 28 digits of precision, [ROUND_HALF_EVEN],
    exponents between -999999999 and 999999999, and the traps
    [InvalidOperation], [DivisionByZero] and [Overflow] enabled (the other
    signals only set flags). *)

Inductive Decimal : Type :=
  | DFinite (sign : bool) (coeff : Z) (exp : Z)
  | DInfinity (sign : bool)
  | DNaN (sign : bool) (signaling : bool) (payload : Z).

Definition prec : Z := 28.
Definition Emax : Z := 999999999.
Definition Emin : Z := -999999999.
Definition Etiny : Z := Emin - prec + 1.
Definition Etop : Z := Emax - prec + 1.

(** [len(str(c))] *)
Definition ndigits (c : Z) : Z := Z.of_nat (String.length (str_of_nat c)).

(** [str.strip()] *)
Definition is_space (c : ascii) : bool :=
  (code c =? 32) || in_range 9 13 c.

Fixpoint lstrip (s : list ascii) : list ascii :=
  match s with
  | c :: s' => if is_space c then lstrip s' else s
  | [] => []
  end.

Definition strip (s : list ascii) : list ascii :=
  rev (lstrip (rev (lstrip s))).

(** The longest prefix of digits, and what follows. *)
Fixpoint take_digits (s : list ascii) : list ascii * list ascii :=
  match s with
  | c :: s' =>
      if is_digit c then let '(ds, rest) := take_digits s' in (c :: ds, rest)
      else ([], s)
  | [] => ([], [])
  end.

(** A word of the grammar, matched without regard to case. *)
Fixpoint take_word (w : list ascii) (s : list ascii) : option (list ascii) :=
  match w, s with
  | [], _ => Some s
  | x :: w', c :: s' => if is_char_nocase x c then take_word w' s' else None
  | _ :: _, [] => None
  end.

(** An optional sign; [true] for a minus. *)
Definition take_sign (s : list ascii) : bool * list ascii :=
  match s with
  | c :: s' =>
      if is_char "-" c then (true, s')
      else if is_char "+" c then (false, s')
      else (false, s)
  | [] => (false, [])
  end.

(** The number branch of [_parser], after the sign: digits (the integer
    part, possibly empty), an optional point followed by digits (the
    fractional part, possibly empty), an optional [E] with a signed,
    non-empty exponent, and the end of the string; a lookahead asks for a
    digit at the start, or right after a point at the start. *)
Definition parse_number (s : list ascii) : option (Z * Z) :=
  let '(intpart, r1) := take_digits s in
  let '(fracpart, r2) :=
    match r1 with
    | c :: r => if is_char "." c then take_digits r else ([], r1)
    | [] => ([], r1)
    end in
  let lookahead :=
    match intpart, r1 with
    | _ :: _, _ => true
    | [], _ :: _ => match fracpart with _ :: _ => true | [] => false end
    | [], [] => false
    end in
  let '(e, r3) :=
    match take_word (chars "E") r2 with
    | Some r =>
        let '(neg, r') := take_sign r in
        match take_digits r' with
        | ([], _) => (0, r2)
        | (ds, rest) =>
            ((if neg then - int_of_group ds else int_of_group ds), rest)
        end
    | None => (0, r2)
    end in
  match r3 with
  | [] =>
      if lookahead
      then Some (int_of_group (intpart ++ fracpart), e - Z.of_nat (length fracpart))
      else None
  | _ :: _ => None
  end.

(** [Decimal(s)] for a string: a malformed literal signals
    [ConversionSyntax], which raises [InvalidOperation]. *)
Definition Decimal_of_string (s : string) : result Decimal :=
  let '(neg, body) := take_sign (strip (chars s)) in
  match parse_number body with
  | Some (c, e) => Ok (DFinite neg c e)
  | None =>
      match take_word (chars "Inf") body with
      | Some [] => Ok (DInfinity neg)
      | Some rest =>
          match take_word (chars "inity") rest with
          | Some [] => Ok (DInfinity neg)
          | _ => Raise InvalidOperation
          end
      | None =>
          let '(signal, r) :=
            match take_word (chars "s") body with
            | Some r => (true, r)
            | None => (false, body)
            end in
          match take_word (chars "NaN") r with
          | Some diag =>
              match take_digits diag with
              | (ds, []) => Ok (DNaN neg signal (int_of_group ds))
              | _ => Raise InvalidOperation
              end
          | None => Raise InvalidOperation
          end
      end
  end.

(** [Decimal(n)] for an int. *)
Definition Decimal_of_int (n : Z) : Decimal := DFinite (n <? 0) (Z.abs n) 0.

(** [_fix]: round to the precision of the context and keep the exponent in
    range. *)
Definition dec_fix (d : Decimal) : result Decimal :=
  match d with
  | DNaN s signal p => Ok (DNaN s signal (p mod 10 ^ prec))
  | DInfinity _ => Ok d
  | DFinite s c e =>
      if c =? 0 then Ok (DFinite s 0 (Z.min (Z.max e Etiny) Emax))
      else
        let exp_min := ndigits c + e - prec in
        if Etop <? exp_min then Raise Overflow
        else
          let exp_min := Z.max exp_min Etiny in
          if e <? exp_min then
            let c' := round_half_even c (10 ^ (exp_min - e)) in
            let '(c', exp_min) :=
              if prec <? ndigits c' then (c' / 10, exp_min + 1)
              else (c', exp_min) in
            if Etop <? exp_min then Raise Overflow
            else Ok (DFinite s c' exp_min)
          else Ok d
  end.

(** [_check_nans]: a signaling NaN raises, a quiet NaN is the answer. *)
Definition dec_check_nans (x y : Decimal) : option (result Decimal) :=
  match x, y with
  | DNaN _ true _, _ | _, DNaN _ true _ => Some (Raise InvalidOperation)
  | DNaN _ false _, _ => Some (dec_fix x)
  | _, DNaN _ false _ => Some (dec_fix y)
  | _, _ => None
  end.

Definition signed (neg : bool) (c : Z) : Z := if neg then - c else c.

(** [x + y] ([Decimal.__add__]) *)
Definition dec_add (x y : Decimal) : result Decimal :=
  match dec_check_nans x y with
  | Some r => r
  | None =>
      match x, y with
      | DInfinity sx, DInfinity sy =>
          if Bool.eqb sx sy then Ok x else Raise InvalidOperation
      | DInfinity _, _ => Ok x
      | _, DInfinity _ => Ok y
      | DFinite sx cx ex, DFinite sy cy ey =>
          let exp := Z.min ex ey in
          if (cx =? 0) && (cy =? 0) then dec_fix (DFinite (sx && sy) 0 exp)
          else if cx =? 0 then
            let exp := Z.max exp (ey - prec - 1) in
            dec_fix (DFinite sy (cy * 10 ^ (ey - exp)) exp)
          else if cy =? 0 then
            let exp := Z.max exp (ex - prec - 1) in
            dec_fix (DFinite sx (cx * 10 ^ (ex - exp)) exp)
          else
            let n := signed sx cx * 10 ^ (ex - exp)
                     + signed sy cy * 10 ^ (ey - exp) in
            if n =? 0 then dec_fix (DFinite false 0 exp)
            else dec_fix (DFinite (n <? 0) (Z.abs n) exp)
      | _, _ => Raise InvalidOperation
      end
  end.

(** The loop of an exact division: drop trailing zeros of the quotient
    while the exponent is below the ideal one. *)
Fixpoint strip_zeros (fuel : nat) (coeff exp ideal_exp : Z) : Z * Z :=
  match fuel with
  | O => (coeff, exp)
  | S fuel' =>
      if (exp <? ideal_exp) && (coeff mod 10 =? 0)
      then strip_zeros fuel' (coeff / 10) (exp + 1) ideal_exp
      else (coeff, exp)
  end.

(** [x / y] ([Decimal.__truediv__]) *)
Definition dec_truediv (x y : Decimal) : result Decimal :=
  match dec_check_nans x y with
  | Some r => r
  | None =>
      match x, y with
      | DInfinity _, DInfinity _ => Raise InvalidOperation
      | DInfinity sx, DFinite sy _ _ => Ok (DInfinity (xorb sx sy))
      | DFinite sx _ _, DInfinity sy => Ok (DFinite (xorb sx sy) 0 Etiny)
      | DFinite sx cx ex, DFinite sy cy ey =>
          let sign := xorb sx sy in
          if cy =? 0 then
            Raise (if cx =? 0 then InvalidOperation else DivisionByZero)
          else if cx =? 0 then dec_fix (DFinite sign 0 (ex - ey))
          else
            let shift := ndigits cy - ndigits cx + prec + 1 in
            let exp := ex - ey - shift in
            let '(coeff, remainder) :=
              if 0 <=? shift then Z.div_eucl (cx * 10 ^ shift) cy
              else Z.div_eucl cx (cy * 10 ^ (- shift)) in
            if remainder =? 0 then
              let '(coeff, exp) :=
                strip_zeros (Z.to_nat (ex - ey - exp)) coeff exp (ex - ey) in
              dec_fix (DFinite sign coeff exp)
            else
              dec_fix (DFinite sign
                         (if coeff mod 5 =? 0 then coeff + 1 else coeff) exp)
      | _, _ => Raise InvalidOperation
      end
  end.

(** [float(d)] ([Decimal.__float__], that is [float(str(d))]) *)
Definition dec_to_float (d : Decimal) : result float :=
  match d with
  | DNaN _ true _ => Raise ValueError
  | DNaN _ false _ => Ok S754_nan
  | DInfinity s => Ok (S754_infinity s)
  | DFinite s c e =>
      Ok (if 0 <=? e then b64_round s (c * 10 ^ e) 1
          else b64_round s c (10 ^ (- e)))
  end.

(** [sum(items)] for a non-empty list of Decimals: the fold of [+] from
    the int 0, whose first step [0 + d] is [d.__radd__(0)], that is
    [d + Decimal(0)]. *)
Definition dec_sum (first : Decimal) (rest : list Decimal) : result Decimal :=
  foldl (λ acc item, a ← acc; dec_add a item)
        (dec_add first (Decimal_of_int 0)) rest.

(** [date.fromordinal]: year, month and day of the day number [n >= 1]. *)
Definition month_of_day (y : Z) (n : Z) : Z * Z :=
  foldl (λ '(m, r) k,
           if (m =? k) && (days_in_month y k <=? r)
           then (k + 1, r - days_in_month y k) else (m, r))
        (1, n) (seqZ 1 11).

Definition fromordinal (n : Z) : Z * Z * Z :=
  let n := n - 1 in
  let n400 := n / 146097 in let n := n mod 146097 in
  let n100 := n / 36524 in let n := n mod 36524 in
  let n4 := n / 1461 in let n := n mod 1461 in
  let n1 := n / 365 in let n := n mod 365 in
  let y := n400 * 400 + n100 * 100 + n4 * 4 + n1 + 1 in
  if (n1 =? 4) || (n100 =? 4) then (y - 1, 12, 31)
  else let '(m, r) := month_of_day y n in (y, m, r + 1).

(** [d - timedelta(days=k)]; leaving the years 1..9999 raises. *)
Definition datetime_sub_days (d : datetime) (k : Z) : result datetime :=
  let o := toordinal d - k in
  if (o <? 1) || (3652059 <? o) then Raise OverflowError
  else
    let '(y, m, dd) := fromordinal o in
    Ok {| year := y; month := m; day := dd;
          hour := hour d; minute := minute d; second := second d |}.

(** [d.strftime(sfmt)] with [sfmt = '%Y-%m-%d']; Python 2 refuses years
    before 1900. *)
Definition strftime_sfmt (d : datetime) : result string :=
  if year d <? 1900 then Raise ValueError
  else Ok (str_of_nat (year d) +:+ "-" +:+ two_digits (month d) +:+ "-"
           +:+ two_digits (day d))%string.

(** ** Python runtime: [itertools.groupby]

    Consecutive runs of equal items: the first item of each run, and the
    run. *)
Fixpoint groupby {A : Type} (eqb : A → A → bool) (l : list A)
    : list (A * list A) :=
  match l with
  | [] => []
  | x :: l' =>
      match groupby eqb l' with
      | (y, g) :: runs =>
          if eqb x y then (x, x :: g) :: runs else (x, [x]) :: (y, g) :: runs
      | [] => [(x, [x])]
      end
  end.

(** ** Transaction statistics ([list_to_dict_multiple], [transactions]) *)

(** A row of [csv.DictReader]: the columns the loop reads.  A column is
    [None] when the line is shorter than the header. *)
Record row : Type := {
  row_created : option string;
  row_modified : option string;
  row_status : option string;
  row_currency : option string;
  row_amount : option string
}.

(** The row after the loop body: [created] and [modified] replaced by
    datetimes, [diff] added. *)
Record parsed_row : Type := {
  created : datetime;
  modified : datetime;
  diff_of_row : timedelta;
  status_of_row : option string;
  currency_of_row : option string;
  amount_of_row : option string
}.

(** Truth value of a column: [None] and [''] are false. *)
Definition truthy (v : option string) : bool :=
  match v with
  | Some (String _ _) => true
  | Some EmptyString | None => false
  end.

(** [timedelta.total_seconds()] *)
Definition total_seconds (t : timedelta) : result float :=
  int_true_divide (to_microseconds t) 1000000.

(** Python 2 order on status values: [None] sorts before every string,
    strings compare byte by byte. *)
Definition status_le (a b : option string) : bool :=
  match a, b with
  | None, _ => true
  | Some _, None => false
  | Some x, Some y => String.leb x y
  end.

Definition status_eqb (a b : option string) : bool :=
  match a, b with
  | None, None => true
  | Some x, Some y => String.eqb x y
  | _, _ => false
  end.

(** [str(status)] *)
Definition str (v : option string) : string :=
  match v with
  | Some s => s
  | None => "None"
  end.

(** [reduce(lambda x, (k,v): x[k].append(v) or x, listy, defaultdict(list))] *)
Definition list_to_dict_multiple {V : Type} (listy : list (string * V))
    : gmap string (list V) :=
  foldl (λ x '(k, v), <[k := default [] (x !! k) ++ [v]]> x) ∅ listy.

Record bucket : Type := {
  items : list Decimal;
  count : Z;
  bucket_mean : string
}.

Record stats : Type := {
  diff : list float;
  status : list (option string);
  mean : option string;
  statuses : list (string * string);
  currencies : gmap string bucket
}.

(** What the loop over the rows accumulates. *)
Record accumulator : Type := {
  acc_rows : list parsed_row;
  acc_diff : list float;
  acc_status : list (option string);
  acc_currencies : list (string * Decimal)
}.

Definition empty_accumulator : accumulator :=
  {| acc_rows := []; acc_diff := []; acc_status := []; acc_currencies := [] |}.

(** The body of [for row in csv.DictReader(csvfile)]. *)
Definition loop_body (acc : accumulator) (r : row) : result accumulator :=
  c ← strptime (row_created r);
  m ← strptime (row_modified r);
  let d := datetime_sub m c in
  diffs ← (if timedelta_bool d
           then s ← total_seconds d; Ok (acc_diff acc ++ [s])
           else Ok (acc_diff acc));
  let statuses := acc_status acc ++ [row_status r] in
  curs ← (if truthy (row_currency r) && truthy (row_amount r)
          then a ← Decimal_of_string (str (row_amount r));
               Ok (acc_currencies acc ++ [(str (row_currency r), a)])
          else Ok (acc_currencies acc));
  Ok {| acc_rows := acc_rows acc ++
                    [{| created := c; modified := m; diff_of_row := d;
                        status_of_row := row_status r;
                        currency_of_row := row_currency r;
                        amount_of_row := row_amount r |}];
        acc_diff := diffs; acc_status := statuses; acc_currencies := curs |}.

Definition loop (rows : list row) : result accumulator :=
  foldl (λ acc r, a ← acc; loop_body a r) (Ok empty_accumulator) rows.

(** [sum(stats['diff'])]: float additions, left to right, from the int 0. *)
Definition float_sum (l : list float) : float :=
  foldl float_add (float_of_int 0) l.

(** ['%.2f' % (sum(stats['diff'])/len(stats['diff']))], guarded by
    [if len(stats['diff'])]. *)
Definition mean_of (diffs : list float) : result (option string) :=
  if Z.of_nat (length diffs) =? 0 then Ok None
  else
    q ← float_div (float_sum diffs) (float_of_int (Z.of_nat (length diffs)));
    Ok (Some (format_2f q)).

(** [(group / len(stats['status'])) * 100] *)
Definition percentage (group total : Z) : result float :=
  q ← int_true_divide group total;
  Ok (float_mul q (float_of_int 100)).

(** The loop over [groupby(sorted(stats['status']))]. *)
Definition status_percentages (sts : list (option string))
    : result (list (string * string)) :=
  foldl (λ acc '(st, group),
           out ← acc;
           perc ← percentage (Z.of_nat (length group)) (Z.of_nat (length sts));
           Ok (out ++ [(str st, format_2f perc)]))
        (Ok []) (groupby status_eqb (sorted status_le sts)).

(** The body of the loop over the currencies: [items], [count] and the
    mean ['%.2f' % (sum(items) / len(items))]. *)
Definition summarise (its : list Decimal) : result bucket :=
  match its with
  | [] => Raise ZeroDivisionError
  | first :: rest =>
      total ← dec_sum first rest;
      m ← dec_truediv total (Decimal_of_int (Z.of_nat (length its)));
      f ← dec_to_float m;
      Ok {| items := its; count := Z.of_nat (length its);
            bucket_mean := format_2f f |}
  end.

(** The loop over [stats['currencies'].items()].  The order in which a
    dict hands out its items only decides which exception is seen when
    the mean of more than one bucket raises. *)
Definition currency_buckets (m : gmap string (list Decimal))
    : result (gmap string bucket) :=
  bs ← foldr (λ '(k, its) acc,
                b ← summarise its; out ← acc; Ok ((k, b) :: out))
             (Ok []) (map_to_list m);
  Ok (list_to_map bs).

(** The statistics block of [transactions], from the rows of the log file
    to [rows] and [stats] as handed to the template. *)
Definition aggregate (rows : list row) : result (list parsed_row * stats) :=
  acc ← loop rows;
  mn ← mean_of (acc_diff acc);
  sts ← status_percentages (acc_status acc);
  cur ← currency_buckets (list_to_dict_multiple (acc_currencies acc));
  Ok (acc_rows acc,
      {| diff := acc_diff acc; status := acc_status acc; mean := mn;
         statuses := sts; currencies := cur |}).

(** The three entries of [dates], computed from [datetime.today()]. *)
Definition dates_of (today : datetime) : result (list (string * string)) :=
  d1 ← datetime_sub_days today 1; s1 ← strftime_sfmt d1;
  d2 ← datetime_sub_days today 2; s2 ← strftime_sfmt d2;
  d3 ← datetime_sub_days today 3; s3 ← strftime_sfmt d3;
  Ok [("-1 day", s1); ("-2 days", s2); ("-3 days", s3)]%string.

(** What [transactions] hands to the template when [server] and [date]
    are given and the session is a mozillian's: [today] is the clock
    reading, [rows] the content of the cached log file. *)
Record page : Type := {
  page_rows : list parsed_row;
  page_dates : list (string * string);
  page_stats : stats
}.

Definition transactions (today : datetime) (rows : list row) : result page :=
  dates ← dates_of today;
  '(parsed, st) ← aggregate rows;
  Ok {| page_rows := parsed; page_dates := dates; page_stats := st |}.


(** ** Notifications ([notify])

    [urllib.quote_plus] with its default [safe='']: letters, digits and
    [_.-] stay, a blank becomes [+], every other byte becomes [%XX] with
    two upper-case hexadecimal digits. *)

Definition always_safe (c : ascii) : bool :=
  in_range 65 90 c || in_range 97 122 c || in_range 48 57 c
  || (code c =? 95) || (code c =? 46) || (code c =? 45).

Definition hex_digit (n : Z) : ascii :=
  ascii_of_N (Z.to_N (if n <? 10 then 48 + n else 55 + n)).

Definition quote_char (c : ascii) : list ascii :=
  if always_safe c then [c]
  else if code c =? 32 then ["+"%char]
  else ["%"%char; hex_digit (code c / 16); hex_digit (code c mod 16)].

Definition quote_plus (s : string) : string :=
  string_of_list_ascii (concat (map quote_char (chars s))).

(** [dict(['args', a] for a in args)]: every pair has the key ['args'],
    so the dict keeps the last argument only. *)
Definition args_dict (args : list string) : gmap string string :=
  foldl (λ d a, <["args"%string := a]> d) ∅ args.

(** [urllib.urlencode(query, doseq=True)] for a dict of strings; the
    items are joined with [&]. *)
Definition urlencode (query : gmap string string) : string :=
  String.concat "&"
    (map (λ '(k, v), (quote_plus k +:+ "=" +:+ quote_plus v)%string)
         (map_to_list query)).

(** The URL [notify(msg, *args)] posts to. *)
Definition notify_url (msg : string) (args : list string) : string :=
  ("https://notify.paas.allizom.org/notify/" +:+ msg +:+ "/?"
   +:+ urlencode (args_dict args))%string.

(** ** Pricing tiers ([fill_tiers], [tiers])

    A JSON object is a dict from names to scalars.  As dict keys [True]
    and [1] (and [False] and [0]) are one key. *)

Inductive key_error : Type := KeyError (key : string).

#[global] Instance pyobj_eq_dec : EqDecision Build.pyobj.
Proof. solve_decision. Defined.

Definition pyobj_to_sum (o : Build.pyobj) : unit + bool + Z + string :=
  match o with
  | Build.PyNone => inl (inl (inl ()))
  | Build.PyBool b => inl (inl (inr b))
  | Build.PyInt n => inl (inr n)
  | Build.PyStr s => inr s
  end.

Definition pyobj_of_sum (x : unit + bool + Z + string) : Build.pyobj :=
  match x with
  | inl (inl (inl _)) => Build.PyNone
  | inl (inl (inr b)) => Build.PyBool b
  | inl (inr n) => Build.PyInt n
  | inr s => Build.PyStr s
  end.

#[global] Instance pyobj_countable : Countable Build.pyobj.
Proof.
  apply (inj_countable' pyobj_to_sum pyobj_of_sum). by intros [].
Defined.

Definition dict_key (o : Build.pyobj) : Build.pyobj :=
  match o with
  | Build.PyBool b => Build.PyInt (if b then 1 else 0)
  | _ => o
  end.

(** A tier of the response: its [prices] list (absent when the key is
    missing) and its other fields. *)
Record tier : Type := {
  tier_fields : gmap string Build.pyobj;
  tier_prices : option (list (gmap string Build.pyobj))
}.

(** The tier after [fill_tiers]: [prices] is a dict keyed by region. *)
Record filled_tier : Type := {
  filled_fields : gmap string Build.pyobj;
  filled_prices : gmap Build.pyobj (gmap string Build.pyobj)
}.

(** The inner loop: [prices[price['region']] = price]. *)
Definition index_prices (prices : list (gmap string Build.pyobj))
    : key_error + gmap Build.pyobj (gmap string Build.pyobj) :=
  foldl (λ acc price,
           match acc with
           | inl e => inl e
           | inr d =>
               match price !! "region"%string with
               | Some r => inr (<[dict_key r := price]> d)
               | None => inl (KeyError "region")
               end
           end)
        (inr ∅) prices.

Definition fill_tier (t : tier) : key_error + filled_tier :=
  match tier_prices t with
  | None => inl (KeyError "prices")
  | Some prices =>
      match index_prices prices with
      | inl e => inl e
      | inr d => inr {| filled_fields := tier_fields t; filled_prices := d |}
      end
  end.

(** [fill_tiers(result)], on [result['objects']]. *)
Definition fill_tiers (objects : list tier) : key_error + list filled_tier :=
  foldl (λ acc t,
           match acc with
           | inl e => inl e
           | inr out =>
               match fill_tier t with
               | inl e => inl e
               | inr f => inr (out ++ [f])
               end
           end)
        (inr []) objects.





(** ** Sessions ([login], [logout]) *)

(** [session.get(key)] *)
Definition session_get (session : gmap string Build.pyobj) (key : string)
    : Build.pyobj :=
  default Build.PyNone (session !! key).

(** What the verifier answered: [resp.ok], and [json.loads(resp.content)]
    when the content is a JSON object. *)
Record verification : Type := {
  resp_ok : bool;
  resp_data : option (gmap string Build.pyobj)
}.

(** [email in local.MOZS], for the list of addresses [MOZS]. *)
Definition in_mozs (MOZS : list string) (email : Build.pyobj) : bool :=
  match email with
  | Build.PyStr s => bool_decide (s ∈ MOZS)
  | _ => false
  end.

(** The HTTP status of the answer; an exception that is not caught is
    answered by the handler of status 500, like [abort(500)]. *)
Definition login (MOZS : list string) (form : gmap string string)
    (verify : string → verification)
    (session : gmap string Build.pyobj) : Z * gmap string Build.pyobj :=
  match form !! "assertion"%string with
  | None => (400, session)
  | Some assertion =>
      let resp := verify assertion in
      if resp_ok resp then
        match resp_data resp with
        | None => (500, session)
        | Some data =>
            match data !! "status"%string with
            | None => (500, session)
            | Some st =>
                if Build.py_ne st (Build.PyStr "okay") then (500, session)
                else
                  match data !! "email"%string with
                  | None => (500, session)
                  | Some email =>
                      (200,
                       <["mozillian"%string :=
                           Build.PyBool (in_mozs MOZS email)]>
                         (<["email"%string := email]> session))
                  end
            end
        end
      else (500, session)
  end.

(** [session.update({'email': None, 'mozillian': False})] *)
Definition logout (session : gmap string Build.pyobj)
    : Z * gmap string Build.pyobj :=
  (200, <["mozillian"%string := Build.PyBool false]>
          (<["email"%string := Build.PyNone]> session)).

(** ** The [transactions] view *)

(** [datetime.strptime(date, sfmt)] with [sfmt = '%Y-%m-%d']. *)
Definition sfmt_regex : list piece := take 5 lfmt_regex.

Definition strptime_date (s : string) : result datetime :=
  match re_match sfmt_regex (chars s) with
  | Some ([gY; gm; gd], []) =>
      let dt := {| year := int_of_group gY; month := int_of_group gm;
                   day := int_of_group gd; hour := 0; minute := 0;
                   second := 0 |} in
      if valid_datetime dt then Ok dt else Raise ValueError
  | _ => Raise ValueError
  end.

(** The outcome of a request: [abort(403)], the page of status 500, the
    page with the dates only, or the page with rows and statistics of the
    log file [filename]. *)
Inductive view : Type :=
  | Forbidden
  | ServerError
  | DatesOnly (dates : list (string * string))
  | Statistics (p : page) (server filename : string).

(** What [s3_get] does to the file it is asked to write: the log is
    downloaded into it, or an exception is raised, after which the file
    may be missing or hold what had been written of it. *)
Inductive download : Type :=
  | Downloaded (content : list row)
  | DownloadFailed (leftover : option (list row)).

(** The view, with what it touches outside made explicit: the session,
    the clock, the files of the [cache] directory (a name mapped to the
    rows [csv.DictReader] reads from the file), and the object store
    ([s3 server key] is what [s3_get] does for that server and key).
    Returns the outcome and the files of the directory after the
    request. *)
Definition transactions_view
    (session : gmap string Build.pyobj) (today : datetime)
    (server : option string) (date : string)
    (files : gmap string (list row))
    (s3 : string → string → download)
    : view * gmap string (list row) :=
  if negb (Build.truth (session_get session "mozillian")) then
    (Forbidden, files)
  else
    match dates_of today with
    | Raise _ => (ServerError, files)
    | Ok dates =>
        if truthy server && truthy (Some date) then
          match d ← strptime_date date; strftime_sfmt d with
          | Raise _ => (ServerError, files)
          | Ok day_name =>
              let src_filename := (day_name +:+ ".log")%string in
              let dest_filename :=
                (day_name +:+ "." +:+ str server +:+ ".log")%string in
              let fetched :=
                match files !! dest_filename with
                | Some _ => inr files
                | None =>
                    match s3 (str server) src_filename with
                    | Downloaded content =>
                        inr (<[dest_filename := content]> files)
                    | DownloadFailed (Some partial) =>
                        inl (<[dest_filename := partial]> files)
                    | DownloadFailed None => inl files
                    end
                end in
              match fetched with
              | inl files' => (ServerError, files')
              | inr files' =>
                  match aggregate (default [] (files' !! dest_filename)) with
                  | Raise _ => (ServerError, files')
                  | Ok (parsed, st) =>
                      (Statistics {| page_rows := parsed; page_dates := dates;
                                     page_stats := st |}
                                  (str server) dest_filename,
                       files')
                  end
              end
          end
        else (DatesOnly dates, files)
    end.
(** * Vocabulary of the statements *)

(** The poll the call works on: the cached one, or a fresh one. *)
Definition poll_used (c : Build.cache) (net : Build.network) (now : Z)
    : Build.poll :=
  match Build.slot_build c with
  | Some r => r
  | None =>
      {| Build.when := now;
         Build.results :=
           Build.get_travis net Build.builds_travis
             (Build.get_jenkins net Build.builds_jenkins ∅) |}
  end.


(** The overall status of a poll, as [get_build] computes it. *)
Definition status_of (r : Build.poll) : bool :=
  Build.all ((sorted Build.item_le (map_to_list (Build.results r))).*2).

(** The second and third of three consecutive calls of [get_build], each
    starting from the cache the previous one left. *)
Definition second_call (c : Build.cache) (net : Build.network)
    (t1 t2 : Z) : Build.outcome :=
  Build.get_build (Build.out_cache (Build.get_build c net t1)) net t2.

Definition third_call (c : Build.cache) (net : Build.network)
    (t1 t2 t3 : Z) : Build.outcome :=
  Build.get_build (Build.out_cache (second_call c net t1 t2)) net t3.

(** The poll of the example: [{jobA: true, jobB: false}]. *)
Definition example_poll : Build.poll :=
  {| Build.when := 0;
     Build.results := <["jobA" := true]> (<["jobB" := false]> ∅) |}%string.

Definition example_cache : Build.cache :=
  {| Build.slot_build := Some example_poll;
     Build.slot_last_build := Some (Build.PyBool true) |}.

Definition example_network : Build.network :=
  {| Build.jenkins := λ _, "FAILURE"%string; Build.travis := λ _, Some 1 |}.

(** A list in ascending order. *)
Definition ascending {A : Type} (le : A → A → bool) (l : list A) : Prop :=
  StronglySorted (λ a b, le a b = true) l.

(** Occurrences of [k] in [l]. *)
Definition occurrences {A : Type} `{EqDecision A} (k : A) (l : list A) : nat :=
  length (filter (λ y, y = k) l).

(** Seconds from the start of day 1 to a datetime. *)
Definition seconds_of (d : datetime) : Z :=
  toordinal d * 86400 + hour d * 3600 + minute d * 60 + second d.

(** The signed difference [modified - created] of a row in seconds, when
    both timestamps parse. *)
Definition latency (r : row) : option Z :=
  match strptime (row_created r), strptime (row_modified r) with
  | Ok c, Ok m => Some (seconds_of m - seconds_of c)
  | _, _ => None
  end.

(** A row whose two timestamps parse. *)
Definition timestamps_parse (r : row) : bool :=
  is_Ok (strptime (row_created r)) && is_Ok (strptime (row_modified r)).

(** A row that carries an amount: both [currency] and [amount] are
    non-empty. *)
Definition has_amount (r : row) : bool :=
  truthy (row_currency r) && truthy (row_amount r).


(** The statistics of no row at all. *)
Definition empty_stats : stats :=
  {| diff := []; status := []; mean := None; statuses := [];
     currencies := ∅ |}.

(** The two records of the example. *)
Definition example_rows : list row :=
  [ {| row_created := Some "2024-01-01T00:00:00";
       row_modified := Some "2024-01-01T00:01:40";
       row_status := Some "1"; row_currency := Some "USD";
       row_amount := Some "10.00" |};
    {| row_created := Some "2024-01-01T00:00:00";
       row_modified := Some "2024-01-01T00:00:00";
       row_status := Some "4"; row_currency := None;
       row_amount := None |} ]%string.

Definition example_today : datetime :=
  {| year := 2024; month := 1; day := 2; hour := 9; minute := 30;
     second := 0 |}.

(** The latencies the loop records: the signed difference of every row,
    as a float, except the differences that are zero. *)
Definition recorded_latency (r : row) : option float :=
  match latency r with
  | Some s => if s =? 0 then None else Some (float_of_int s)
  | None => None
  end.

(** The (currency, amount) pair a row contributes, if any. *)
Definition currency_pair (r : row) : option (string * Decimal) :=
  if has_amount r
  then match Decimal_of_string (str (row_amount r)) with
       | Ok a => Some (str (row_currency r), a)
       | Raise _ => None
       end
  else None.

(** The example with a timestamp of the first record damaged. *)
Definition damaged_rows : list row :=
  [ {| row_created := Some "2024-01-01 00:00:00";
       row_modified := Some "2024-01-01T00:01:40";
       row_status := Some "1"; row_currency := Some "USD";
       row_amount := Some "10.00" |};
    {| row_created := Some "2024-01-01T00:00:00";
       row_modified := Some "2024-01-01T00:00:00";
       row_status := Some "4"; row_currency := None;
       row_amount := None |} ]%string.

(** The values paired with key [k], in order. *)
Definition values_of {V : Type} (k : string) (l : list (string * V)) : list V :=
  omap (λ '(k', v), if String.eqb k' k then Some v else None) l.

(** Two records, the second with an empty status. *)
Definition rows_with_empty_status : list row :=
  [ {| row_created := Some "2024-01-01T00:00:00";
       row_modified := Some "2024-01-01T00:01:40";
       row_status := Some "1"; row_currency := Some "";
       row_amount := Some "" |};
    {| row_created := Some "2024-01-01T00:00:00";
       row_modified := Some "2024-01-01T00:02:00";
       row_status := Some ""; row_currency := Some "";
       row_amount := Some "" |} ]%string.

(** Real-number reading of floats, for the error bounds. *)
Definition pow2 (k : Z) : R := powerRZ 2 k.

Definition ratio (n d : Z) : R := (IZR n / IZR d)%R.

(** The absolute value of a float (0 for what is not finite). *)
Definition magnitude (x : float) : R :=
  match x with
  | S754_finite _ m e => (IZR (Zpos m) * pow2 e)%R
  | _ => 0%R
  end.

(** The number of hundredths ['%.2f'] prints for a float. *)
Definition printed_hundredths (x : float) : Z :=
  match x with
  | S754_finite _ m e => hundredths m e
  | _ => 0
  end.

(** Reading back what ['%.2f'] printed: the digits before the point and
    the two after it, as a number of hundredths. *)
Definition read_2f (s : string) : option Z :=
  let '(neg, body) := take_sign (chars s) in
  match take_digits body with
  | ([], _) => None
  | (whole, [point; d1; d2]) =>
      if is_char "." point && is_digit d1 && is_digit d2
      then Some (signed neg (100 * int_of_group whole + int_of_group [d1; d2]))
      else None
  | _ => None
  end.

(** The sum of a list of printed percentages, in hundredths. *)
Fixpoint sum_2f (l : list string) : option Z :=
  match l with
  | [] => Some 0
  | s :: l' =>
      match read_2f s, sum_2f l' with
      | Some h, Some t => Some (h + t)
      | _, _ => None
      end
  end.

(** Six records, one of each status code from 0 to 5. *)
Definition row_with_status (s : string) : row :=
  {| row_created := Some "2024-01-01T00:00:00"%string;
     row_modified := Some "2024-01-01T00:00:05"%string;
     row_status := Some s; row_currency := Some ""%string;
     row_amount := Some ""%string |}.

Definition six_status_rows : list row :=
  map row_with_status ["0"; "1"; "2"; "3"; "4"; "5"]%string.

(** A record modified before it was created, and one modified at its
    creation. *)
Definition backdated_rows : list row :=
  [ {| row_created := Some "2024-01-01T00:01:40";
       row_modified := Some "2024-01-01T00:00:00";
       row_status := Some "1"; row_currency := Some "";
       row_amount := Some "" |};
    {| row_created := Some "2024-01-01T00:00:00";
       row_modified := Some "2024-01-01T00:00:00";
       row_status := Some "1"; row_currency := Some "";
       row_amount := Some "" |} ]%string.

(** The cache after [n] consecutive calls of [get_build], the [i]-th of
    them made when the clock reads [clock i]. *)
Fixpoint after_calls (n : nat) (c : Build.cache) (net : Build.network)
    (clock : nat → Z) : Build.cache :=
  match n with
  | O => c
  | S k =>
      Build.out_cache
        (Build.get_build (after_calls k c net clock) net (clock k))
  end.

(** The call that follows [n] calls. *)
Definition call_number (n : nat) (c : Build.cache) (net : Build.network)
    (clock : nat → Z) : Build.outcome :=
  Build.get_build (after_calls n c net clock) net (clock n).

(** A cache with nothing in it, a network on which every job succeeds. *)
Definition empty_cache : Build.cache :=
  {| Build.slot_build := None; Build.slot_last_build := None |}.

Definition green_network : Build.network :=
  {| Build.jenkins := λ _, "SUCCESS"%string; Build.travis := λ _, Some 0 |}.

(** The number of values held by a dict of lists. *)
Definition total_values {V : Type} (d : gmap string (list V)) : nat :=
  map_fold (λ _ vs n, (length vs + n)%nat) 0%nat d.

(** What the loop makes of a row. *)
Definition mirrors (r : row) (p : parsed_row) : Prop :=
  strptime (row_created r) = Ok (created p)
  ∧ strptime (row_modified r) = Ok (modified p)
  ∧ diff_of_row p = datetime_sub (modified p) (created p)
  ∧ status_of_row p = row_status r
  ∧ currency_of_row p = row_currency r
  ∧ amount_of_row p = row_amount r.

(** The example with the amount of the first record damaged, and with
    its currency removed as well. *)
Definition bad_amount_rows : list row :=
  [ {| row_created := Some "2024-01-01T00:00:00";
       row_modified := Some "2024-01-01T00:01:40";
       row_status := Some "1"; row_currency := Some "USD";
       row_amount := Some "ten" |} ]%string.

Definition no_currency_rows : list row :=
  [ {| row_created := Some "2024-01-01T00:00:00";
       row_modified := Some "2024-01-01T00:01:40";
       row_status := Some "1"; row_currency := Some "";
       row_amount := Some "ten" |} ]%string.

(** The region a price is filed under, and whether a tier of the response
    has everything [fill_tiers] reads. *)
Definition region_of (price : gmap string Build.pyobj) : option Build.pyobj :=
  dict_key <$> price !! "region"%string.

Definition has_region (price : gmap string Build.pyobj) : bool :=
  bool_decide (is_Some (price !! "region"%string)).

Definition complete (t : tier) : bool :=
  match tier_prices t with
  | Some prices => forallb has_region prices
  | None => false
  end.

(** The last price of the list that belongs to region [r]. *)
Definition last_of_region (r : Build.pyobj)
    (prices : list (gmap string Build.pyobj))
    : option (gmap string Build.pyobj) :=
  last (filter (λ p, region_of p = Some r) prices).

(** The key whose absence stops [fill_tiers] at tier [t]. *)
Definition missing_key (t : tier) : string :=
  match tier_prices t with
  | Some _ => "region"
  | None => "prices"
  end.

Definition example_price (region amount : Z) : gmap string Build.pyobj :=
  <["region"%string := Build.PyInt region]>
    (<["price"%string := Build.PyInt amount]> ∅).

Definition example_tier : tier :=
  {| tier_fields := <["name"%string := Build.PyStr "Tier 1"]> ∅;
     tier_prices := Some [example_price 2 99; example_price 4 69;
                          example_price 2 89] |}.

Definition broken_tier : tier :=
  {| tier_fields := ∅;
     tier_prices := Some [<["price"%string := Build.PyInt 99]> ∅] |}.

(** A verifier that accepts every assertion as [email]'s, a form with an
    assertion, and an object store that holds the example log. *)
Definition example_MOZS : list string := ["amckay@mozilla.com"]%string.

Definition example_form : gmap string string :=
  <["assertion" := "eyJhbGciOiJSUzI1NiJ9"]> ∅%string.

Definition accepting (email : string) (assertion : string) : verification :=
  {| resp_ok := true;
     resp_data := Some (<["status"%string := Build.PyStr "okay"]>
                          (<["email"%string := Build.PyStr email]> ∅)) |}.

Definition rejecting (assertion : string) : verification :=
  {| resp_ok := true;
     resp_data := Some (<["status"%string := Build.PyStr "failure"]> ∅) |}.

Definition mozillian_session : gmap string Build.pyobj :=
  <["mozillian"%string := Build.PyBool true]>
    (<["email"%string := Build.PyStr "amckay@mozilla.com"]> ∅).

Definition example_s3 (server key : string) : download :=
  if String.eqb key "2024-01-01.log" then Downloaded example_rows
  else DownloadFailed None.

Definition unreachable_s3 (server key : string) : download :=
  DownloadFailed None.

(** A date at midnight. *)
Definition midnight (y m d : Z) : datetime :=
  {| year := y; month := m; day := d; hour := 0; minute := 0; second := 0 |}.

(** The name of the cached log of [server] for the day written [date]. *)
Definition log_name (server : string) (date : string) : result string :=
  d ← strptime_date date; day ← strftime_sfmt d;
  Ok (day +:+ "." +:+ server +:+ ".log")%string.

(** The characters a query string is made of after [quote_plus]. *)
Definition query_safe (c : ascii) : bool :=
  always_safe c || (code c =? 43) || (code c =? 37).

(** [d], printed [s], is the day [k] days before [today], at the same
    time of day. *)
Definition day_before (k : Z) (today d : datetime) (s : string) : Prop :=
  valid_datetime d = true
  ∧ toordinal d = toordinal today - k
  ∧ (hour d, minute d, second d) = (hour today, minute today, second today)
  ∧ strftime_sfmt d = Ok s
  ∧ strptime_date s = Ok (midnight (year d) (month d) (day d)).

(** A year with the calendar of [y]: the lengths of the months of a year
    only depend on whether it is a leap year. *)
Definition canonical_year (leap : bool) : Z := if leap then 4 else 1.

(** One check per day of a year: [month_of_day] splits the day number
    [r] (from 0) into a month and a day of that month. *)
Definition month_of_day_ok (leap : bool) (r : Z) : bool :=
  let y := canonical_year leap in
  let '(m, q) := month_of_day y r in
  (1 <=? m) && (m <=? 12) && (0 <=? q) && (q <? days_in_month y m)
  && (days_before_month y m + q =? r).

(** One check per month: the month ends within the year. *)
Definition month_end_ok (leap : bool) (m : Z) : bool :=
  let y := canonical_year leap in
  (0 <=? days_before_month y m)
  && (days_before_month y m + days_in_month y m
      <=? (if leap then 366 else 365)).

(** The latency a row contributes to the mean, as an integer number of
    seconds: the rows without a difference contribute nothing. *)
Definition nonzero_latency (r : row) : option Z :=
  match latency r with
  | Some s => if s =? 0 then None else Some s
  | None => None
  end.

(** The sum of integers, without rounding. *)
Definition int_sum (l : list Z) : Z := foldl Z.add 0 l.
(** * Properties *)

(** ** [sorted] *)

Section SortedFacts.
Context {A : Type} (le : A → A → bool).

Lemma insert_sorted_perm (x : A) (l : list A) :
  insert_sorted le x l ≡ₚ x :: l.
Proof.
  induction l as [|y l IH]; simpl; [done|].
  destruct (le y x); [|done].
  rewrite IH. apply Permutation_swap.
Qed.

Lemma sorted_from_perm (acc l : list A) :
  foldl (λ acc x, insert_sorted le x acc) acc l ≡ₚ l ++ acc.
Proof.
  revert acc. induction l as [|x l IH]; intros acc; simpl; [done|].
  rewrite IH, insert_sorted_perm. by rewrite Permutation_middle.
Qed.

Lemma sorted_perm (l : list A) : sorted le l ≡ₚ l.
Proof. unfold sorted. rewrite sorted_from_perm. by rewrite app_nil_r. Qed.

Lemma sorted_length (l : list A) : length (sorted le l) = length l.
Proof. by rewrite sorted_perm. Qed.
End SortedFacts.

(** ** Build status *)

Lemma all_true_iff (l : list bool) :
  Build.all l = true ↔ ∀ b, b ∈ l → b = true.
Proof.
  unfold Build.all. rewrite forallb_forall. split.
  - intros H b Hb. apply H. by apply list_elem_of_In.
  - intros H b Hb. apply H. by apply list_elem_of_In.
Qed.

(** [get_build] in terms of the poll it works on. *)
Lemma get_build_unfold (c : Build.cache) (net : Build.network) (now : Z) :
  Build.get_build c net now =
    let result := poll_used c net now in
    let c1 := match Build.slot_build c with
              | Some _ => c
              | None => Build.cache_set_build result c
              end in
    let ordered := sorted Build.item_le (map_to_list (Build.results result)) in
    let passing := Build.all (ordered.*2) in
    let last := Build.py_bool (Build.cache_get_last_build c1) in
    let c2 := Build.cache_set_last_build true c1 in
    let '(taken, c3) :=
      if Build.is_None last
      then (Build.Initialised, Build.cache_set_last_build passing c2)
      else if Build.py_ne last (Build.PyBool passing)
           then (Build.Changed, Build.cache_set_last_build passing c2)
           else (Build.Unchanged, c2) in
    {| Build.out_when := Build.when result; Build.out_results := ordered;
       Build.out_passing := passing; Build.out_arm := taken;
       Build.out_cache := c3 |}.
Proof.
  unfold Build.get_build, poll_used.
  destruct (Build.slot_build c); reflexivity.
Qed.

Lemma get_build_results (c : Build.cache) (net : Build.network) (now : Z) :
  Build.out_results (Build.get_build c net now)
    = sorted Build.item_le (map_to_list (Build.results (poll_used c net now)))
  ∧ Build.out_passing (Build.get_build c net now)
    = Build.all ((Build.out_results (Build.get_build c net now)).*2).
Proof.
  rewrite get_build_unfold. cbv zeta.
  generalize (poll_used c net now). intros result.
  destruct (Build.is_None _); [done|].
  destruct (Build.py_ne _ _); done.
Qed.

(** C7: the overall status returned by [get_build] is the conjunction of
    the per-job results of the poll it works on (it is true exactly when
    every job of the mapping is true), and it is true when the mapping has
    no job at all. *)
Theorem get_build_passing_is_conjunction
    (c : Build.cache) (net : Build.network) (now : Z) :
  (Build.out_passing (Build.get_build c net now) = true
     ↔ ∀ job ok, Build.results (poll_used c net now) !! job = Some ok
                 → ok = true)
  ∧ (Build.results (poll_used c net now) = ∅
     → Build.out_passing (Build.get_build c net now) = true).
Proof.
  destruct (get_build_results c net now) as [Hres Hpass].
  assert (Build.out_passing (Build.get_build c net now) = true
     ↔ ∀ job ok, Build.results (poll_used c net now) !! job = Some ok
                 → ok = true) as Hiff.
  { rewrite Hpass, Hres, all_true_iff. split.
    - intros H job ok Hl. apply H.
      apply list_elem_of_fmap. exists (job, ok). split; [done|].
      rewrite sorted_perm. by apply elem_of_map_to_list.
    - intros H b Hb. apply list_elem_of_fmap in Hb as [[job ok] [-> Hin]].
      rewrite sorted_perm in Hin. apply elem_of_map_to_list in Hin.
      by apply (H job). }
  split; [exact Hiff|].
  intros Hempty. apply Hiff. intros job ok. rewrite Hempty.
  by rewrite lookup_empty.
Qed.

Lemma get_build_passing_is_conjunction_witness :
  Build.out_passing
    (Build.get_build
       {| Build.slot_build :=
            Some {| Build.when := 0; Build.results := ∅ |};
          Build.slot_last_build := None |}
       {| Build.jenkins := λ _, "SUCCESS"%string;
          Build.travis := λ _, Some 0 |} 0) = true.
Proof.
  apply (get_build_passing_is_conjunction
           {| Build.slot_build :=
                Some {| Build.when := 0; Build.results := ∅ |};
              Build.slot_last_build := None |}
           {| Build.jenkins := λ _, "SUCCESS"%string;
              Build.travis := λ _, Some 0 |} 0).
  reflexivity.
Defined.

(** C10: [last = bool(cache.get('last-build'))] is a boolean and never
    [None], whatever the cache holds; so the arm [if last is None] never
    runs, and a call that misses the [last-build] slot behaves exactly as
    one that finds [False] stored in it. *)
Theorem get_build_last_is_never_None
    (c : Build.cache) (net : Build.network) (now : Z) :
  Build.is_None (Build.py_bool (Build.cache_get_last_build c)) = false
  ∧ (∃ b, Build.py_bool (Build.cache_get_last_build c) = Build.PyBool b)
  ∧ Build.out_arm (Build.get_build c net now) ≠ Build.Initialised
  ∧ Build.get_build
      {| Build.slot_build := Build.slot_build c;
         Build.slot_last_build := None |} net now
    = Build.get_build
        {| Build.slot_build := Build.slot_build c;
           Build.slot_last_build := Some (Build.PyBool false) |} net now.
Proof.
  split; [reflexivity|]. split; [by eexists|]. split.
  - rewrite get_build_unfold. cbv zeta.
    generalize (poll_used c net now). intros result.
    unfold Build.py_bool. cbn [Build.is_None].
    destruct (Build.py_ne _ _); cbn [Build.out_arm]; discriminate.
  - rewrite !get_build_unfold. unfold poll_used. cbn [Build.slot_build].
    destruct (Build.slot_build c) as [r|]; reflexivity.
Qed.

(** What a call leaves in the cache: the poll it worked on, and in the
    [last-build] slot the new status when it differs from the one read,
    [True] otherwise. *)
Lemma get_build_cache (c : Build.cache) (net : Build.network) (now : Z) :
  let last := Build.truth (Build.cache_get_last_build c) in
  let passing := status_of (poll_used c net now) in
  Build.out_passing (Build.get_build c net now) = passing
  ∧ Build.out_arm (Build.get_build c net now)
    = (if Bool.eqb last passing then Build.Unchanged else Build.Changed)
  ∧ Build.slot_build (Build.out_cache (Build.get_build c net now))
    = Some (poll_used c net now)
  ∧ Build.slot_last_build (Build.out_cache (Build.get_build c net now))
    = Some (Build.PyBool (if Bool.eqb last passing then true else passing)).
Proof.
  rewrite get_build_unfold. unfold status_of. cbv zeta.
  assert (Build.slot_build
            match Build.slot_build c with
            | Some _ => c
            | None => Build.cache_set_build (poll_used c net now) c
            end = Some (poll_used c net now)) as Hslot.
  { unfold poll_used. destruct (Build.slot_build c) eqn:E; simpl; done. }
  assert (Build.cache_get_last_build
            match Build.slot_build c with
            | Some _ => c
            | None => Build.cache_set_build (poll_used c net now) c
            end = Build.cache_get_last_build c) as Hlast.
  { destruct (Build.slot_build c); done. }
  rewrite Hlast. revert Hslot.
  generalize (poll_used c net now). intros result.
  generalize (match Build.slot_build c with
              | Some _ => c
              | None => Build.cache_set_build result c
              end). intros c1 Hslot.
  unfold Build.py_bool. cbn [Build.is_None Build.py_ne].
  destruct (Build.truth (Build.cache_get_last_build c));
    destruct (Build.all _); cbn; rewrite ?Hslot; done.
Qed.

Lemma poll_used_cached (c : Build.cache) (net : Build.network) (now t : Z) :
  poll_used (Build.out_cache (Build.get_build c net now)) net t
  = poll_used c net now.
Proof.
  destruct (get_build_cache c net now) as (_ & _ & Hslot & _).
  unfold poll_used at 1. by rewrite Hslot.
Qed.

(** C4 (the code departs from it): with [True] stored as the last status
    and a failing poll in the cache, the first call takes the arm of a
    change, the second does not, and the third takes it again although the
    status has stayed failing throughout: the second call leaves [True] in
    the [last-build] slot. *)
Theorem get_build_change_detected_again
    (c : Build.cache) (net : Build.network) (t1 t2 t3 : Z) :
  Build.slot_last_build c = Some (Build.PyBool true) →
  Build.out_passing (Build.get_build c net t1) = false →
  Build.out_arm (Build.get_build c net t1) = Build.Changed
  ∧ Build.out_passing (second_call c net t1 t2) = false
  ∧ Build.out_arm (second_call c net t1 t2) = Build.Unchanged
  ∧ Build.slot_last_build (Build.out_cache (second_call c net t1 t2))
    = Some (Build.PyBool true)
  ∧ Build.out_passing (third_call c net t1 t2 t3) = false
  ∧ Build.out_arm (third_call c net t1 t2 t3) = Build.Changed.
Proof.
  intros Hlast Hfail.
  destruct (get_build_cache c net t1) as (Hp1 & Ha1 & Hs1 & Hl1).
  rewrite Hp1 in Hfail. unfold Build.cache_get_last_build in Ha1, Hl1.
  rewrite Hlast, Hfail in Ha1, Hl1. simpl in Ha1, Hl1.
  unfold third_call, second_call.
  set (o1 := Build.get_build c net t1) in *.
  destruct (get_build_cache (Build.out_cache o1) net t2)
    as (Hp2 & Ha2 & Hs2 & Hl2).
  unfold o1 in Hp2, Ha2, Hl2, Hs2.
  rewrite poll_used_cached in Hp2, Ha2, Hl2, Hs2. fold o1 in Hp2, Ha2, Hl2, Hs2.
  unfold Build.cache_get_last_build in Ha2, Hl2.
  rewrite Hl1, Hfail in Ha2, Hl2. rewrite Hfail in Hp2. simpl in Ha2, Hl2.
  set (o2 := Build.get_build (Build.out_cache o1) net t2) in *.
  destruct (get_build_cache (Build.out_cache o2) net t3)
    as (Hp3 & Ha3 & _ & _).
  unfold o2 in Hp3, Ha3. rewrite poll_used_cached in Hp3, Ha3.
  unfold o1 in Hp3, Ha3. rewrite poll_used_cached in Hp3, Ha3.
  fold o1 in Hp3, Ha3. fold o2 in Hp3, Ha3.
  unfold Build.cache_get_last_build in Ha3.
  rewrite Hl2, Hfail in Ha3. rewrite Hfail in Hp3. simpl in Ha3.
  done.
Qed.

Lemma get_build_change_detected_again_witness :
  Build.out_arm (Build.get_build example_cache example_network 0)
    = Build.Changed
  ∧ Build.out_arm (second_call example_cache example_network 0 1)
    = Build.Unchanged
  ∧ Build.out_arm (third_call example_cache example_network 0 1 2)
    = Build.Changed.
Proof.
  destruct (get_build_change_detected_again
              example_cache example_network 0 1 2)
    as (H1 & _ & H2 & _ & _ & H3);
    [reflexivity | vm_compute; reflexivity |].
  exact (conj H1 (conj H2 H3)).
Defined.

(** ** Sorting and grouping *)

Lemma ascii_compare_trans_lt (a b c : ascii) :
  Ascii.compare a b = Lt → Ascii.compare b c = Lt → Ascii.compare a c = Lt.
Proof.
  unfold Ascii.compare. rewrite !N.compare_lt_iff. lia.
Qed.

Lemma string_compare_trans_lt (s1 s2 s3 : string) :
  String.compare s1 s2 = Lt → String.compare s2 s3 = Lt →
  String.compare s1 s3 = Lt.
Proof.
  revert s2 s3. induction s1 as [|a s1 IH]; intros [|b s2] [|c s3];
    simpl; try done.
  destruct (Ascii.compare a b) eqn:Eab; try done;
    destruct (Ascii.compare b c) eqn:Ebc; try done.
  - apply Ascii.compare_eq_iff in Eab as ->.
    rewrite Ebc. apply IH.
  - apply Ascii.compare_eq_iff in Eab as ->. by rewrite Ebc.
  - apply Ascii.compare_eq_iff in Ebc as ->. by rewrite Eab.
  - by rewrite (ascii_compare_trans_lt a b c).
Qed.

Lemma string_leb_trans (s1 s2 s3 : string) :
  String.leb s1 s2 = true → String.leb s2 s3 = true →
  String.leb s1 s3 = true.
Proof.
  unfold String.leb.
  destruct (String.compare s1 s2) eqn:E12; try done;
    destruct (String.compare s2 s3) eqn:E23; try done; intros _ _.
  - apply String.compare_eq_iff in E12 as ->. by rewrite E23.
  - apply String.compare_eq_iff in E12 as ->. by rewrite E23.
  - apply String.compare_eq_iff in E23 as ->. by rewrite E12.
  - by rewrite (string_compare_trans_lt s1 s2 s3).
Qed.

Lemma status_le_total (a b : option string) :
  status_le a b = true ∨ status_le b a = true.
Proof. destruct a, b; simpl; auto. apply String.leb_total. Qed.

Lemma status_le_trans (a b c : option string) :
  status_le a b = true → status_le b c = true → status_le a c = true.
Proof. destruct a, b, c; simpl; try done. apply string_leb_trans. Qed.

Lemma status_le_antisym (a b : option string) :
  status_le a b = true → status_le b a = true → a = b.
Proof.
  destruct a, b; simpl; try done.
  intros H1 H2. f_equal. by apply String.leb_antisym.
Qed.

Lemma status_eqb_eq (a b : option string) : status_eqb a b = true ↔ a = b.
Proof.
  destruct a, b; simpl; try (split; done).
  rewrite String.eqb_eq. split; congruence.
Qed.

Section OrderedLists.
Context {A : Type} `{EqDecision A} (le eqb : A → A → bool).
Hypothesis le_total : ∀ a b, le a b = true ∨ le b a = true.
Hypothesis le_trans : ∀ a b c, le a b = true → le b c = true → le a c = true.
Hypothesis le_antisym : ∀ a b, le a b = true → le b a = true → a = b.
Hypothesis eqb_eq : ∀ a b, eqb a b = true ↔ a = b.

Lemma insert_sorted_ascending (x : A) (l : list A) :
  ascending le l → ascending le (insert_sorted le x l).
Proof using le_total le_trans.
  unfold ascending. induction 1 as [|y l Hl IH Hy]; simpl.
  - repeat constructor.
  - destruct (le y x) eqn:E.
    + constructor; [done|].
      rewrite insert_sorted_perm. by constructor.
    + assert (le x y = true) as Hxy by (destruct (le_total x y); congruence).
      constructor; [by constructor|].
      constructor; [done|].
      eapply Forall_impl; [exact Hy|]. intros z Hz. by eapply le_trans.
Qed.

Lemma sorted_ascending (l : list A) : ascending le (sorted le l).
Proof using le_total le_trans.
  unfold sorted.
  assert (∀ acc, ascending le acc →
            ascending le (foldl (λ acc x, insert_sorted le x acc) acc l)) as H.
  { induction l as [|x l IH]; intros acc Hacc; simpl; [done|].
    apply IH. by apply insert_sorted_ascending. }
  apply H. constructor.
Qed.

Lemma occurrences_cons (k x : A) (l : list A) :
  occurrences k (x :: l)
  = if decide (x = k) then S (occurrences k l) else occurrences k l.
Proof. unfold occurrences. rewrite filter_cons. by case_decide. Qed.

Lemma occurrences_zero (k : A) (l : list A) : k ∉ l → occurrences k l = 0%nat.
Proof.
  induction l as [|x l IH]; [done|].
  rewrite not_elem_of_cons. intros [Hne Hl].
  rewrite occurrences_cons. case_decide; [congruence|]. by apply IH.
Qed.

Lemma occurrences_pos (k : A) (l : list A) : k ∈ l → (0 < occurrences k l)%nat.
Proof.
  induction l as [|x l IH]; [by rewrite elem_of_nil|].
  rewrite occurrences_cons. rewrite elem_of_cons. intros [->|Hl].
  - case_decide; [lia|done].
  - case_decide; [lia|by apply IH].
Qed.

Lemma occurrences_perm (k : A) (l1 l2 : list A) :
  l1 ≡ₚ l2 → occurrences k l1 = occurrences k l2.
Proof. unfold occurrences. by intros ->. Qed.

Lemma groupby_head (x : A) (l : list A) :
  ∃ g runs, groupby eqb (x :: l) = (x, g) :: runs.
Proof.
  simpl. destruct (groupby eqb l) as [|[y g] runs]; [eauto|].
  destruct (eqb x y); eauto.
Qed.

Lemma groupby_keys (l : list A) (k : A) (g : list A) :
  (k, g) ∈ groupby eqb l → k ∈ l.
Proof.
  revert k g. induction l as [|x l IH]; intros k g; simpl.
  - by rewrite elem_of_nil.
  - destruct (groupby eqb l) as [|[y g'] runs] eqn:E.
    + rewrite list_elem_of_singleton. intros [= -> ->]. by left.
    + destruct (eqb x y) eqn:Exy.
      * rewrite elem_of_cons. intros [[= -> ->]|Hin]; [by left|].
        right. apply (IH k g). by right.
      * rewrite elem_of_cons. intros [[= -> ->]|Hin]; [by left|].
        right. by apply (IH k g).
Qed.

Lemma groupby_lengths (l : list A) :
  foldr (λ '(_, g) n, (length g + n)%nat) 0%nat (groupby eqb l) = length l.
Proof.
  induction l as [|x l IH]; simpl; [done|].
  destruct (groupby eqb l) as [|[y g'] runs] eqn:E; simpl in *.
  - by rewrite <- IH.
  - destruct (eqb x y); simpl; lia.
Qed.

(** On an ascending list every run holds all the occurrences of its
    key, and no two runs share a key. *)
Lemma groupby_ascending (l : list A) :
  ascending le l →
  NoDup (groupby eqb l).*1
  ∧ ∀ k g, (k, g) ∈ groupby eqb l → length g = occurrences k l.
Proof using le_antisym eqb_eq.
  unfold ascending. induction 1 as [|x l Hl [IHnd IHocc] Hx]; simpl.
  - split; [constructor|]. intros k g. by rewrite elem_of_nil.
  - destruct (groupby eqb l) as [|[y g'] runs] eqn:E.
    + split; [simpl; apply NoDup_singleton|].
      intros k g. rewrite list_elem_of_singleton. intros [= -> ->].
      destruct l as [|z l]; [|by destruct (groupby_head z l) as (?&?&?); congruence].
      rewrite occurrences_cons. case_decide; done.
    + assert (y ∈ l) as Hy by (apply (groupby_keys l y g'); rewrite E; by left).
      destruct (eqb x y) eqn:Exy.
      * apply eqb_eq in Exy as <-.
        split; [done|].
        intros k g. rewrite elem_of_cons. intros [[= -> ->]|Hin].
        -- rewrite occurrences_cons. case_decide; [|done]. simpl.
           f_equal. apply IHocc. by left.
        -- rewrite occurrences_cons. case_decide as Hk.
           ++ subst k. simpl in IHnd. apply NoDup_cons in IHnd as [Hnotin _].
              exfalso. apply Hnotin. apply list_elem_of_fmap.
              by exists (x, g).
           ++ apply IHocc. by right.
      * assert (x ∉ l) as Hxl.
        { intros Hin. rewrite Forall_forall in Hx.
          assert (x = y) as Heq; [|apply eqb_eq in Heq; congruence].
          destruct l as [|z l0]; [by apply elem_of_nil in Hin|].
          destruct (groupby_head z l0) as (g0 & r0 & E0).
          rewrite E0 in E. injection E as -> _ _.
          apply elem_of_cons in Hin as [->|Hin]; [done|].
          apply StronglySorted_inv in Hl as [_ Hz].
          rewrite Forall_forall in Hz.
          apply le_antisym; [apply Hx; by left|by apply Hz]. }
        split.
        -- rewrite fmap_cons. constructor; [|done].
           intros Hin. apply list_elem_of_fmap in Hin as [[k g] [Hk Hin]].
           simpl in Hk. subst k. apply Hxl. apply (groupby_keys l x g).
           by rewrite E.
        -- intros k g. rewrite elem_of_cons. intros [[= -> ->]|Hin].
           ++ rewrite occurrences_cons. case_decide; [|done].
              by rewrite occurrences_zero.
           ++ rewrite occurrences_cons. case_decide as Hk.
              ** subst k. exfalso. apply Hxl. apply (groupby_keys l x g).
                 by rewrite E.
              ** by apply IHocc.
Qed.
End OrderedLists.

(** ** Floats: powers of two *)

Lemma pow2_pos (k : Z) : (0 < pow2 k)%R.
Proof. apply powerRZ_lt. lra. Qed.

Lemma pow2_add (a b : Z) : pow2 (a + b) = (pow2 a * pow2 b)%R.
Proof. apply powerRZ_add. lra. Qed.

Lemma pow2_0 : pow2 0 = 1%R.
Proof. reflexivity. Qed.

Lemma pow2_1 : pow2 1 = 2%R.
Proof. unfold pow2. simpl. lra. Qed.

Lemma pow2_succ (k : Z) : pow2 (k + 1) = (2 * pow2 k)%R.
Proof. rewrite pow2_add, pow2_1. lra. Qed.

Lemma pow2_opp (k : Z) : pow2 (- k) = (/ pow2 k)%R.
Proof. apply powerRZ_neg'. Qed.

Lemma pow2_Z (k : Z) : 0 <= k → IZR (2 ^ k) = pow2 k.
Proof.
  intros Hk. destruct k as [|p|p]; [done| |lia].
  unfold pow2. apply Zpower_pos_powerRZ.
Qed.

Lemma pow2_ge_1 (k : Z) : 0 <= k → (1 <= pow2 k)%R.
Proof.
  intros Hk. rewrite <- pow2_Z by done. apply IZR_le.
  pose proof (Z.pow_pos_nonneg 2 k). lia.
Qed.

Lemma pow2_le (a b : Z) : a <= b → (pow2 a <= pow2 b)%R.
Proof.
  intros Hab. replace b with (a + (b - a)) by lia. rewrite pow2_add.
  pose proof (pow2_pos a). pose proof (pow2_ge_1 (b - a) ltac:(lia)). nra.
Qed.

Lemma pow2_lt (a b : Z) : a < b → (pow2 a < pow2 b)%R.
Proof.
  intros Hab. replace b with (a + 1 + (b - a - 1)) by lia.
  rewrite pow2_add, pow2_succ.
  pose proof (pow2_pos a). pose proof (pow2_ge_1 (b - a - 1) ltac:(lia)). nra.
Qed.

Lemma pow2_lt_inv (a b : Z) : (pow2 a < pow2 b)%R → a < b.
Proof.
  intros H. destruct (Z.lt_ge_cases a b) as [|Hge]; [done|].
  apply pow2_le in Hge. lra.
Qed.

(** ** Floats: rounding a fraction *)

Lemma ratio_pos (n d : Z) : 0 < n → 0 < d → (0 < ratio n d)%R.
Proof.
  intros Hn Hd. unfold ratio. apply Rdiv_lt_0_compat; by apply IZR_lt.
Qed.

Lemma ratio_scale (n d k : Z) :
  0 < d → 0 < k → ratio (n * k) (d * k) = ratio n d.
Proof.
  intros Hd Hk. unfold ratio. rewrite !mult_IZR.
  apply IZR_lt in Hd, Hk. field. lra.
Qed.

Lemma round_half_even_bounds (n d : Z) :
  0 < d → - d <= 2 * (round_half_even n d * d - n) <= d.
Proof.
  intros Hd. unfold round_half_even.
  pose proof (Z.div_mod n d ltac:(lia)) as Hdm.
  pose proof (Z.mod_pos_bound n d Hd) as Hb.
  destruct (Z.compare_spec (2 * (n `mod` d)) d) as [He|Hl|Hg].
  - destruct (Z.even (n `div` d)); nia.
  - nia.
  - nia.
Qed.

Lemma round_half_even_nonneg (n d : Z) :
  0 <= n → 0 < d → 0 <= round_half_even n d.
Proof.
  intros Hn Hd. unfold round_half_even.
  pose proof (Z.div_pos n d Hn Hd).
  destruct (2 * (n `mod` d) ?= d); [destruct (Z.even _)| |]; lia.
Qed.

Lemma round_half_even_error (n d : Z) :
  0 < d → (Rabs (IZR (round_half_even n d) - ratio n d) <= 1 / 2)%R.
Proof.
  intros Hd. pose proof (round_half_even_bounds n d Hd) as [Hlo Hhi].
  apply IZR_le in Hlo, Hhi. apply IZR_lt in Hd.
  rewrite opp_IZR in Hlo. rewrite mult_IZR, minus_IZR, mult_IZR in Hlo, Hhi.
  unfold ratio.
  replace (IZR (round_half_even n d) - IZR n / IZR d)%R
    with ((IZR (round_half_even n d) * IZR d - IZR n) / IZR d)%R
    by (field; lra).
  apply Rabs_le. split.
  - apply Rmult_le_reg_r with (IZR d); [lra|].
    unfold Rdiv. rewrite Rmult_assoc, Rinv_l by lra. lra.
  - apply Rmult_le_reg_r with (IZR d); [lra|].
    unfold Rdiv. rewrite Rmult_assoc, Rinv_l by lra. lra.
Qed.

Lemma round_half_even_scale (n d k : Z) :
  0 < d → 0 < k → round_half_even (n * k) (d * k) = round_half_even n d.
Proof.
  intros Hd Hk. unfold round_half_even.
  rewrite Z.div_mul_cancel_r, Z.mul_mod_distr_r by lia.
  assert ((2 * (n `mod` d * k) ?= d * k) = (2 * (n `mod` d) ?= d)) as ->;
    [|reflexivity].
  destruct (Z.compare_spec (2 * (n `mod` d)) d);
    [apply Z.compare_eq_iff|apply Z.compare_lt_iff|apply Z.compare_gt_iff];
    nia.
Qed.

Lemma scale2_spec (n d k : Z) :
  0 < d →
  0 < (scale2 n d k).2
  ∧ ratio (scale2 n d k).1 (scale2 n d k).2 = (ratio n d * pow2 (- k))%R.
Proof.
  intros Hd. unfold scale2, ratio.
  assert (IZR d ≠ 0%R) as Hd' by (apply IZR_lt in Hd; lra).
  destruct (Z.leb_spec 0 k) as [Hk|Hk]; cbn [fst snd].
  - split; [pose proof (Z.pow_pos_nonneg 2 k); nia|].
    rewrite mult_IZR, pow2_Z, pow2_opp by done.
    pose proof (pow2_pos k). field. split; lra.
  - split; [done|].
    rewrite mult_IZR, pow2_Z by lia. field. done.
Qed.

Lemma scale2_scale (n d c k : Z) :
  scale2 (n * c) (d * c) k = ((scale2 n d k).1 * c, (scale2 n d k).2 * c).
Proof.
  unfold scale2. destruct (0 <=? k); cbn [fst snd]; f_equal; ring.
Qed.

Lemma scale2_nonneg (n d k : Z) : 0 <= n → 0 <= (scale2 n d k).1.
Proof.
  intros Hn. unfold scale2. destruct (Z.leb_spec 0 k); cbn [fst]; [done|].
  pose proof (Z.pow_pos_nonneg 2 (- k)). nia.
Qed.

(** [log2_ratio n d] is the exponent of the binade of [n / d]. *)
Lemma log2_ratio_spec (n d : Z) :
  0 < n → 0 < d →
  (pow2 (log2_ratio n d) <= ratio n d < pow2 (log2_ratio n d + 1))%R.
Proof.
  intros Hn Hd. unfold log2_ratio.
  set (k := Z.log2 n - Z.log2 d).
  destruct (Z.log2_spec n Hn) as [Hn1 Hn2].
  destruct (Z.log2_spec d Hd) as [Hd1 Hd2].
  pose proof (Z.log2_nonneg n) as Hln. pose proof (Z.log2_nonneg d) as Hld.
  apply IZR_le in Hn1, Hd1. apply IZR_lt in Hn2, Hd2.
  rewrite pow2_Z in Hn1, Hd1 by done.
  rewrite <- Z.add_1_r, pow2_Z, pow2_succ in Hn2, Hd2 by lia.
  destruct (scale2_spec n d k Hd) as [Hpos Hratio].
  destruct (scale2 n d k) as [n' d'] eqn:E. cbn [fst snd] in *.
  assert (ratio n d = ratio n' d' * pow2 k)%R as Hr.
  { rewrite Hratio, pow2_opp. pose proof (pow2_pos k). field. lra. }
  assert (pow2 (Z.log2 n) = pow2 k * pow2 (Z.log2 d))%R as Hk.
  { rewrite <- pow2_add. f_equal. unfold k. lia. }
  pose proof (pow2_pos k) as Hpk. pose proof (pow2_pos (Z.log2 d)) as Hpd.
  assert (0 < IZR d)%R as HdR by (apply IZR_lt; lia).
  assert (0 < IZR d')%R as Hd'R by (by apply IZR_lt).
  assert (ratio n d * IZR d = IZR n)%R as Hnd
    by (unfold ratio; field; lra).
  destruct (Z.leb_spec d' n') as [Hle|Hgt].
  - split.
    + rewrite Hr. apply IZR_le in Hle.
      assert (1 <= ratio n' d')%R.
      { unfold ratio. apply Rmult_le_reg_r with (IZR d'); [done|].
        unfold Rdiv. rewrite Rmult_assoc, Rinv_l by lra. lra. }
      nra.
    + rewrite pow2_succ.
      apply Rmult_lt_reg_r with (IZR d); [done|]. rewrite Hnd. nra.
  - replace (k - 1 + 1) with k by lia. split.
    + assert (pow2 k = 2 * pow2 (k - 1))%R as Hk1.
      { rewrite <- pow2_succ. f_equal. lia. }
      apply Rmult_le_reg_r with (IZR d); [done|]. rewrite Hnd.
      pose proof (pow2_pos (k - 1)). nra.
    + rewrite Hr. apply IZR_lt in Hgt.
      assert (ratio n' d' < 1)%R.
      { unfold ratio. apply Rmult_lt_reg_r with (IZR d'); [done|].
        unfold Rdiv. rewrite Rmult_assoc, Rinv_l by lra. lra. }
      nra.
Qed.

Lemma binade_unique (x : R) (k1 k2 : Z) :
  (pow2 k1 <= x < pow2 (k1 + 1))%R → (pow2 k2 <= x < pow2 (k2 + 1))%R →
  k1 = k2.
Proof.
  intros [H1 H1'] [H2 H2'].
  assert (k1 < k2 + 1) by (apply pow2_lt_inv; lra).
  assert (k2 < k1 + 1) by (apply pow2_lt_inv; lra).
  lia.
Qed.

Lemma log2_ratio_scale (n d k : Z) :
  0 < n → 0 < d → 0 < k → log2_ratio (n * k) (d * k) = log2_ratio n d.
Proof.
  intros Hn Hd Hk.
  apply (binade_unique (ratio n d)).
  - rewrite <- (ratio_scale n d k) by done. apply log2_ratio_spec; nia.
  - by apply log2_ratio_spec.
Qed.

(** The float nearest to a fraction depends on the value of the fraction
    only. *)
Lemma b64_round_scale (neg : bool) (n d k : Z) :
  0 < n → 0 < d → 0 < k → b64_round neg (n * k) (d * k) = b64_round neg n d.
Proof.
  intros Hn Hd Hk. unfold b64_round.
  destruct (Z.eqb_spec (n * k) 0) as [?|_]; [nia|].
  destruct (Z.eqb_spec n 0) as [?|_]; [lia|].
  rewrite log2_ratio_scale by done.
  set (e := Z.max (log2_ratio n d - 52) (-1074)).
  rewrite scale2_scale.
  destruct (scale2_spec n d e Hd) as [Hpos _].
  destruct (scale2 n d e) as [n' d']. cbn [fst snd] in *.
  by rewrite round_half_even_scale.
Qed.

Lemma int_true_divide_exact (s k : Z) :
  0 < k → s ≠ 0 → int_true_divide (s * k) k = Ok (float_of_int s).
Proof.
  intros Hk Hs. unfold int_true_divide, float_of_int.
  destruct (Z.eqb_spec k 0) as [?|_]; [lia|].
  destruct (Z.eqb_spec (s * k) 0) as [?|_]; [nia|].
  assert ((k <? 0) = false) as -> by lia.
  assert ((s * k <? 0) = (s <? 0)) as ->.
  { destruct (Z.ltb_spec (s * k) 0), (Z.ltb_spec s 0); try done; nia. }
  rewrite xorb_false_r, Z.abs_mul, (Z.abs_eq k) by lia.
  rewrite <- (Z.mul_1_l k) at 2.
  rewrite b64_round_scale by lia. done.
Qed.

(** ** Floats: the error of one rounding *)

Lemma Rabs_le_bounds (a b : R) : (Rabs a <= b)%R → (- b <= a <= b)%R.
Proof. unfold Rabs. destruct (Rcase_abs a); lra. Qed.

(** Rounding a positive fraction below [2^(E+1)] gives a zero or a finite
    float of the same sign, at most [2^(E-53)] away from the fraction. *)
Lemma b64_round_error (neg : bool) (n d E : Z) :
  0 < n → 0 < d → (ratio n d < pow2 (E + 1))%R → -1022 <= E <= 1022 →
  (b64_round neg n d = S754_zero neg
   ∨ ∃ m e, b64_round neg n d = S754_finite neg m e)
  ∧ (Rabs (magnitude (b64_round neg n d) - ratio n d) <= pow2 (E - 53))%R.
Proof.
  intros Hn Hd Hlt HE.
  destruct (log2_ratio_spec n d Hn Hd) as [Hlo _].
  assert (log2_ratio n d <= E) as Hlr.
  { assert (log2_ratio n d < E + 1) by (apply pow2_lt_inv; lra). lia. }
  unfold b64_round.
  destruct (Z.eqb_spec n 0) as [?|_]; [lia|].
  set (e := Z.max (log2_ratio n d - 52) (-1074)).
  assert (e <= E - 52) as He by lia.
  destruct (scale2_spec n d e Hd) as [Hpos Hratio].
  pose proof (scale2_nonneg n d e ltac:(lia)) as Hnn.
  destruct (scale2 n d e) as [n' d']. cbn [fst snd] in *.
  pose proof (round_half_even_error n' d' Hpos) as Herr.
  pose proof (round_half_even_nonneg n' d' Hnn Hpos) as Hm.
  set (m := round_half_even n' d') in *.
  rewrite Hratio, pow2_opp in Herr.
  pose proof (pow2_pos e) as Hpe.
  assert (pow2 e <= pow2 (E - 52))%R as Hpow by (by apply pow2_le).
  assert (pow2 (E - 52) = 2 * pow2 (E - 53))%R as Hhalf.
  { rewrite <- pow2_succ. f_equal. lia. }
  assert (Rabs (IZR m * pow2 e - ratio n d) <= pow2 e / 2)%R as Hbound.
  { replace (IZR m * pow2 e - ratio n d)%R
      with ((IZR m - ratio n d * / pow2 e) * pow2 e)%R by (field; lra).
    rewrite Rabs_mult, (Rabs_pos_eq (pow2 e)) by lra.
    pose proof (Rabs_pos (IZR m - ratio n d * / pow2 e)). nra. }
  destruct (Z.eqb_spec m (2 ^ 53)) as [Hbig|Hsmall].
  - change (2 ^ 52) with 4503599627370496.
    assert ((e + 1 <=? 971) = true) as -> by lia.
    split; [right; eauto|].
    unfold magnitude. rewrite pow2_succ.
    replace (IZR 4503599627370496 * (2 * pow2 e))%R with (IZR m * pow2 e)%R.
    + lra.
    + rewrite Hbig. change (2 ^ 53) with (2 * 4503599627370496).
      rewrite mult_IZR. lra.
  - destruct m as [|p|p]; [| |lia].
    + split; [by left|]. unfold magnitude.
      replace (IZR 0 * pow2 e)%R with 0%R in Hbound by lra. lra.
    + assert ((e <=? 971) = true) as -> by lia.
      split; [right; eauto|]. unfold magnitude. lra.
Qed.

(** A finite float as a fraction. *)
Lemma dyadic_spec (m : positive) (e : Z) :
  0 < (dyadic false m e).1
  ∧ 0 <= (dyadic false m e).2
  ∧ ratio (dyadic false m e).1 (2 ^ (dyadic false m e).2)
    = (IZR (Zpos m) * pow2 e)%R.
Proof.
  unfold dyadic, ratio. destruct (Z.leb_spec 0 e) as [He|He]; cbn [fst snd].
  - split; [pose proof (Z.pow_pos_nonneg 2 e); nia|]. split; [done|].
    rewrite mult_IZR, pow2_Z by done. change (2 ^ 0) with 1. lra.
  - split; [done|]. split; [lia|].
    rewrite pow2_Z by lia.
    replace (pow2 e) with (/ pow2 (- e))%R; [reflexivity|].
    rewrite <- pow2_opp. f_equal. lia.
Qed.

Lemma float_of_int_100 :
  float_of_int 100 = S754_finite false 7036874417766400 (-46).
Proof. vm_compute. reflexivity. Qed.

Lemma pow2_m46 : pow2 (-46) = (/ 70368744177664)%R.
Proof.
  change (-46) with (Z.opp 46).
  rewrite pow2_opp. f_equal. rewrite <- pow2_Z by lia. reflexivity.
Qed.

Lemma pow2_m47 : pow2 (-47) = (/ 140737488355328)%R.
Proof.
  change (-47) with (Z.opp 47).
  rewrite pow2_opp. f_equal. rewrite <- pow2_Z by lia. reflexivity.
Qed.

Lemma pow2_m53 : pow2 (-53) = (/ 9007199254740992)%R.
Proof.
  change (-53) with (Z.opp 53).
  rewrite pow2_opp. f_equal. rewrite <- pow2_Z by lia. reflexivity.
Qed.

Lemma pow2_7 : pow2 7 = 128%R.
Proof. rewrite <- pow2_Z by lia. reflexivity. Qed.

(** What ['%.2f'] prints for a finite float is within half a hundredth of
    it. *)
Lemma hundredths_error (m : positive) (e : Z) :
  0 <= hundredths m e
  ∧ (Rabs (IZR (hundredths m e) - 100 * (IZR (Zpos m) * pow2 e)) <= 1 / 2)%R.
Proof.
  unfold hundredths. destruct (Z.leb_spec 0 e) as [He|He].
  - split; [pose proof (Z.pow_pos_nonneg 2 e); nia|].
    rewrite !mult_IZR, pow2_Z by done.
    replace (100 * IZR (Z.pos m) * pow2 e - 100 * (IZR (Z.pos m) * pow2 e))%R
      with 0%R by ring.
    rewrite Rabs_R0. lra.
  - assert (0 < 2 ^ (- e)) as Hpos by (apply Z.pow_pos_nonneg; lia).
    split; [apply round_half_even_nonneg; lia|].
    pose proof (round_half_even_error (100 * Z.pos m) (2 ^ (- e)) Hpos) as H.
    unfold ratio in H. rewrite mult_IZR, pow2_Z in H by lia.
    replace (pow2 e) with (/ pow2 (- e))%R
      by (rewrite <- pow2_opp; f_equal; lia).
    replace (100 * (IZR (Z.pos m) * / pow2 (- e)))%R
      with (100 * IZR (Z.pos m) / pow2 (- e))%R by (unfold Rdiv; ring).
    exact H.
Qed.

(** The percentage of a group of [g] among [n] values, as printed: a
    non-negative number of hundredths within [1/2 + 2^-38] of
    [10000 * g / n]. *)
Lemma percentage_error (g n : Z) :
  0 < g <= n →
  ∃ p, percentage g n = Ok p
    ∧ format_2f p = show_hundredths false (printed_hundredths p)
    ∧ 0 <= printed_hundredths p
    ∧ (Rabs (IZR (printed_hundredths p) - 10000 * ratio g n)
       <= 1 / 2 + / 274877906944)%R.
Proof.
  intros [Hg Hgn]. unfold percentage, int_true_divide.
  destruct (Z.eqb_spec n 0) as [?|_]; [lia|].
  destruct (Z.eqb_spec g 0) as [?|_]; [lia|].
  assert ((g <? 0) = false) as -> by lia.
  assert ((n <? 0) = false) as -> by lia.
  rewrite !Z.abs_eq by lia. cbn [xorb mbind result_bind].
  eexists. split; [reflexivity|].
  assert (0 < ratio g n <= 1)%R as [Hr0 Hr1].
  { split; [apply ratio_pos; lia|]. unfold ratio.
    assert (0 < IZR n)%R by (apply IZR_lt; lia).
    apply Rmult_le_reg_r with (IZR n); [done|].
    unfold Rdiv. rewrite Rmult_assoc, Rinv_l by lra.
    apply IZR_le in Hgn. lra. }
  destruct (b64_round_error false g n 0 ltac:(lia) ltac:(lia)) as [Hshape Herr].
  { change (0 + 1) with 1. rewrite pow2_1. lra. }
  { lia. }
  change (0 - 53) with (-53) in Herr. rewrite pow2_m53 in Herr.
  rewrite float_of_int_100.
  destruct Hshape as [Hq|(mq & eq & Hq)]; rewrite Hq in Herr |- *.
  - cbn [float_mul xorb format_2f printed_hundredths].
    split; [reflexivity|]. split; [done|].
    cbn [magnitude] in Herr.
    apply Rabs_le_bounds in Herr.
    apply Rabs_le. lra.
  - cbn [magnitude] in Herr. cbn [float_mul xorb].
    destruct (dyadic_spec mq eq) as (Hnx & Hkx & Hx).
    destruct (dyadic false mq eq) as [nx kx]. cbn [fst snd] in *.
    change (dyadic false 7036874417766400 (-46))
      with (7036874417766400, 46).
    cbv iota beta.
    set (x := (IZR (Z.pos mq) * pow2 eq)%R) in *.
    assert (ratio (nx * 7036874417766400) (2 ^ (kx + 46)) = 100 * x)%R as Hprod.
    { unfold ratio in *. rewrite mult_IZR, Z.pow_add_r, mult_IZR by lia.
      change (2 ^ 46) with 70368744177664.
      assert (0 < IZR (2 ^ kx))%R
        by (apply IZR_lt, Z.pow_pos_nonneg; lia).
      rewrite <- Hx. field. lra. }
    apply Rabs_le_bounds in Herr.
    destruct (b64_round_error false (nx * 7036874417766400) (2 ^ (kx + 46)) 6)
      as [Hshape Herr2].
    { lia. }
    { apply Z.pow_pos_nonneg; lia. }
    { rewrite Hprod. change (6 + 1) with 7. rewrite pow2_7. lra. }
    { lia. }
    rewrite Hprod in Herr2. change (6 - 53) with (-47) in Herr2.
    rewrite pow2_m47 in Herr2. apply Rabs_le_bounds in Herr2.
    destruct Hshape as [Hp|(mp & ep & Hp)]; rewrite Hp in Herr2 |- *.
    + cbn [format_2f printed_hundredths magnitude] in *.
      split; [reflexivity|]. split; [done|].
      apply Rabs_le. lra.
    + cbn [format_2f printed_hundredths magnitude] in *.
      destruct (hundredths_error mp ep) as [Hh0 Hh].
      split; [reflexivity|]. split; [done|].
      apply Rabs_le_bounds in Hh. apply Rabs_le. lra.
Qed.

(** ** Printing and reading back hundredths *)

Lemma chars_app (a b : string) : chars (a +:+ b) = chars a ++ chars b.
Proof.
  unfold chars. induction a as [|c a IH]; simpl; [done|]. by rewrite IH.
Qed.

Lemma pretty_N_char_digit (r : N) :
  (r < 10)%N →
  is_digit (pretty_N_char r) = true ∧ code (pretty_N_char r) - 48 = Z.of_N r.
Proof.
  intros Hr.
  assert (r = 0 ∨ r = 1 ∨ r = 2 ∨ r = 3 ∨ r = 4 ∨ r = 5 ∨ r = 6 ∨ r = 7
          ∨ r = 8 ∨ r = 9)%N as H by lia.
  repeat (destruct H as [->|H]; [by vm_compute|]). subst r. by vm_compute.
Qed.

Lemma chars_pretty_N_go (x : N) (s : string) :
  chars (pretty_N_go x s) = chars (pretty_N_go x "") ++ chars s.
Proof.
  revert s. induction (N.lt_wf_0 x) as [x _ IH]. intros s.
  destruct (N.eq_dec x 0%N) as [->|Hx]; [by rewrite !pretty_N_go_0|].
  assert (x `div` 10 < x)%N as Hlt by (apply N.div_lt; lia).
  rewrite !(pretty_N_go_step x) by lia.
  rewrite (IH _ Hlt (String (pretty_N_char (x `mod` 10)) s)).
  rewrite (IH _ Hlt (String (pretty_N_char (x `mod` 10)) "")).
  rewrite <- app_assoc. reflexivity.
Qed.

Lemma int_of_group_snoc (l : list ascii) (c : ascii) :
  is_digit c = true →
  int_of_group (l ++ [c]) = 10 * int_of_group l + (code c - 48).
Proof.
  intros Hc. unfold int_of_group. rewrite foldl_app. simpl. by rewrite Hc.
Qed.

Lemma pretty_N_go_digits (x : N) :
  Forall (λ c, is_digit c = true) (chars (pretty_N_go x ""))
  ∧ int_of_group (chars (pretty_N_go x "")) = Z.of_N x
  ∧ ((0 < x)%N → chars (pretty_N_go x "") ≠ []).
Proof.
  induction (N.lt_wf_0 x) as [x _ IH].
  destruct (N.eq_dec x 0%N) as [->|Hx].
  { rewrite pretty_N_go_0. split; [constructor|]. split; [done|]. lia. }
  rewrite pretty_N_go_step, chars_pretty_N_go by lia.
  destruct (IH (x `div` 10)%N) as (Hall & Hval & _); [apply N.div_lt; lia|].
  destruct (pretty_N_char_digit (x `mod` 10)%N) as [Hd Hv];
    [apply N.mod_lt; lia|].
  change (chars (String (pretty_N_char (x `mod` 10)) ""))
    with [pretty_N_char (x `mod` 10)%N].
  split; [|split].
  - apply Forall_app. split; [done|]. by constructor.
  - rewrite int_of_group_snoc, Hval, Hv by done.
    pose proof (N.div_mod x 10%N ltac:(lia)). lia.
  - intros _. by destruct (chars (pretty_N_go (x `div` 10) "")).
Qed.

Lemma str_of_nat_digits (n : Z) :
  0 <= n →
  Forall (λ c, is_digit c = true) (chars (str_of_nat n))
  ∧ int_of_group (chars (str_of_nat n)) = n
  ∧ chars (str_of_nat n) ≠ [].
Proof.
  intros Hn. unfold str_of_nat, pretty, pretty_N.
  destruct (decide (Z.to_N n = 0%N)) as [Hz|Hnz].
  - assert (n = 0) as -> by lia. split; [|done].
    constructor; [by vm_compute|constructor].
  - destruct (pretty_N_go_digits (Z.to_N n)) as (H1 & H2 & H3).
    split; [done|]. split; [lia|]. apply H3. lia.
Qed.

Lemma take_digits_app (ds rest : list ascii) :
  Forall (λ c, is_digit c = true) ds →
  match rest with c :: _ => is_digit c = false | [] => True end →
  take_digits (ds ++ rest) = (ds, rest).
Proof.
  intros Hds Hrest. induction Hds as [|c ds Hc _ IH]; simpl.
  - destruct rest as [|c rest]; [done|]. simpl. by rewrite Hrest.
  - by rewrite Hc, IH.
Qed.

Lemma two_digits_chars (r : Z) :
  0 <= r < 100 →
  ∃ d1 d2, chars (two_digits r) = [d1; d2]
    ∧ is_digit d1 = true ∧ is_digit d2 = true
    ∧ int_of_group [d1; d2] = r.
Proof.
  intros Hr. unfold two_digits.
  destruct (pretty_N_char_digit (Z.to_N (r `div` 10))) as [H1 V1].
  { pose proof (Z.div_lt_upper_bound r 10 10). pose proof (Z.div_pos r 10).
    lia. }
  destruct (pretty_N_char_digit (Z.to_N (r `mod` 10))) as [H2 V2].
  { pose proof (Z.mod_pos_bound r 10). lia. }
  eexists _, _. split; [reflexivity|]. split; [done|]. split; [done|].
  unfold int_of_group. simpl. rewrite H1, H2, V1, V2.
  pose proof (Z.div_mod r 10 ltac:(lia)).
  pose proof (Z.div_pos r 10). pose proof (Z.mod_pos_bound r 10). lia.
Qed.

(** Reading back what was printed gives the number of hundredths. *)
Lemma read_show_hundredths (h : Z) :
  0 <= h → read_2f (show_hundredths false h) = Some h.
Proof.
  intros Hh. unfold read_2f, show_hundredths.
  rewrite !chars_app. change (chars "") with (@nil ascii).
  change (chars ".") with ["."%char]. cbn [app].
  destruct (str_of_nat_digits (h `div` 100)) as (Hall & Hval & Hne).
  { apply Z.div_pos; lia. }
  destruct (two_digits_chars (h `mod` 100)) as (d1 & d2 & -> & Hd1 & Hd2 & Hv).
  { apply Z.mod_pos_bound. lia. }
  destruct (chars (str_of_nat (h `div` 100))) as [|c whole] eqn:E; [done|].
  assert (is_digit c = true) as Hc by (by inversion Hall).
  assert (take_sign ((c :: whole) ++ "."%char :: [d1; d2])
          = (false, (c :: whole) ++ "."%char :: [d1; d2])) as ->.
  { unfold take_sign. cbn [app].
    assert (is_char "-" c = false) as ->.
    { unfold is_digit, in_range, is_char in *.
      change (code "-") with 45. lia. }
    assert (is_char "+" c = false) as ->; [|done].
    unfold is_digit, in_range, is_char in *. change (code "+") with 43. lia. }
  rewrite take_digits_app by done.
  rewrite Hd1, Hd2. change (is_char "." ".") with true. cbn [andb signed].
  rewrite Hval, Hv. f_equal.
  pose proof (Z.div_mod h 100 ltac:(lia)). lia.
Qed.

(** ** The error monad *)

Lemma bind_Ok_inv {A B : Type} (r : result A) (k : A → result B) (b : B) :
  (r ≫= k) = Ok b → ∃ a, r = Ok a ∧ k a = Ok b.
Proof. destruct r as [a|e]; simpl; [eauto|done]. Qed.

Lemma bind_Raise {A B : Type} (r : result A) (k : A → result B) :
  is_Ok r = false → is_Ok (r ≫= k) = false.
Proof. by destruct r. Qed.

Lemma is_Ok_false {A : Type} (r : result A) :
  is_Ok r = false ↔ ∃ e, r = Raise e.
Proof. destruct r; simpl; split; try done; eauto. intros [? ?]; done. Qed.

Lemma foldl_bind_Raise {A B : Type} (f : A → B → result A) (e : exn)
    (l : list B) :
  foldl (λ acc x, a ← acc; f a x) (Raise e) l = Raise e.
Proof. induction l; simpl; done. Qed.

Lemma foldl_bind_snoc {A B : Type} (f : A → B → result A) (init : result A)
    (l : list B) (x : B) :
  foldl (λ acc x, a ← acc; f a x) init (l ++ [x])
  = (a ← foldl (λ acc x, a ← acc; f a x) init l; f a x).
Proof. by rewrite foldl_app. Qed.

(** ** The loop over the rows *)

Lemma loop_snoc (rows : list row) (r : row) :
  loop (rows ++ [r]) = (a ← loop rows; loop_body a r).
Proof. apply foldl_bind_snoc. Qed.

(** A row with a timestamp that does not parse stops the loop body. *)
Lemma loop_body_bad_timestamp (acc : accumulator) (r : row) :
  timestamps_parse r = false → is_Ok (loop_body acc r) = false.
Proof.
  unfold timestamps_parse, loop_body.
  destruct (strptime (row_created r)); simpl; [|done].
  destruct (strptime (row_modified r)); simpl; done.
Qed.

Lemma loop_bad_timestamp (rows : list row) (r : row) :
  r ∈ rows → timestamps_parse r = false → is_Ok (loop rows) = false.
Proof.
  intros Hin Hbad. induction rows as [|x rows IH] using rev_ind.
  - by apply elem_of_nil in Hin.
  - rewrite loop_snoc. apply elem_of_app in Hin as [Hin|Hin].
    + apply bind_Raise. by apply IH.
    + apply list_elem_of_singleton in Hin as ->.
      destruct (loop rows) as [a|e]; simpl; [|done].
      by apply loop_body_bad_timestamp.
Qed.

Lemma datetime_sub_seconds (m c : datetime) :
  to_microseconds (datetime_sub m c) = (seconds_of m - seconds_of c) * 1000000
  ∧ timedelta_bool (datetime_sub m c)
    = negb (seconds_of m - seconds_of c =? 0).
Proof.
  unfold to_microseconds, timedelta_bool, datetime_sub, seconds_of. simpl.
  set (s := hour m * 3600 + minute m * 60 + second m
            - (hour c * 3600 + minute c * 60 + second c)).
  set (o := toordinal m - toordinal c).
  pose proof (Z.div_mod s 86400 ltac:(lia)) as Hdm.
  pose proof (Z.mod_pos_bound s 86400 ltac:(lia)) as Hb.
  split; [lia|].
  f_equal.
  destruct (Z.eqb_spec (toordinal m * 86400 + hour m * 3600 + minute m * 60
                        + second m
                        - (toordinal c * 86400 + hour c * 3600
                           + minute c * 60 + second c)) 0) as [Hz|Hz].
  - assert ((o + s `div` 86400 = 0) ∧ (s `mod` 86400 = 0)) as [-> ->]
      by (unfold o, s in *; lia).
    reflexivity.
  - destruct (Z.eqb_spec (o + s `div` 86400) 0) as [H1|H1]; [|done].
    destruct (Z.eqb_spec (s `mod` 86400) 0) as [H2|H2]; [|done].
    exfalso. apply Hz. unfold o, s in *. lia.
Qed.

Lemma total_seconds_sub (m c : datetime) :
  seconds_of m - seconds_of c ≠ 0 →
  total_seconds (datetime_sub m c)
  = Ok (float_of_int (seconds_of m - seconds_of c)).
Proof.
  intros Hz. unfold total_seconds.
  destruct (datetime_sub_seconds m c) as [-> _].
  by apply int_true_divide_exact.
Qed.

(** What [if row['diff']: stats['diff'].append(...)] leaves in the list. *)
Lemma recorded_diffs (m c : datetime) (l : list float) :
  (if timedelta_bool (datetime_sub m c)
   then s ← total_seconds (datetime_sub m c); Ok (l ++ [s])
   else Ok l)
  = Ok (l ++ option_list
               (if seconds_of m - seconds_of c =? 0 then None
                else Some (float_of_int (seconds_of m - seconds_of c)))).
Proof.
  destruct (datetime_sub_seconds m c) as [_ ->].
  destruct (Z.eqb_spec (seconds_of m - seconds_of c) 0) as [Hz|Hz].
  - cbn [negb option_list]. by rewrite app_nil_r.
  - cbn [negb option_list]. by rewrite total_seconds_sub.
Qed.

Lemma recorded_currencies (r : row) (l : list (string * Decimal))
    (cs : list (string * Decimal)) :
  (if truthy (row_currency r) && truthy (row_amount r)
   then a ← Decimal_of_string (str (row_amount r));
        Ok (l ++ [(str (row_currency r), a)])
   else Ok l) = Ok cs →
  cs = l ++ option_list (currency_pair r).
Proof.
  unfold currency_pair, has_amount.
  destruct (truthy (row_currency r) && truthy (row_amount r)).
  - intros H. apply bind_Ok_inv in H as (a & Ha & H). injection H as <-.
    rewrite Ha. reflexivity.
  - intros [= <-]. cbn [option_list]. by rewrite app_nil_r.
Qed.

Lemma loop_body_spec (acc acc' : accumulator) (r : row) :
  loop_body acc r = Ok acc' →
  timestamps_parse r = true
  ∧ length (acc_rows acc') = S (length (acc_rows acc))
  ∧ acc_status acc' = acc_status acc ++ [row_status r]
  ∧ acc_diff acc' = acc_diff acc ++ option_list (recorded_latency r)
  ∧ acc_currencies acc' = acc_currencies acc ++ option_list (currency_pair r).
Proof.
  unfold loop_body. intros H.
  apply bind_Ok_inv in H as (c & Hc & H).
  apply bind_Ok_inv in H as (m & Hm & H).
  cbv zeta in H. rewrite recorded_diffs in H.
  apply bind_Ok_inv in H as (ds & Hds & H).
  apply bind_Ok_inv in H as (cs & Hcs & H).
  injection Hds as <-. apply recorded_currencies in Hcs as ->.
  injection H as <-.
  cbn [acc_rows acc_diff acc_status acc_currencies].
  split; [|split; [|split; [|split]]].
  - unfold timestamps_parse. rewrite Hc, Hm. reflexivity.
  - rewrite length_app. cbn [length]. lia.
  - reflexivity.
  - unfold recorded_latency, latency. rewrite Hc, Hm. reflexivity.
  - reflexivity.
Qed.

Lemma loop_spec (rows : list row) (acc : accumulator) :
  loop rows = Ok acc →
  Forall (λ r, timestamps_parse r = true) rows
  ∧ length (acc_rows acc) = length rows
  ∧ acc_status acc = map row_status rows
  ∧ acc_diff acc = omap recorded_latency rows
  ∧ acc_currencies acc = omap currency_pair rows.
Proof.
  revert acc. induction rows as [|r rows IH] using rev_ind; intros acc.
  - intros [= <-]. repeat split; constructor.
  - rewrite loop_snoc. intros H. apply bind_Ok_inv in H as (a & Ha & H).
    destruct (IH a Ha) as (Hp & Hl & Hs & Hd & Hc).
    destruct (loop_body_spec a acc r H) as (Hp' & Hl' & Hs' & Hd' & Hc').
    repeat split.
    + apply Forall_app. split; [done|by constructor].
    + rewrite Hl', Hl, length_app. simpl. lia.
    + by rewrite Hs', Hs, map_app.
    + rewrite Hd', Hd, omap_app. f_equal; simpl;
        by destruct (recorded_latency r).
    + rewrite Hc', Hc, omap_app. f_equal; simpl;
        by destruct (currency_pair r).
Qed.

(** ** [aggregate] and [transactions] *)

Lemma aggregate_inv (rows : list row) (parsed : list parsed_row) (st : stats) :
  aggregate rows = Ok (parsed, st) →
  ∃ acc, loop rows = Ok acc
    ∧ parsed = acc_rows acc
    ∧ diff st = acc_diff acc
    ∧ status st = acc_status acc
    ∧ mean_of (acc_diff acc) = Ok (mean st)
    ∧ status_percentages (acc_status acc) = Ok (statuses st)
    ∧ currency_buckets (list_to_dict_multiple (acc_currencies acc))
      = Ok (currencies st).
Proof.
  unfold aggregate. intros H.
  apply bind_Ok_inv in H as (acc & Hacc & H).
  apply bind_Ok_inv in H as (mn & Hmn & H).
  apply bind_Ok_inv in H as (sts & Hsts & H).
  apply bind_Ok_inv in H as (cur & Hcur & H).
  injection H as <- <-. exists acc. simpl. done.
Qed.

Lemma transactions_inv (today : datetime) (rows : list row) (p : page) :
  transactions today rows = Ok p →
  dates_of today = Ok (page_dates p)
  ∧ aggregate rows = Ok (page_rows p, page_stats p).
Proof.
  unfold transactions. intros H.
  apply bind_Ok_inv in H as (dates & Hdates & H).
  apply bind_Ok_inv in H as ([parsed st] & Hagg & H).
  injection H as <-. simpl. done.
Qed.

(** C8: on no rows at all the aggregation succeeds: no parsed row (a row
    count of zero), no latency, no mean, no status percentage and no
    currency bucket; [transactions] then returns exactly that, next to the
    dates. *)
Theorem aggregate_empty :
  (∃ parsed st,
     aggregate [] = Ok (parsed, st)
     ∧ length parsed = 0%nat
     ∧ diff st = [] ∧ mean st = None
     ∧ statuses st = [] ∧ currencies st = ∅)
  ∧ ∀ today dates,
      dates_of today = Ok dates →
      transactions today []
      = Ok {| page_rows := []; page_dates := dates;
              page_stats := empty_stats |}.
Proof.
  split.
  - exists [], empty_stats. repeat split.
  - intros today dates Hdates. unfold transactions. rewrite Hdates.
    reflexivity.
Qed.

Lemma aggregate_empty_witness :
  transactions example_today []
  = Ok {| page_rows := [];
          page_dates := [("-1 day", "2024-01-01"); ("-2 days", "2023-12-31");
                         ("-3 days", "2023-12-30")]%string;
          page_stats := empty_stats |}.
Proof.
  apply (proj2 aggregate_empty). vm_compute. reflexivity.
Defined.

(** C9: the statistics depend on the rows alone. Two runs over the same
    rows, whatever the clock reads at each, hand back the same parsed rows
    and the same statistics (latencies, mean, status percentages in the
    same order, currency buckets), and both are those of [aggregate]. *)
Theorem transactions_deterministic
    (today1 today2 : datetime) (rows : list row) (p1 p2 : page) :
  transactions today1 rows = Ok p1 →
  transactions today2 rows = Ok p2 →
  page_stats p1 = page_stats p2
  ∧ page_rows p1 = page_rows p2
  ∧ aggregate rows = Ok (page_rows p1, page_stats p1).
Proof.
  intros H1 H2.
  apply transactions_inv in H1 as [_ H1].
  apply transactions_inv in H2 as [_ H2].
  rewrite H1 in H2. injection H2 as <- <-. done.
Qed.

(** C2, as the code has it: a timestamp that does not parse under the
    fixed format is fatal to the whole batch. Whenever some row of the
    input has a [created] or [modified] value that [strptime] rejects,
    [transactions] raises and no statistics are produced for any row. *)
Theorem bad_timestamp_aborts_batch
    (today : datetime) (rows : list row) (r : row) :
  r ∈ rows →
  timestamps_parse r = false →
  is_Ok (aggregate rows) = false ∧ is_Ok (transactions today rows) = false.
Proof.
  intros Hin Hbad.
  assert (is_Ok (aggregate rows) = false) as Hagg.
  { unfold aggregate. apply bind_Raise. by eapply loop_bad_timestamp. }
  split; [done|].
  unfold transactions. destruct (dates_of today); simpl; [|done].
  by apply bind_Raise.
Qed.

Lemma bad_timestamp_aborts_batch_witness :
  is_Ok (aggregate damaged_rows) = false
  ∧ is_Ok (transactions example_today damaged_rows) = false.
Proof.
  apply (bad_timestamp_aborts_batch example_today damaged_rows
           {| row_created := Some "2024-01-01 00:00:00"%string;
              row_modified := Some "2024-01-01T00:01:40"%string;
              row_status := Some "1"%string;
              row_currency := Some "USD"%string;
              row_amount := Some "10.00"%string |}).
  - unfold damaged_rows. apply elem_of_cons. left. reflexivity.
  - vm_compute. reflexivity.
Defined.

(** C2 fails on the code: a [created] value with a blank in place of the
    [T] makes the whole batch raise [ValueError]; the status of that row
    is not counted and the row after it is not processed. *)
Lemma bad_timestamp_not_skipped :
  strptime (Some "2024-01-01 00:00:00"%string) = Raise ValueError
  ∧ aggregate damaged_rows = Raise ValueError
  ∧ transactions example_today damaged_rows = Raise ValueError
  ∧ ¬ ∃ p, transactions example_today damaged_rows = Ok p
           ∧ status (page_stats p) = [Some "1"; Some "4"]%string.
Proof.
  assert (transactions example_today damaged_rows = Raise ValueError) as H
    by (vm_compute; reflexivity).
  repeat split; try (vm_compute; reflexivity).
  intros (p & Hp & _). rewrite H in Hp. discriminate.
Qed.

Lemma transactions_deterministic_witness :
  ∃ p1 p2,
    transactions example_today example_rows = Ok p1
    ∧ transactions {| year := 2031; month := 7; day := 15; hour := 23;
                      minute := 59; second := 59 |} example_rows = Ok p2
    ∧ page_stats p1 = page_stats p2
    ∧ page_rows p1 = page_rows p2.
Proof.
  destruct (transactions example_today example_rows) as [p1|] eqn:E1;
    [|vm_compute in E1; discriminate].
  destruct (transactions {| year := 2031; month := 7; day := 15; hour := 23;
                            minute := 59; second := 59 |} example_rows)
    as [p2|] eqn:E2; [|vm_compute in E2; discriminate].
  exists p1, p2.
  destruct (transactions_deterministic _ _ _ _ _ E1 E2) as (H1 & H2 & _).
  exact (conj eq_refl (conj eq_refl (conj H1 H2))).
Defined.

(** ** Currency buckets *)

Lemma values_of_snoc {V : Type} (k k' : string) (v : V)
    (l : list (string * V)) :
  values_of k (l ++ [(k', v)])
  = values_of k l ++ (if String.eqb k' k then [v] else []).
Proof.
  unfold values_of. rewrite omap_app. f_equal. simpl.
  by destruct (String.eqb k' k).
Qed.

Lemma list_to_dict_multiple_snoc {V : Type} (l : list (string * V))
    (k : string) (v : V) :
  list_to_dict_multiple (l ++ [(k, v)])
  = <[k := default [] (list_to_dict_multiple l !! k) ++ [v]]>
      (list_to_dict_multiple l).
Proof. unfold list_to_dict_multiple. by rewrite foldl_app. Qed.

(** The dict holds, under each key, the values paired with it, in order;
    a key paired with nothing is absent. *)
Lemma list_to_dict_multiple_lookup {V : Type} (l : list (string * V))
    (k : string) :
  list_to_dict_multiple l !! k
  = match values_of k l with
    | [] => None
    | vs => Some vs
    end.
Proof.
  induction l as [|[k' v] l IH] using rev_ind; [done|].
  rewrite list_to_dict_multiple_snoc, values_of_snoc.
  destruct (String.eqb_spec k' k) as [->|Hne].
  - rewrite lookup_insert_eq, IH.
    destruct (values_of k l) as [|x vs]; simpl; [done|].
    by destruct (vs ++ [v]) eqn:E; [destruct vs; discriminate|].
  - rewrite lookup_insert_ne by done. by rewrite app_nil_r.
Qed.







(** ** Status percentages *)

Lemma groupby_complete {A : Type} (eqb : A → A → bool) (l : list A) (x : A) :
  (∀ a b, eqb a b = true ↔ a = b) →
  x ∈ l → x ∈ (groupby eqb l).*1.
Proof.
  intros eqb_eq. induction l as [|y l IH]; [by rewrite elem_of_nil|].
  intros Hin. simpl.
  destruct (groupby eqb l) as [|[z g] runs] eqn:E.
  - destruct l as [|w l]; [|by destruct (groupby_head eqb w l) as (?&?&?); congruence].
    apply list_elem_of_singleton in Hin as ->. by left.
  - apply elem_of_cons in Hin as [->|Hin].
    + destruct (eqb y z); by left.
    + specialize (IH Hin). simpl in IH.
      destruct (eqb y z) eqn:Eyz.
      * apply eqb_eq in Eyz as ->. done.
      * by right.
Qed.

Lemma percentage_defined (g n : Z) :
  n ≠ 0 → ∃ p, percentage g n = Ok p.
Proof.
  intros Hn. unfold percentage, int_true_divide.
  destruct (Z.eqb_spec n 0) as [?|_]; [done|].
  destruct (g =? 0); simpl; eauto.
Qed.

Lemma status_percentages_from (n : Z)
    (runs : list (option string * list (option string)))
    (out : list (string * string)) :
  foldl (λ acc '(st, group),
           out ← acc;
           perc ← percentage (Z.of_nat (length group)) n;
           Ok (out ++ [(str st, format_2f perc)]))
        (Ok []) runs = Ok out →
  Forall2 (λ '(st, group) entry,
             ∃ p, percentage (Z.of_nat (length group)) n = Ok p
                  ∧ entry = (str st, format_2f p)) runs out.
Proof.
  revert out. induction runs as [|[st group] runs IH] using rev_ind;
    intros out.
  - intros [= <-]. constructor.
  - rewrite foldl_app. simpl. intros H.
    apply bind_Ok_inv in H as (out' & Hout' & H).
    apply bind_Ok_inv in H as (p & Hp & H).
    injection H as <-.
    apply Forall2_app; [by apply IH|].
    constructor; [|constructor]. eauto.
Qed.

(** The entries of [stats['statuses']]: one per run of the sorted status
    values, every run being all the occurrences of one value. *)
Lemma status_percentages_inv (sts : list (option string))
    (out : list (string * string)) :
  status_percentages sts = Ok out →
  (∀ v, v ∈ sts →
     ∃ p, percentage (Z.of_nat (occurrences v sts)) (Z.of_nat (length sts))
          = Ok p
          ∧ (str v, format_2f p) ∈ out)
  ∧ (∀ entry, entry ∈ out →
       ∃ v p, v ∈ sts
         ∧ percentage (Z.of_nat (occurrences v sts)) (Z.of_nat (length sts))
           = Ok p
         ∧ entry = (str v, format_2f p)).
Proof.
  unfold status_percentages. intros H.
  apply status_percentages_from in H.
  pose proof (sorted_ascending status_le status_le_total status_le_trans sts)
    as Hasc.
  destruct (groupby_ascending status_le status_eqb status_le_antisym
              status_eqb_eq _ Hasc) as [_ Hocc].
  assert (∀ k g, (k, g) ∈ groupby status_eqb (sorted status_le sts) →
            k ∈ sts ∧ length g = occurrences k sts) as Hrun.
  { intros k g Hin. split.
    - apply groupby_keys in Hin. by rewrite sorted_perm in Hin.
    - rewrite (Hocc k g Hin). apply occurrences_perm, sorted_perm. }
  split.
  - intros v Hv.
    assert (v ∈ (groupby status_eqb (sorted status_le sts)).*1) as Hkey.
    { apply groupby_complete; [apply status_eqb_eq|]. by rewrite sorted_perm. }
    apply list_elem_of_fmap in Hkey as [[k g] [-> Hin]]. simpl.
    destruct (Hrun k g Hin) as [_ Hlen].
    apply list_elem_of_lookup in Hin as [i Hi].
    destruct (Forall2_lookup_l _ _ _ _ _ H Hi) as (entry & He & p & Hp & ->).
    exists p. rewrite <- Hlen. split; [done|].
    apply list_elem_of_lookup. eauto.
  - intros entry He. apply list_elem_of_lookup in He as [i Hi].
    destruct (Forall2_lookup_r _ _ _ _ _ H Hi) as ([k g] & Hr & p & Hp & ->).
    assert ((k, g) ∈ groupby status_eqb (sorted status_le sts)) as Hin
      by (apply list_elem_of_lookup; eauto).
    destruct (Hrun k g Hin) as [Hk Hlen].
    exists k, p. rewrite <- Hlen. done.
Qed.

Lemma status_percentages_keys (sts : list (option string))
    (out : list (string * string)) :
  status_percentages sts = Ok out →
  ∃ keys, NoDup keys ∧ (∀ v, v ∈ keys ↔ v ∈ sts) ∧ out.*1 = map str keys.
Proof.
  intros H. unfold status_percentages in H.
  apply status_percentages_from in H.
  pose proof (sorted_ascending status_le status_le_total status_le_trans sts)
    as Hasc.
  destruct (groupby_ascending status_le status_eqb status_le_antisym
              status_eqb_eq _ Hasc) as [Hnd _].
  exists (groupby status_eqb (sorted status_le sts)).*1.
  split; [done|]. split.
  - intros v. split.
    + intros Hv. apply list_elem_of_fmap in Hv as [[k g] [-> Hin]].
      apply groupby_keys in Hin. by rewrite sorted_perm in Hin.
    + intros Hv. apply groupby_complete; [apply status_eqb_eq|].
      by rewrite sorted_perm.
  - clear Hnd Hasc.
    induction H as [|[k g] entry runs out' Hhd _ IH]; [done|].
    destruct Hhd as (p & _ & ->).
    rewrite !fmap_cons, IH. reflexivity.
Qed.

(** The printed percentage of a value read back as a number: within
    half a hundredth (and a float error below 2^-38) of
    [100 * occurrences / total]. *)
Lemma printed_percentage_accurate (g n : Z) (p : float) :
  0 < g <= n →
  percentage g n = Ok p →
  ∃ h, read_2f (format_2f p) = Some h
    ∧ (Rabs (IZR h - 10000 * ratio g n) <= 1 / 2 + / 274877906944)%R.
Proof.
  intros Hg Hp.
  destruct (percentage_error g n Hg) as (p' & Hp' & Hfmt & Hh0 & Herr).
  rewrite Hp in Hp'. injection Hp' as <-.
  exists (printed_hundredths p). split; [|done].
  rewrite Hfmt. by apply read_show_hundredths.
Qed.

(** C3, as the code has it: the status of every row is recorded, an empty
    or missing one like any other, and the distribution has one entry per
    distinct value among them: the number of occurrences of the value
    divided by the number of all rows, times 100, printed with ['%.2f'],
    which reads back as a number within half a hundredth (and a float
    error below 2^-38) of [100 * occurrences / rows]. Nothing else is in
    the distribution. *)
Theorem status_distribution_counts_every_row
    (rows : list row) (parsed : list parsed_row) (st : stats) :
  aggregate rows = Ok (parsed, st) →
  status st = map row_status rows
  ∧ (∃ keys, NoDup keys
       ∧ (∀ v, v ∈ keys ↔ v ∈ map row_status rows)
       ∧ (statuses st).*1 = map str keys)
  ∧ (∀ v, v ∈ map row_status rows →
       ∃ p h,
         percentage (Z.of_nat (occurrences v (map row_status rows)))
                    (Z.of_nat (length rows)) = Ok p
         ∧ (str v, format_2f p) ∈ statuses st
         ∧ read_2f (format_2f p) = Some h
         ∧ (Rabs (IZR h
                  - 10000 * ratio
                      (Z.of_nat (occurrences v (map row_status rows)))
                      (Z.of_nat (length rows)))
            <= 1 / 2 + / 274877906944)%R)
  ∧ (∀ entry, entry ∈ statuses st →
       ∃ v p, v ∈ map row_status rows
         ∧ percentage (Z.of_nat (occurrences v (map row_status rows)))
                      (Z.of_nat (length rows)) = Ok p
         ∧ entry = (str v, format_2f p)).
Proof.
  intros Hagg.
  apply aggregate_inv in Hagg as (acc & Hloop & _ & _ & Hst & _ & Hsts & _).
  apply loop_spec in Hloop as (_ & _ & Hstatus & _ & _).
  rewrite Hstatus in Hst, Hsts.
  pose proof (status_percentages_keys _ _ Hsts) as Hkeys.
  apply status_percentages_inv in Hsts as [H1 H2].
  rewrite length_map in H1, H2.
  split; [done|]. split; [done|]. split; [|done].
  intros v Hv. destruct (H1 v Hv) as (p & Hp & Hin).
  destruct (printed_percentage_accurate
              (Z.of_nat (occurrences v (map row_status rows)))
              (Z.of_nat (length rows)) p) as (h & Hh & Herr); [|done|].
  - split.
    + pose proof (occurrences_pos v _ Hv). lia.
    + unfold occurrences.
      pose proof (length_filter (λ y, y = v) (map row_status rows)) as Hle.
      rewrite length_map in Hle. lia.
  - exists p, h. done.
Qed.

Lemma status_distribution_counts_every_row_witness :
  ∃ parsed st,
    aggregate rows_with_empty_status = Ok (parsed, st)
    ∧ status st = map row_status rows_with_empty_status
    ∧ ∃ p, percentage
             (Z.of_nat (occurrences (Some ""%string)
                          (map row_status rows_with_empty_status)))
             (Z.of_nat (length rows_with_empty_status)) = Ok p
           ∧ (""%string, format_2f p) ∈ statuses st.
Proof.
  destruct (aggregate rows_with_empty_status) as [[parsed st]|] eqn:E;
    [|vm_compute in E; discriminate].
  exists parsed, st. split; [reflexivity|].
  destruct (status_distribution_counts_every_row _ _ _ E) as (H1 & _ & H2 & _).
  split; [exact H1|].
  destruct (H2 (Some ""%string)) as (p & h & Hp & Hin & _).
  - apply elem_of_cons. right. apply elem_of_cons. left. reflexivity.
  - exists p. exact (conj Hp Hin).
Defined.

(** C3 fails on the code: a record with an empty status forms a group of
    its own, keyed by the empty string, and counts in the denominator: the
    status ["1"] of the other record gets 50.00, not 100.00. *)
Lemma empty_status_is_counted :
  ∃ parsed st,
    aggregate rows_with_empty_status = Ok (parsed, st)
    ∧ status st = [Some "1"; Some ""]%string
    ∧ statuses st = [("", "50.00"); ("1", "50.00")]%string.
Proof.
  destruct (aggregate rows_with_empty_status) as [[parsed st]|] eqn:E;
    vm_compute in E; [|discriminate].
  injection E as <- <-. eexists _, _. split; [reflexivity|].
  split; reflexivity.
Qed.

(** ** The sum of the printed percentages *)

Lemma printed_sum_error (n : Z)
    (runs : list (option string * list (option string)))
    (out : list (string * string)) :
  0 < n →
  Forall (λ '(_, g), 0 < Z.of_nat (length g) <= n) runs →
  Forall2 (λ '(st, group) entry,
             ∃ p, percentage (Z.of_nat (length group)) n = Ok p
                  ∧ entry = (str st, format_2f p)) runs out →
  ∃ total,
    sum_2f out.*2 = Some total
    ∧ (Rabs (IZR total
             - 10000 * (IZR (Z.of_nat
                               (foldr (λ '(_, g) s, (length g + s)%nat)
                                      0%nat runs))
                        / IZR n))
       <= IZR (Z.of_nat (length out)) * (1 / 2 + / 274877906944))%R.
Proof.
  intros Hn Hruns H. induction H as [|[k g] entry runs out Hhd Htl IH].
  - exists 0. split; [done|]. cbn [length foldr].
    change (Z.of_nat 0) with 0. apply Rabs_le. unfold Rdiv. lra.
  - apply Forall_cons in Hruns as [Hg Hruns].
    destruct (IH Hruns) as (t & Ht & Hbound).
    destruct Hhd as (p & Hp & ->).
    destruct (percentage_error _ n Hg) as (p' & Hp' & Hfmt & Hh0 & Herr).
    rewrite Hp in Hp'. injection Hp' as <-.
    exists (printed_hundredths p + t). split.
    + rewrite fmap_cons. cbn [snd sum_2f].
      rewrite Hfmt, read_show_hundredths, Ht by done. reflexivity.
    + cbn [length foldr].
      rewrite Nat2Z.inj_succ, <- Z.add_1_r, Nat2Z.inj_add, !plus_IZR.
      unfold ratio in Herr.
      apply Rabs_le_bounds in Herr, Hbound. apply Rabs_le.
      assert (0 < IZR n)%R by (by apply IZR_lt).
      set (a := IZR (Z.of_nat (length g))) in *.
      set (b := IZR (Z.of_nat (foldr (λ '(_, g0) s, (length g0 + s)%nat)
                                     0%nat runs))) in *.
      replace (10000 * ((a + b) / IZR n))%R
        with (10000 * (a / IZR n) + 10000 * (b / IZR n))%R
        by (field; lra).
      lra.
Qed.

Lemma status_percentages_sum (sts : list (option string))
    (out : list (string * string)) :
  sts ≠ [] →
  status_percentages sts = Ok out →
  ∃ total,
    sum_2f out.*2 = Some total
    ∧ Z.abs (total - 10000) < Z.of_nat (length out)
    ∧ (Z.of_nat (length out) < 2 ^ 37
       → 2 * Z.abs (total - 10000) <= Z.of_nat (length out)).
Proof.
  intros Hne H. unfold status_percentages in H.
  apply status_percentages_from in H.
  set (runs := groupby status_eqb (sorted status_le sts)) in *.
  assert (0 < Z.of_nat (length sts)) as Hn by (destruct sts; [done|simpl; lia]).
  assert (Forall (λ '(_, g), 0 < Z.of_nat (length g)
                             <= Z.of_nat (length sts)) runs) as Hruns.
  { pose proof (sorted_ascending status_le status_le_total status_le_trans sts)
      as Hasc.
    destruct (groupby_ascending status_le status_eqb status_le_antisym
                status_eqb_eq _ Hasc) as [_ Hocc].
    apply Forall_forall. intros [k g] Hin.
    rewrite (Hocc k g Hin).
    pose proof (groupby_keys status_eqb _ k g Hin) as Hk.
    pose proof (occurrences_pos k _ Hk).
    unfold occurrences in *.
    pose proof (length_filter (λ y, y = k) (sorted status_le sts)) as Hle.
    rewrite sorted_length in Hle. lia. }
  destruct (printed_sum_error _ runs out Hn Hruns H) as (t & Ht & Hb).
  unfold runs in Hb. rewrite groupby_lengths, sorted_length in Hb.
  assert (0 < IZR (Z.of_nat (length sts)))%R as HnR by (by apply IZR_lt).
  replace (10000 * (IZR (Z.of_nat (length sts)) / IZR (Z.of_nat (length sts))))%R
    with 10000%R in Hb by (field; lra).
  assert (0 < Z.of_nat (length out)) as Hk.
  { apply Forall2_length in H. rewrite <- H. unfold runs.
    destruct (sorted status_le sts) as [|x l] eqn:E.
    - apply (f_equal length) in E. rewrite sorted_length in E.
      destruct sts; done.
    - destruct (groupby_head status_eqb x l) as (g & r & ->). simpl. lia. }
  exists t. split; [done|].
  rewrite <- minus_IZR, <- abs_IZR in Hb.
  apply IZR_lt in Hk.
  split.
  - apply lt_IZR. lra.
  - intros Hsmall. apply IZR_lt in Hsmall.
    change (2 ^ 37) with 137438953472 in Hsmall.
    assert (2 * Z.abs (t - 10000) < Z.of_nat (length out) + 1) as Hlt; [|lia].
    apply lt_IZR. rewrite mult_IZR, plus_IZR. lra.
Qed.

(** C6, as the code has it: when there is at least one record, the
    distribution has one entry per distinct status value and the sum of
    its printed percentages differs from 100.00 by less than 0.01 times the
    number of entries, and by at most 0.005 times that number (for fewer
    than 2^37 entries): every entry is rounded on its own. *)
Theorem status_percentages_add_up
    (rows : list row) (parsed : list parsed_row) (st : stats) :
  aggregate rows = Ok (parsed, st) →
  rows ≠ [] →
  (∃ keys, NoDup keys
     ∧ (∀ v, v ∈ keys ↔ v ∈ map row_status rows)
     ∧ (statuses st).*1 = map str keys)
  ∧ ∃ total,
      sum_2f (statuses st).*2 = Some total
      ∧ Z.abs (total - 10000) < Z.of_nat (length (statuses st))
      ∧ (Z.of_nat (length (statuses st)) < 2 ^ 37
         → 2 * Z.abs (total - 10000) <= Z.of_nat (length (statuses st))).
Proof.
  intros Hagg Hne.
  apply aggregate_inv in Hagg as (acc & Hloop & _ & _ & _ & _ & Hsts & _).
  apply loop_spec in Hloop as (_ & _ & Hstatus & _ & _).
  rewrite Hstatus in Hsts. split.
  - by apply status_percentages_keys.
  - apply (status_percentages_sum (map row_status rows)); [|done].
    by destruct rows.
Qed.

Lemma status_percentages_add_up_witness :
  ∃ parsed st total,
    aggregate six_status_rows = Ok (parsed, st)
    ∧ sum_2f (statuses st).*2 = Some total
    ∧ Z.abs (total - 10000) < Z.of_nat (length (statuses st)).
Proof.
  destruct (aggregate six_status_rows) as [[parsed st]|] eqn:E;
    [|vm_compute in E; discriminate].
  destruct (status_percentages_add_up _ _ _ E) as (_ & total & H1 & H2 & _);
    [discriminate|].
  exists parsed, st, total. exact (conj eq_refl (conj H1 H2)).
Defined.

(** C6 fails on the code: six records, one of each status, give six
    entries of 16.67, which add up to 100.02. *)
Lemma six_statuses_add_up_to_100_02 :
  ∃ parsed st,
    aggregate six_status_rows = Ok (parsed, st)
    ∧ statuses st = [("0", "16.67"); ("1", "16.67"); ("2", "16.67");
                     ("3", "16.67"); ("4", "16.67"); ("5", "16.67")]%string
    ∧ sum_2f (statuses st).*2 = Some 10002
    ∧ ¬ (Z.abs (10002 - 10000) <= 1).
Proof.
  destruct (aggregate six_status_rows) as [[parsed st]|] eqn:E;
    vm_compute in E; [|discriminate].
  injection E as <- <-. eexists _, _. split; [reflexivity|].
  split; [reflexivity|]. split; [vm_compute; reflexivity|]. lia.
Qed.

Lemma mean_of_inv (diffs : list float) (mn : option string) :
  mean_of diffs = Ok mn →
  (diffs = [] → mn = None)
  ∧ (diffs ≠ [] →
     ∃ q, float_div (float_sum diffs)
                    (float_of_int (Z.of_nat (length diffs))) = Ok q
          ∧ mn = Some (format_2f q)).
Proof.
  unfold mean_of. destruct diffs as [|d diffs].
  - intros [= <-]. done.
  - destruct (Z.eqb_spec (Z.of_nat (length (d :: diffs))) 0) as [Hz|_];
      [simpl in Hz; lia|].
    intros H. apply bind_Ok_inv in H as (q & Hq & H). injection H as <-.
    split; [done|]. intros _. eauto.
Qed.

(** C1, as the code has it: when the aggregation succeeds, both timestamps
    of every row have parsed, and the latencies are the signed differences
    [modified - created] in seconds, row by row, of the rows whose
    difference is not zero: negative differences are recorded, zero ones
    are left out. The mean is ['%.2f'] of the float sum of that list
    divided by its length, and is absent when the list is empty. *)
Theorem latencies_skip_zero_differences
    (rows : list row) (parsed : list parsed_row) (st : stats) :
  aggregate rows = Ok (parsed, st) →
  Forall (λ r, ∃ s, latency r = Some s
                    ∧ recorded_latency r
                      = (if s =? 0 then None else Some (float_of_int s))) rows
  ∧ length parsed = length rows
  ∧ diff st = omap recorded_latency rows
  ∧ (diff st = [] → mean st = None)
  ∧ (diff st ≠ [] →
     ∃ q, float_div (float_sum (diff st))
                    (float_of_int (Z.of_nat (length (diff st)))) = Ok q
          ∧ mean st = Some (format_2f q)).
Proof.
  intros Hagg.
  apply aggregate_inv in Hagg as (acc & Hloop & -> & -> & _ & Hmean & _ & _).
  apply loop_spec in Hloop as (Hparse & Hlen & _ & Hdiff & _).
  apply mean_of_inv in Hmean as [Hnone Hsome].
  split; [|split; [done|split; [done|split; done]]].
  eapply Forall_impl; [exact Hparse|]. intros r Hr.
  unfold timestamps_parse in Hr. unfold recorded_latency, latency.
  destruct (strptime (row_created r)); [|done].
  destruct (strptime (row_modified r)); [|done].
  eauto.
Qed.

Lemma latencies_skip_zero_differences_witness :
  ∃ parsed st,
    aggregate example_rows = Ok (parsed, st)
    ∧ diff st = omap recorded_latency example_rows
    ∧ diff st = [float_of_int 100]
    ∧ mean st = Some "100.00"%string.
Proof.
  destruct (aggregate example_rows) as [[parsed st]|] eqn:E;
    [|vm_compute in E; discriminate].
  destruct (latencies_skip_zero_differences _ _ _ E) as (_ & _ & H & _).
  exists parsed, st.
  refine (conj eq_refl (conj H _)).
  vm_compute in E. injection E as _ <-. split; reflexivity.
Defined.

(** C1 fails on the code: in the example of two records the second has a
    difference of zero and is left out of the latencies, so the mean is
    taken over [100] alone and is 100.00, not 50.00. *)
Lemma example_mean_is_100 :
  ∃ parsed st,
    aggregate example_rows = Ok (parsed, st)
    ∧ map latency example_rows = [Some 100; Some 0]
    ∧ diff st = [float_of_int 100]
    ∧ mean st = Some "100.00"%string
    ∧ mean st ≠ Some "50.00"%string.
Proof.
  destruct (aggregate example_rows) as [[parsed st]|] eqn:E;
    vm_compute in E; [|discriminate].
  injection E as <- <-. eexists _, _. split; [reflexivity|].
  split; [vm_compute; reflexivity|]. split; [vm_compute; reflexivity|].
  split; [reflexivity|]. discriminate.
Qed.

(** A negative difference is recorded as it is; the zero one is not. *)
Example backdated_record_is_recorded :
  ∃ parsed st,
    aggregate backdated_rows = Ok (parsed, st)
    ∧ map latency backdated_rows = [Some (-100); Some 0]
    ∧ diff st = [float_of_int (-100)]
    ∧ mean st = Some "-100.00"%string.
Proof.
  destruct (aggregate backdated_rows) as [[parsed st]|] eqn:E;
    vm_compute in E; [|discriminate].
  injection E as <- <-. eexists _, _. split; [reflexivity|].
  split; [vm_compute; reflexivity|]. split; [vm_compute; reflexivity|].
  reflexivity.
Qed.

(** * Further properties *)

(** ** [get_jenkins] and [get_travis] *)

Lemma lookup_get_jenkins (net : Build.network) (keys : list string)
    (results : gmap string bool) (k : string) :
  Build.get_jenkins net keys results !! k
  = if decide (k ∈ keys)
    then Some (String.eqb (Build.jenkins net k) "SUCCESS")
    else results !! k.
Proof.
  unfold Build.get_jenkins. revert results.
  induction keys as [|key keys IH]; intros results; cbn [foldl].
  - destruct (decide (k ∈ [])) as [H|H]; [by apply elem_of_nil in H|done].
  - rewrite IH. destruct (decide (k ∈ keys)) as [Hin|Hnin].
    + rewrite decide_True by (by right). done.
    + destruct (decide (k = key)) as [->|Hne].
      * rewrite decide_True by (by left). by rewrite lookup_insert_eq.
      * rewrite decide_False by (rewrite elem_of_cons; tauto).
        by rewrite lookup_insert_ne.
Qed.

(** X1: after [get_jenkins] every listed job maps to whether its last
    completed build has the result [SUCCESS], and every other entry of the
    mapping is as before. *)
Theorem get_jenkins_lookup (net : Build.network) (keys : list string)
    (results : gmap string bool) (k : string) :
  Build.get_jenkins net keys results !! k
  = if decide (k ∈ keys)
    then Some (String.eqb (Build.jenkins net k) "SUCCESS")
    else results !! k.
Proof. apply lookup_get_jenkins. Qed.

Lemma lookup_get_travis (net : Build.network) (keys : list string)
    (results : gmap string bool) (k : string) :
  Build.get_travis net keys results !! k
  = if decide (k ∈ keys)
    then Some (match Build.travis net k with
               | Some n => n =? 0
               | None => false
               end)
    else results !! k.
Proof.
  unfold Build.get_travis. revert results.
  induction keys as [|key keys IH]; intros results; cbn [foldl].
  - destruct (decide (k ∈ [])) as [H|H]; [by apply elem_of_nil in H|done].
  - rewrite IH. destruct (decide (k ∈ keys)) as [Hin|Hnin].
    + rewrite decide_True by (by right). done.
    + destruct (decide (k = key)) as [->|Hne].
      * rewrite decide_True by (by left). by rewrite lookup_insert_eq.
      * rewrite decide_False by (rewrite elem_of_cons; tauto).
        by rewrite lookup_insert_ne.
Qed.

(** X2: after [get_travis] every listed repository maps to whether its
    [last_build_result] is 0 (a null result counts as failing), and every
    other entry of the mapping is as before. *)
Theorem get_travis_lookup (net : Build.network) (keys : list string)
    (results : gmap string bool) (k : string) :
  Build.get_travis net keys results !! k
  = if decide (k ∈ keys)
    then Some (match Build.travis net k with
               | Some n => n =? 0
               | None => false
               end)
    else results !! k.
Proof. apply lookup_get_travis. Qed.

(** ** [get_build] *)

(** X3: while a poll is in the cache, [get_build] answers from it: the
    network and the clock have no influence on the outcome, the [when] of
    the answer is that of the cached poll, and the poll stays in the
    cache. *)
Theorem get_build_cache_hit (c : Build.cache) (r : Build.poll)
    (net1 net2 : Build.network) (t1 t2 : Z) :
  Build.slot_build c = Some r →
  Build.get_build c net1 t1 = Build.get_build c net2 t2
  ∧ Build.out_when (Build.get_build c net1 t1) = Build.when r
  ∧ Build.slot_build (Build.out_cache (Build.get_build c net1 t1)) = Some r.
Proof.
  intros Hr.
  assert (∀ net t, poll_used c net t = r) as Hpoll.
  { intros net t. unfold poll_used. by rewrite Hr. }
  split; [|split].
  - rewrite !get_build_unfold, !Hpoll, Hr. reflexivity.
  - rewrite get_build_unfold, Hpoll. cbv zeta.
    destruct (Build.is_None _); [done|]. by destruct (Build.py_ne _ _).
  - destruct (get_build_cache c net1 t1) as (_ & _ & Hslot & _).
    by rewrite Hslot, Hpoll.
Qed.

Lemma get_build_cache_hit_witness :
  Build.get_build example_cache example_network 0
  = Build.get_build example_cache green_network 7
  ∧ Build.out_when (Build.get_build example_cache example_network 0) = 0.
Proof.
  destruct (get_build_cache_hit example_cache example_poll
              example_network green_network 0 7 eq_refl) as (H1 & H2 & _).
  exact (conj H1 H2).
Defined.

(** X4: on a cache miss [get_build] polls: the answer is stamped with
    the clock, holds exactly the jobs of the two tables (a Jenkins job is
    true when its result is [SUCCESS], a Travis repository when its last
    build result is 0), and the poll is put in the cache. *)
Theorem get_build_cache_miss (c : Build.cache) (net : Build.network)
    (now : Z) :
  Build.slot_build c = None →
  Build.out_when (Build.get_build c net now) = now
  ∧ (∃ r, Build.slot_build (Build.out_cache (Build.get_build c net now))
          = Some r
        ∧ Build.when r = now
        ∧ ∀ job ok, (job, ok) ∈ Build.out_results (Build.get_build c net now)
                    ↔ Build.results r !! job = Some ok)
  ∧ ∀ job ok,
      (job, ok) ∈ Build.out_results (Build.get_build c net now)
      ↔ (job ∈ Build.builds_travis
         ∧ (ok = match Build.travis net job with
                 | Some n => n =? 0
                 | None => false
                 end))
        ∨ ((job ∉ Build.builds_travis) ∧ job ∈ Build.builds_jenkins
           ∧ (ok = String.eqb (Build.jenkins net job) "SUCCESS")).
Proof.
  intros Hmiss.
  destruct (get_build_results c net now) as [Hres _].
  destruct (get_build_cache c net now) as (_ & _ & Hslot & _).
  assert (∀ job ok, (job, ok) ∈ Build.out_results (Build.get_build c net now)
            ↔ Build.results (poll_used c net now) !! job = Some ok) as Hiff.
  { intros job ok. rewrite Hres, sorted_perm. apply elem_of_map_to_list. }
  assert (Build.when (poll_used c net now) = now) as Hwhen.
  { unfold poll_used. by rewrite Hmiss. }
  split; [|split].
  - rewrite get_build_unfold. cbv zeta.
    destruct (Build.is_None _); [done|]. by destruct (Build.py_ne _ _).
  - exists (poll_used c net now). done.
  - intros job ok. rewrite Hiff. unfold poll_used. rewrite Hmiss.
    cbn [Build.results].
    rewrite lookup_get_travis, lookup_get_jenkins, lookup_empty.
    destruct (decide (job ∈ Build.builds_travis)) as [Ht|Ht].
    + split; [intros [= <-]; by left|].
      intros [[_ ->]|[Hn _]]; [done|contradiction].
    + destruct (decide (job ∈ Build.builds_jenkins)) as [Hj|Hj].
      * split; [intros [= <-]; by right|].
        intros [[Hy _]|(_ & _ & ->)]; [contradiction|done].
      * split; [done|]. intros [[Hy _]|(_ & Hy & _)]; contradiction.
Qed.

Lemma get_build_cache_miss_witness :
  Build.out_when (Build.get_build empty_cache green_network 42) = 42
  ∧ (("solitude"%string, true)
     ∈ Build.out_results (Build.get_build empty_cache green_network 42)).
Proof.
  destruct (get_build_cache_miss empty_cache green_network 42 eq_refl)
    as (H1 & _ & H2).
  split; [exact H1|]. apply H2. right.
  split; [|split; [|reflexivity]].
  - unfold Build.builds_travis. rewrite !elem_of_cons, elem_of_nil.
    intros H. repeat (destruct H as [H|H]; [discriminate|]). exact H.
  - unfold Build.builds_jenkins. apply elem_of_cons. by left.
Defined.

Lemma item_le_total (a b : string * bool) :
  Build.item_le a b = true ∨ Build.item_le b a = true.
Proof. apply String.leb_total. Qed.

Lemma item_le_trans (a b c : string * bool) :
  Build.item_le a b = true → Build.item_le b c = true →
  Build.item_le a c = true.
Proof. apply string_leb_trans. Qed.

(** X5: the jobs of the answer are those of the poll, each once, in
    ascending order of their names. *)
Theorem get_build_results_sorted (c : Build.cache) (net : Build.network)
    (now : Z) :
  ascending Build.item_le (Build.out_results (Build.get_build c net now))
  ∧ NoDup (Build.out_results (Build.get_build c net now)).*1
  ∧ Build.out_results (Build.get_build c net now)
    ≡ₚ map_to_list (Build.results (poll_used c net now))
  ∧ length (Build.out_results (Build.get_build c net now))
    = size (Build.results (poll_used c net now)).
Proof.
  destruct (get_build_results c net now) as [-> _].
  split; [|split; [|split]].
  - apply sorted_ascending; [apply item_le_total|apply item_le_trans].
  - rewrite sorted_perm. apply NoDup_fst_map_to_list.
  - apply sorted_perm.
  - rewrite sorted_length. by rewrite length_map_to_list.
Qed.

(** X6: whatever a call finds, it leaves a boolean in the [last-build]
    slot, and that boolean is [False] exactly when the call took the arm of
    a change and the build is failing; a passing build always leaves
    [True]. *)
Theorem get_build_leaves_boolean (c : Build.cache) (net : Build.network)
    (now : Z) :
  ∃ b, Build.slot_last_build (Build.out_cache (Build.get_build c net now))
       = Some (Build.PyBool b)
    ∧ (b = false
       ↔ Build.out_arm (Build.get_build c net now) = Build.Changed
         ∧ Build.out_passing (Build.get_build c net now) = false).
Proof.
  destruct (get_build_cache c net now) as (Hp & Ha & _ & Hl).
  eexists. split; [exact Hl|]. rewrite Ha, Hp.
  destruct (Build.truth (Build.cache_get_last_build c)),
    (status_of (poll_used c net now)); simpl; split; try done;
    intros [? ?]; done.
Qed.

Lemma after_calls_poll (n : nat) (c : Build.cache) (net : Build.network)
    (clock : nat → Z) :
  poll_used (after_calls (S n) c net clock) net (clock (S n))
  = poll_used c net (clock 0%nat).
Proof.
  induction n as [|n IH].
  - simpl. apply poll_used_cached.
  - cbn [after_calls]. rewrite poll_used_cached.
    cbn [after_calls] in IH.
    assert (∀ t, poll_used
                   (Build.out_cache
                      (Build.get_build (after_calls n c net clock) net
                         (clock n))) net t
                 = poll_used (after_calls n c net clock) net (clock n)) as H
      by (intros t; apply poll_used_cached).
    rewrite H in IH |- *. exact IH.
Qed.

(** X7: a recovery is reported once. If the stored status is false or
    missing and the poll passes, the first call takes the arm of a change
    and every later call, as long as the poll stays in the cache, finds the
    build passing and takes the arm without change. *)
Theorem get_build_recovery_detected_once
    (c : Build.cache) (net : Build.network) (clock : nat → Z) :
  Build.truth (Build.cache_get_last_build c) = false →
  Build.out_passing (Build.get_build c net (clock 0%nat)) = true →
  Build.out_arm (call_number 0 c net clock) = Build.Changed
  ∧ ∀ n, (0 < n)%nat →
      Build.out_passing (call_number n c net clock) = true
      ∧ Build.out_arm (call_number n c net clock) = Build.Unchanged.
Proof.
  intros Hlast Hpass.
  destruct (get_build_cache c net (clock 0%nat)) as (Hp & Ha & _ & Hl).
  rewrite Hp in Hpass. rewrite Hlast, Hpass in Ha, Hl.
  split; [exact Ha|].
  assert (∀ n, Build.slot_last_build (after_calls (S n) c net clock)
               = Some (Build.PyBool true)) as Hinv.
  { induction n as [|n IH]; [exact Hl|].
    cbn [after_calls].
    destruct (get_build_cache (after_calls (S n) c net clock) net
                (clock (S n))) as (_ & _ & _ & Hl').
    rewrite after_calls_poll in Hl'. unfold Build.cache_get_last_build in Hl'.
    rewrite IH, Hpass in Hl'. exact Hl'. }
  intros [|n] Hn; [lia|]. unfold call_number.
  destruct (get_build_cache (after_calls (S n) c net clock) net (clock (S n)))
    as (Hp' & Ha' & _ & _).
  rewrite after_calls_poll in Hp', Ha'.
  unfold Build.cache_get_last_build in Ha'.
  rewrite Hinv, Hpass in Ha'. rewrite Hpass in Hp'. done.
Qed.

Lemma get_build_recovery_detected_once_witness :
  Build.out_arm (call_number 0 empty_cache green_network (λ n, Z.of_nat n))
    = Build.Changed
  ∧ Build.out_arm (call_number 3 empty_cache green_network (λ n, Z.of_nat n))
    = Build.Unchanged.
Proof.
  destruct (get_build_recovery_detected_once empty_cache green_network
              (λ n, Z.of_nat n)) as [H0 Hn];
    [reflexivity|vm_compute; reflexivity|].
  split; [exact H0|]. apply (Hn 3%nat). lia.
Defined.

(** X8: a failure is reported again and again. If the stored status is
    true and the poll fails, then, as long as the poll stays in the cache,
    the calls take the arm of a change and the arm without change in
    turn: the call after an even number of calls detects a change, the
    call after an odd number does not. *)
Theorem get_build_failure_detected_every_other_call
    (c : Build.cache) (net : Build.network) (clock : nat → Z) (n : nat) :
  Build.truth (Build.cache_get_last_build c) = true →
  Build.out_passing (Build.get_build c net (clock 0%nat)) = false →
  Build.out_passing (call_number n c net clock) = false
  ∧ Build.out_arm (call_number n c net clock)
    = (if Nat.even n then Build.Changed else Build.Unchanged).
Proof.
  intros Hlast Hfail.
  destruct (get_build_cache c net (clock 0%nat)) as (Hp & _ & _ & _).
  rewrite Hp in Hfail.
  assert (∀ k, poll_used (after_calls k c net clock) net (clock k)
               = poll_used c net (clock 0%nat)) as Hpoll.
  { intros [|k]; [done|apply after_calls_poll]. }
  assert (∀ k, Build.truth (Build.cache_get_last_build
                              (after_calls k c net clock))
               = Nat.even k) as Hinv.
  { induction k as [|k IH]; [exact Hlast|].
    cbn [after_calls].
    destruct (get_build_cache (after_calls k c net clock) net (clock k))
      as (_ & _ & _ & Hl).
    rewrite Hpoll, IH, Hfail in Hl.
    unfold Build.cache_get_last_build. rewrite Hl.
    rewrite Nat.even_succ, <- Nat.negb_even.
    by destruct (Nat.even k). }
  unfold call_number.
  destruct (get_build_cache (after_calls n c net clock) net (clock n))
    as (Hp' & Ha' & _ & _).
  rewrite Hpoll, Hfail in Hp'. rewrite Hpoll, Hinv, Hfail in Ha'.
  split; [exact Hp'|]. rewrite Ha'. by destruct (Nat.even n).
Qed.

Lemma get_build_failure_detected_every_other_call_witness :
  Build.out_arm (call_number 4 example_cache example_network (λ _, 0))
    = Build.Changed
  ∧ Build.out_arm (call_number 5 example_cache example_network (λ _, 0))
    = Build.Unchanged.
Proof.
  split.
  - apply (get_build_failure_detected_every_other_call
             example_cache example_network (λ _, 0) 4);
      [reflexivity|vm_compute; reflexivity].
  - apply (get_build_failure_detected_every_other_call
             example_cache example_network (λ _, 0) 5);
      [reflexivity|vm_compute; reflexivity].
Defined.

(** ** [list_to_dict_multiple] *)

Lemma total_values_insert {V : Type} (d : gmap string (list V))
    (k : string) (vs : list V) :
  (total_values (<[k := vs]> d) + length (default [] (d !! k))
   = total_values d + length vs)%nat.
Proof.
  unfold total_values.
  assert (∀ (m : gmap string (list V)) (j1 j2 : string) (z1 z2 : list V)
            (y : nat),
            j1 ≠ j2 → m !! j1 = Some z1 → m !! j2 = Some z2 →
            (length z1 + (length z2 + y) = length z2 + (length z1 + y))%nat)
    as Hcomm by (intros; lia).
  destruct (d !! k) as [old|] eqn:E; simpl.
  - rewrite <- insert_delete_eq.
    rewrite (map_fold_insert_L _ _ k vs (delete k d));
      [|by eauto|by rewrite lookup_delete_eq].
    rewrite (map_fold_delete_L _ _ k old d); [|by eauto|done]. lia.
  - rewrite (map_fold_insert_L _ _ k vs d); [|by eauto|done]. lia.
Qed.

(** X9: [list_to_dict_multiple] loses nothing and invents nothing: the
    list under a key is the values paired with that key, in their order;
    a key is present exactly when some pair has it, and never with an empty
    list; the lists hold as many values in all as there are pairs; and the
    dict of two lists joined holds, under every key, the values of the
    first followed by those of the second. *)
Theorem list_to_dict_multiple_partition {V : Type}
    (l : list (string * V)) :
  (∀ k, default [] (list_to_dict_multiple l !! k) = values_of k l)
  ∧ (∀ k, is_Some (list_to_dict_multiple l !! k) ↔ k ∈ l.*1)
  ∧ (∀ k vs, list_to_dict_multiple l !! k = Some vs → vs ≠ [])
  ∧ total_values (list_to_dict_multiple l) = length l
  ∧ ∀ l' k,
      default [] (list_to_dict_multiple (l ++ l') !! k)
      = default [] (list_to_dict_multiple l !! k)
        ++ default [] (list_to_dict_multiple l' !! k).
Proof.
  assert (∀ (l0 : list (string * V)) k,
            default [] (list_to_dict_multiple l0 !! k) = values_of k l0)
    as Hval.
  { intros l0 k. rewrite list_to_dict_multiple_lookup.
    by destruct (values_of k l0). }
  split; [apply Hval|]. split; [|split; [|split]].
  - intros k. rewrite list_to_dict_multiple_lookup.
    induction l as [|[k' v] l IH] using rev_ind.
    + simpl. split; [by intros [? ?]|by rewrite elem_of_nil].
    + rewrite values_of_snoc, fmap_app, elem_of_app. simpl.
      rewrite list_elem_of_singleton.
      destruct (String.eqb_spec k' k) as [->|Hne].
      * split; [by right|]. intros _.
        destruct (values_of k l ++ [v]) eqn:E; [|by eexists].
        by destruct (values_of k l).
      * rewrite app_nil_r, IH. split; [by left|].
        intros [H|H]; [done|congruence].
  - intros k vs. rewrite list_to_dict_multiple_lookup.
    destruct (values_of k l); [done|]. by intros [= <-].
  - induction l as [|[k v] l IH] using rev_ind; [done|].
    rewrite list_to_dict_multiple_snoc, length_app. simpl.
    pose proof (total_values_insert (list_to_dict_multiple l) k
                  (default [] (list_to_dict_multiple l !! k) ++ [v])) as H.
    rewrite length_app in H. simpl in H. lia.
  - intros l' k. rewrite !Hval. unfold values_of. apply omap_app.
Qed.

(** ** The loop of [transactions] *)

Lemma loop_body_mirrors (acc acc' : accumulator) (r : row) :
  loop_body acc r = Ok acc' →
  ∃ p, acc_rows acc' = acc_rows acc ++ [p] ∧ mirrors r p.
Proof.
  unfold loop_body. intros H.
  apply bind_Ok_inv in H as (c & Hc & H).
  apply bind_Ok_inv in H as (m & Hm & H).
  cbv zeta in H. rewrite recorded_diffs in H.
  apply bind_Ok_inv in H as (ds & Hds & H).
  apply bind_Ok_inv in H as (cs & Hcs & H).
  injection H as <-. cbn [acc_rows].
  eexists. split; [reflexivity|].
  unfold mirrors. cbn. done.
Qed.

(** X10: the rows handed to the template are the rows of the file, one
    for one and in order, with [created] and [modified] parsed, [diff]
    their difference, and status, currency and amount untouched. *)
Theorem parsed_rows_mirror_input
    (rows : list row) (parsed : list parsed_row) (st : stats) :
  aggregate rows = Ok (parsed, st) →
  Forall2 mirrors rows parsed.
Proof.
  intros Hagg.
  apply aggregate_inv in Hagg as (acc & Hloop & -> & _).
  revert acc Hloop. induction rows as [|r rows IH] using rev_ind; intros acc.
  - intros [= <-]. constructor.
  - rewrite loop_snoc. intros H. apply bind_Ok_inv in H as (a & Ha & H).
    apply loop_body_mirrors in H as (p & -> & Hp).
    apply Forall2_app; [by apply IH|].
    constructor; [exact Hp|constructor].
Qed.

Lemma parsed_rows_mirror_input_witness :
  ∃ parsed st,
    aggregate example_rows = Ok (parsed, st)
    ∧ Forall2 mirrors example_rows parsed.
Proof.
  destruct (aggregate example_rows) as [[parsed st]|] eqn:E;
    [|vm_compute in E; discriminate].
  exists parsed, st.
  exact (conj eq_refl (parsed_rows_mirror_input _ _ _ E)).
Defined.

Lemma loop_body_bad_amount (acc : accumulator) (r : row) :
  has_amount r = true →
  is_Ok (Decimal_of_string (str (row_amount r))) = false →
  is_Ok (loop_body acc r) = false.
Proof.
  unfold has_amount, loop_body. intros Hhas Hbad.
  destruct (strptime (row_created r)) as [c|]; [|done].
  destruct (strptime (row_modified r)) as [m|]; [|done].
  cbn [mbind result_bind]. cbv zeta. rewrite recorded_diffs, Hhas.
  cbn [mbind result_bind].
  destruct (Decimal_of_string (str (row_amount r))); done.
Qed.

(** X11: an amount that [Decimal] rejects is fatal to the batch too:
    whenever some row has a currency and an amount, both non-empty, and the
    amount is not a Decimal literal, the aggregation raises. *)
Theorem unparsable_amount_aborts_batch
    (today : datetime) (rows : list row) (r : row) :
  r ∈ rows →
  has_amount r = true →
  is_Ok (Decimal_of_string (str (row_amount r))) = false →
  is_Ok (aggregate rows) = false ∧ is_Ok (transactions today rows) = false.
Proof.
  intros Hin Hhas Hbad.
  assert (is_Ok (loop rows) = false) as Hloop.
  { induction rows as [|x rows IH] using rev_ind.
    - by apply elem_of_nil in Hin.
    - rewrite loop_snoc. apply elem_of_app in Hin as [Hin|Hin].
      + apply bind_Raise. by apply IH.
      + apply list_elem_of_singleton in Hin as ->.
        destruct (loop rows) as [a|e]; simpl; [|done].
        by apply loop_body_bad_amount. }
  assert (is_Ok (aggregate rows) = false) as Hagg
    by (unfold aggregate; by apply bind_Raise).
  split; [done|].
  unfold transactions. destruct (dates_of today); simpl; [|done].
  by apply bind_Raise.
Qed.

Lemma unparsable_amount_aborts_batch_witness :
  is_Ok (aggregate bad_amount_rows) = false
  ∧ is_Ok (transactions example_today bad_amount_rows) = false.
Proof.
  apply (unparsable_amount_aborts_batch example_today bad_amount_rows
           {| row_created := Some "2024-01-01T00:00:00"%string;
              row_modified := Some "2024-01-01T00:01:40"%string;
              row_status := Some "1"%string;
              row_currency := Some "USD"%string;
              row_amount := Some "ten"%string |}).
  - apply elem_of_cons. left. reflexivity.
  - reflexivity.
  - vm_compute. reflexivity.
Defined.

(** X12: the amount of a row is looked at only when the row has a
    currency: if no row has both a currency and an amount, the amounts are
    never parsed and there is no currency bucket at all. *)
Theorem amounts_without_currency_are_ignored
    (rows : list row) (parsed : list parsed_row) (st : stats) :
  Forall (λ r, has_amount r = false) rows →
  aggregate rows = Ok (parsed, st) →
  currencies st = ∅.
Proof.
  intros Hnone Hagg.
  apply aggregate_inv in Hagg as (acc & Hloop & _ & _ & _ & _ & _ & Hcur).
  apply loop_spec in Hloop as (_ & _ & _ & _ & Hpairs).
  assert (omap currency_pair rows = []) as Hnil.
  { clear -Hnone. induction Hnone as [|r rows Hr _ IH]; [done|].
    simpl. unfold currency_pair at 1. by rewrite Hr. }
  rewrite Hpairs, Hnil in Hcur.
  change (currency_buckets (list_to_dict_multiple []))
    with (Ok (∅ : gmap string bucket)) in Hcur.
  by injection Hcur as <-.
Qed.

Lemma amounts_without_currency_are_ignored_witness :
  ∃ parsed st,
    aggregate no_currency_rows = Ok (parsed, st) ∧ currencies st = ∅.
Proof.
  destruct (aggregate no_currency_rows) as [[parsed st]|] eqn:E;
    [|vm_compute in E; discriminate].
  exists parsed, st. split; [reflexivity|].
  apply (amounts_without_currency_are_ignored no_currency_rows parsed st).
  - repeat constructor.
  - exact E.
Defined.

(** ** The order of the status distribution *)

Lemma groupby_keys_ascending {A : Type} (le eqb : A → A → bool)
    (l : list A) :
  ascending le l → ascending le (groupby eqb l).*1.
Proof.
  unfold ascending. induction 1 as [|x l Hl IH Hx]; simpl; [constructor|].
  assert (Forall (λ b, le x b = true) (groupby eqb l).*1) as Hkeys.
  { apply Forall_forall. intros k Hk.
    apply list_elem_of_fmap in Hk as [[k' g] [-> Hin]].
    apply groupby_keys in Hin. rewrite Forall_forall in Hx. by apply Hx. }
  destruct (groupby eqb l) as [|[y g] runs] eqn:E.
  - repeat constructor.
  - destruct (eqb x y).
    + rewrite fmap_cons in *. cbn [fst] in *.
      apply StronglySorted_inv in IH as [IH _].
      apply Forall_cons in Hkeys as [_ Hkeys].
      by constructor.
    + rewrite fmap_cons. by constructor.
Qed.

(** X13: the entries of the status distribution come in ascending order
    of the status values, each value once: a missing status (printed
    [None]) first, then the strings in byte order. *)
Theorem status_distribution_in_order
    (rows : list row) (parsed : list parsed_row) (st : stats) :
  aggregate rows = Ok (parsed, st) →
  ∃ keys, (statuses st).*1 = map str keys
    ∧ ascending status_le keys
    ∧ NoDup keys
    ∧ ∀ v, v ∈ keys ↔ v ∈ map row_status rows.
Proof.
  intros Hagg.
  apply aggregate_inv in Hagg as (acc & Hloop & _ & _ & _ & _ & Hsts & _).
  apply loop_spec in Hloop as (_ & _ & Hstatus & _ & _).
  rewrite Hstatus in Hsts. unfold status_percentages in Hsts.
  apply status_percentages_from in Hsts.
  set (sts := map row_status rows) in *.
  pose proof (sorted_ascending status_le status_le_total status_le_trans sts)
    as Hasc.
  destruct (groupby_ascending status_le status_eqb status_le_antisym
              status_eqb_eq _ Hasc) as [Hnd _].
  exists (groupby status_eqb (sorted status_le sts)).*1.
  split; [|split; [|split]].
  - clear Hnd Hasc.
    induction Hsts as [|[k g] entry runs out' Hhd _ IH]; [done|].
    destruct Hhd as (p & _ & ->). rewrite !fmap_cons, IH. reflexivity.
  - by apply groupby_keys_ascending.
  - done.
  - intros v. split.
    + intros Hv. apply list_elem_of_fmap in Hv as [[k g] [-> Hin]].
      apply groupby_keys in Hin. by rewrite sorted_perm in Hin.
    + intros Hv. apply groupby_complete; [apply status_eqb_eq|].
      by rewrite sorted_perm.
Qed.

Lemma status_distribution_in_order_witness :
  ∃ parsed st keys,
    aggregate rows_with_empty_status = Ok (parsed, st)
    ∧ (statuses st).*1 = map str keys
    ∧ ascending status_le keys.
Proof.
  destruct (aggregate rows_with_empty_status) as [[parsed st]|] eqn:E;
    [|vm_compute in E; discriminate].
  destruct (status_distribution_in_order _ _ _ E) as (keys & H1 & H2 & _).
  exists parsed, st, keys. exact (conj eq_refl (conj H1 H2)).
Defined.

(** ** [fill_tiers] and [tiers] *)

Lemma index_prices_snoc (prices : list (gmap string Build.pyobj))
    (p : gmap string Build.pyobj) :
  index_prices (prices ++ [p])
  = match index_prices prices with
    | inl e => inl e
    | inr d =>
        match p !! "region"%string with
        | Some r => inr (<[dict_key r := p]> d)
        | None => inl (KeyError "region")
        end
    end.
Proof. unfold index_prices. by rewrite foldl_snoc. Qed.

Lemma index_prices_ok (prices : list (gmap string Build.pyobj)) :
  forallb has_region prices = true →
  ∃ d, index_prices prices = inr d
       ∧ ∀ r, d !! r = last_of_region r prices.
Proof.
  induction prices as [|p prices IH] using rev_ind.
  - intros _. exists ∅. split; [done|]. intros r. by rewrite lookup_empty.
  - rewrite forallb_app. intros [Hall Hp]%andb_prop.
    destruct (IH Hall) as (d & Hd & Hlook).
    cbn [forallb] in Hp. rewrite andb_true_r in Hp.
    apply bool_decide_eq_true in Hp as [reg Hreg].
    rewrite index_prices_snoc, Hd, Hreg.
    eexists. split; [reflexivity|]. intros r.
    assert (region_of p = Some (dict_key reg)) as Hro
      by (unfold region_of; by rewrite Hreg).
    unfold last_of_region. rewrite filter_app, filter_cons, filter_nil.
    destruct (decide (region_of p = Some r)) as [Heq|Hne].
    + assert (dict_key reg = r) as <- by congruence.
      by rewrite lookup_insert_eq, last_snoc.
    + rewrite lookup_insert_ne by congruence.
      rewrite app_nil_r. apply Hlook.
Qed.

Lemma index_prices_error (prices : list (gmap string Build.pyobj)) :
  forallb has_region prices = false →
  index_prices prices = inl (KeyError "region").
Proof.
  induction prices as [|p prices IH] using rev_ind; [done|].
  rewrite forallb_app, index_prices_snoc. cbn [forallb].
  rewrite andb_true_r. intros H.
  destruct (forallb has_region prices) eqn:Hall.
  - destruct (index_prices_ok prices Hall) as (d & -> & _).
    cbn [andb] in H. apply bool_decide_eq_false in H.
    destruct (p !! "region"%string); [|done].
    exfalso. apply H. by eexists.
  - by rewrite IH.
Qed.

Lemma fill_tiers_snoc (objects : list tier) (t : tier) :
  fill_tiers (objects ++ [t])
  = match fill_tiers objects with
    | inl e => inl e
    | inr out =>
        match fill_tier t with
        | inl e => inl e
        | inr f => inr (out ++ [f])
        end
    end.
Proof. unfold fill_tiers. by rewrite foldl_snoc. Qed.

Lemma fill_tier_complete (t : tier) :
  complete t = true →
  ∃ f, fill_tier t = inr f
       ∧ filled_fields f = tier_fields t
       ∧ ∀ r, filled_prices f !! r
              = last_of_region r (default [] (tier_prices t)).
Proof.
  unfold complete, fill_tier. destruct (tier_prices t) as [prices|]; [|done].
  intros Hall. destruct (index_prices_ok prices Hall) as (d & -> & Hd).
  eexists. split; [reflexivity|]. by split.
Qed.

Lemma fill_tier_incomplete (t : tier) :
  complete t = false → fill_tier t = inl (KeyError (missing_key t)).
Proof.
  unfold complete, fill_tier, missing_key.
  destruct (tier_prices t) as [prices|]; [|done].
  intros Hall. by rewrite (index_prices_error prices Hall).
Qed.

Lemma fill_tiers_complete (objects : list tier) :
  forallb complete objects = true →
  ∃ out, fill_tiers objects = inr out
    ∧ Forall2 (λ t f,
         filled_fields f = tier_fields t
         ∧ ∀ r, filled_prices f !! r
                = last_of_region r (default [] (tier_prices t)))
        objects out.
Proof.
  induction objects as [|t objects IH] using rev_ind.
  - intros _. exists []. split; [done|constructor].
  - rewrite forallb_app. intros [Hall Ht]%andb_prop.
    cbn [forallb] in Ht. rewrite andb_true_r in Ht.
    destruct (IH Hall) as (out & Hout & Hrel).
    destruct (fill_tier_complete t Ht) as (f & Hf & Hfields & Hprices).
    exists (out ++ [f]). rewrite fill_tiers_snoc, Hout, Hf.
    split; [done|]. apply Forall2_app; [done|].
    constructor; [by split|constructor].
Qed.

(** X14: on a response in which every tier has its [prices] and every
    price its [region], [fill_tiers] keeps the tiers in number and order
    and their other fields as they are, and turns each [prices] list into
    a dict in which a region maps to the last price of the list with that
    region (earlier ones are overwritten), and only regions that occur
    have an entry. *)
Theorem fill_tiers_indexes_by_region (objects : list tier) :
  forallb complete objects = true →
  ∃ out, fill_tiers objects = inr out
    ∧ Forall2 (λ t f,
         filled_fields f = tier_fields t
         ∧ ∀ r, filled_prices f !! r
                = last_of_region r (default [] (tier_prices t)))
        objects out.
Proof. apply fill_tiers_complete. Qed.

Lemma fill_tiers_indexes_by_region_witness :
  ∃ out, fill_tiers [example_tier] = inr out
    ∧ Forall2 (λ t f,
         filled_fields f = tier_fields t
         ∧ ∀ r, filled_prices f !! r
                = last_of_region r (default [] (tier_prices t)))
        [example_tier] out.
Proof.
  apply (fill_tiers_indexes_by_region [example_tier]). reflexivity.
Defined.

(** X15: [fill_tiers] stops at the first tier that lacks [prices] or has
    a price without [region], with the [KeyError] of that key: no tier
    at all is returned, however many are complete. *)
Theorem fill_tiers_missing_key
    (before after : list tier) (t : tier) :
  forallb complete before = true →
  complete t = false →
  fill_tiers (before ++ t :: after) = inl (KeyError (missing_key t)).
Proof.
  intros Hbefore Ht.
  destruct (fill_tiers_complete before Hbefore) as (out & Hout & _).
  induction after as [|u after IH] using rev_ind.
  - by rewrite fill_tiers_snoc, Hout, fill_tier_incomplete.
  - rewrite app_comm_cons, app_assoc, fill_tiers_snoc. by rewrite IH.
Qed.

Lemma fill_tiers_missing_key_witness :
  fill_tiers ([example_tier] ++ broken_tier :: [example_tier])
  = inl (KeyError "region").
Proof.
  apply (fill_tiers_missing_key [example_tier] [example_tier] broken_tier);
    reflexivity.
Defined.


(** ** [login], [logout] and the [transactions] view *)

Lemma py_ne_okay (st : Build.pyobj) :
  Build.py_ne st (Build.PyStr "okay") = false → st = Build.PyStr "okay".
Proof.
  destruct st as [| | |s]; try done. simpl.
  intros H%negb_false_iff. by apply String.eqb_eq in H as ->.
Qed.

Lemma login_cases
    (MOZS : list string) (form : gmap string string)
    (verify : string → verification) (session : gmap string Build.pyobj) :
  (form !! "assertion"%string = None
   ∧ login MOZS form verify session = (400, session))
  ∨ (is_Some (form !! "assertion"%string)
     ∧ login MOZS form verify session = (500, session))
  ∨ ∃ assertion data email,
      form !! "assertion"%string = Some assertion
      ∧ resp_ok (verify assertion) = true
      ∧ resp_data (verify assertion) = Some data
      ∧ data !! "status"%string = Some (Build.PyStr "okay")
      ∧ data !! "email"%string = Some email
      ∧ login MOZS form verify session
        = (200, <["mozillian"%string := Build.PyBool (in_mozs MOZS email)]>
                  (<["email"%string := email]> session)).
Proof.
  unfold login.
  destruct (form !! "assertion"%string) as [assertion|] eqn:Hform;
    [|by left].
  right.
  destruct (resp_ok (verify assertion)) eqn:Hok; [|left; by eauto].
  destruct (resp_data (verify assertion)) as [data|] eqn:Hdata;
    [|left; by eauto].
  destruct (data !! "status"%string) as [st|] eqn:Hst; [|left; by eauto].
  destruct (Build.py_ne st (Build.PyStr "okay")) eqn:Hne;
    [left; by eauto|].
  apply py_ne_okay in Hne as ->.
  destruct (data !! "email"%string) as [email|] eqn:Hemail;
    [|left; by eauto].
  right. exists assertion, data, email. done.
Qed.

(** X17: a login answers 400, 500 or 200.  400 means the form has no
    assertion.  Unless it answers 200 the session is left exactly as it
    was (whoever was logged in still is).  When it answers 200, the
    verifier answered for the form's assertion with status [okay] and an
    email, and the session differs only in [email], set to that email, and
    [mozillian], set to whether the email is in [MOZS]. *)
Theorem login_outcome
    (MOZS : list string) (form : gmap string string)
    (verify : string → verification) (session : gmap string Build.pyobj) :
  let code := (login MOZS form verify session).1 in
  let session' := (login MOZS form verify session).2 in
  (code = 200 ∨ code = 400 ∨ code = 500)
  ∧ (code = 400 ↔ form !! "assertion"%string = None)
  ∧ (code ≠ 200 → session' = session)
  ∧ (code = 200 →
     ∃ assertion data email,
       form !! "assertion"%string = Some assertion
       ∧ resp_ok (verify assertion) = true
       ∧ resp_data (verify assertion) = Some data
       ∧ data !! "status"%string = Some (Build.PyStr "okay")
       ∧ data !! "email"%string = Some email
       ∧ session' !! "email"%string = Some email
       ∧ session' !! "mozillian"%string
         = Some (Build.PyBool (in_mozs MOZS email))
       ∧ ∀ key, key ≠ "email"%string → key ≠ "mozillian"%string →
           session' !! key = session !! key).
Proof.
  cbv zeta.
  destruct (login_cases MOZS form verify session)
    as [[Hform ->]|[[[a Hform] ->]|(a & data & email & Hform & Hok & Hdata
                                    & Hst & Hemail & ->)]]; cbn [fst snd].
  - split; [auto|]. split; [done|]. split; [done|]. intros [=].
  - split; [auto|]. rewrite Hform. split; [done|]. split; [done|].
    intros [=].
  - split; [auto|]. rewrite Hform. split; [done|]. split; [done|].
    intros _. exists a, data, email. repeat split; try done.
    + rewrite lookup_insert_ne by done. by rewrite lookup_insert_eq.
    + by rewrite lookup_insert_eq.
    + intros key H1 H2. by rewrite !lookup_insert_ne.
Qed.

Lemma view_open
    (session : gmap string Build.pyobj) (today : datetime)
    (server : option string) (date : string)
    (files : gmap string (list row)) (s3 : string → string → download) :
  Build.truth (session_get session "mozillian") = true →
  (transactions_view session today server date files s3).1 ≠ Forbidden.
Proof.
  unfold transactions_view. intros ->. cbn [negb].
  destruct (dates_of today); [|done].
  destruct (truthy server && truthy (Some date)); [|done].
  destruct (d ← strptime_date date; strftime_sfmt d) as [day|]; [|done].
  cbv zeta. destruct (files !! _).
  - by destruct (aggregate _) as [[? ?]|].
  - destruct (s3 _ _) as [content|[partial|]]; try done.
    by destruct (aggregate _) as [[? ?]|].
Qed.

(** X18: after a login that answered 200 the transactions view is open
    exactly when the verified email is in [MOZS], whatever the session
    held before: the view answers 403 if and only if it is not. *)
Theorem login_opens_transactions_to_mozillians_only
    (MOZS : list string) (form : gmap string string)
    (verify : string → verification)
    (session session' : gmap string Build.pyobj)
    (today : datetime) (server : option string) (date : string)
    (files : gmap string (list row)) (s3 : string → string → download) :
  login MOZS form verify session = (200, session') →
  ∃ email, session' !! "email"%string = Some email
    ∧ ((transactions_view session' today server date files s3).1 = Forbidden
       ↔ in_mozs MOZS email = false).
Proof.
  intros Hlogin.
  destruct (login_cases MOZS form verify session)
    as [[_ H]|[[_ H]|(a & data & email & _ & _ & _ & _ & _ & H)]];
    rewrite H in Hlogin; try discriminate.
  injection Hlogin as <-. exists email. split.
  { rewrite lookup_insert_ne by done. by rewrite lookup_insert_eq. }
  destruct (in_mozs MOZS email) eqn:Hmoz.
  - split; [|done]. intros Hf. exfalso. revert Hf. apply view_open.
    unfold session_get. by rewrite lookup_insert_eq.
  - split; [done|]. intros _. unfold transactions_view, session_get.
    by rewrite lookup_insert_eq.
Qed.

Lemma login_opens_transactions_to_mozillians_only_witness :
  ∃ email,
    (login example_MOZS example_form (accepting "guest@example.com") ∅).2
      !! "email"%string = Some email
    ∧ ((transactions_view
          (login example_MOZS example_form (accepting "guest@example.com")
                 ∅).2
          example_today (Some "prod"%string) "2024-01-01" ∅ example_s3).1
       = Forbidden
       ↔ in_mozs example_MOZS email = false).
Proof.
  apply (login_opens_transactions_to_mozillians_only
           example_MOZS example_form (accepting "guest@example.com") ∅).
  reflexivity.
Defined.

(** X19: after a logout the transactions view answers 403, whatever the
    session held and whatever is asked, and it touches neither the cache
    directory nor the object store. *)
Theorem logout_closes_transactions
    (session : gmap string Build.pyobj)
    (today : datetime) (server : option string) (date : string)
    (files : gmap string (list row)) (s3 : string → string → download) :
  (logout session).1 = 200
  ∧ transactions_view (logout session).2 today server date files s3
    = (Forbidden, files).
Proof.
  split; [done|].
  unfold transactions_view, logout, session_get. cbn [snd].
  by rewrite lookup_insert_eq.
Qed.

Lemma view_inv
    (session : gmap string Build.pyobj) (today : datetime)
    (server : option string) (date : string)
    (files files' : gmap string (list row))
    (s3 : string → string → download)
    (p : page) (sv fn : string) :
  transactions_view session today server date files s3
  = (Statistics p sv fn, files') →
  Build.truth (session_get session "mozillian") = true
  ∧ sv = str server
  ∧ truthy server = true
  ∧ ∃ d day rows,
      strptime_date date = Ok d
      ∧ strftime_sfmt d = Ok day
      ∧ fn = (day +:+ "." +:+ sv +:+ ".log")%string
      ∧ files' !! fn = Some rows
      ∧ transactions today rows = Ok p
      ∧ ((files !! fn = Some rows ∧ files' = files)
         ∨ (files !! fn = None
            ∧ s3 sv (day +:+ ".log")%string = Downloaded rows
            ∧ files' = <[fn := rows]> files)).
Proof.
  unfold transactions_view.
  destruct (Build.truth (session_get session "mozillian")); [|done].
  cbn [negb]. unfold transactions.
  destruct (dates_of today) as [dates|]; [|done].
  destruct (truthy server) eqn:Hserver; [|done].
  destruct (truthy (Some date)); [|done]. cbn [andb].
  destruct (strptime_date date) as [d|] eqn:Hd; [|done].
  cbn [mbind result_bind].
  destruct (strftime_sfmt d) as [day|] eqn:Hday; [|done].
  cbv zeta.
  destruct (files !! (day +:+ "." +:+ str server +:+ ".log")%string)
    as [rows|] eqn:Hfile.
  - rewrite Hfile. cbn [default from_option Datatypes.id].
    destruct (aggregate rows) as [[parsed st]|] eqn:Hagg; [|done].
    intros [= <- <- <- <-]. repeat split.
    exists d, day, rows. repeat split; try done.
    + by rewrite Hagg.
    + by left.
  - destruct (s3 (str server) (day +:+ ".log")%string)
      as [content|[partial|]] eqn:Hs3; try done.
    rewrite lookup_insert_eq. cbn [default from_option Datatypes.id].
    destruct (aggregate content) as [[parsed st]|] eqn:Hagg; [|done].
    intros [= <- <- <- <-]. repeat split.
    exists d, day, content. rewrite lookup_insert_eq.
    repeat split; try done.
    + by rewrite Hagg.
    + by right.
Qed.

(** X20: when the view shows statistics, they are those of one file of
    the cache directory, named [<day>.<server>.log] with the day written
    [YYYY-MM-DD] whatever the spelling in the URL: the page is what
    [transactions] computes from the rows of that file, and the file was
    either there before the request or has just been downloaded from the
    key [<day>.log] of the server's bucket. *)
Theorem statistics_are_those_of_the_cached_log
    (session : gmap string Build.pyobj) (today : datetime)
    (server : option string) (date : string)
    (files files' : gmap string (list row))
    (s3 : string → string → download)
    (p : page) (sv fn : string) :
  transactions_view session today server date files s3
  = (Statistics p sv fn, files') →
  log_name sv date = Ok fn
  ∧ ∃ rows,
      files' !! fn = Some rows
      ∧ transactions today rows = Ok p
      ∧ ((files !! fn = Some rows ∧ files' = files)
         ∨ ∃ day, fn = (day +:+ "." +:+ sv +:+ ".log")%string
             ∧ files !! fn = None
             ∧ s3 sv (day +:+ ".log")%string = Downloaded rows
             ∧ files' = <[fn := rows]> files).
Proof.
  intros H. apply view_inv in H
    as (_ & -> & _ & d & day & rows & Hd & Hday & -> & Hfile & Hp & Hsrc).
  split.
  - unfold log_name. rewrite Hd. cbn [mbind result_bind]. by rewrite Hday.
  - exists rows. split; [done|]. split; [done|].
    destruct Hsrc as [?|(? & ? & ?)]; [by left|right]. by exists day.
Qed.

Lemma statistics_are_those_of_the_cached_log_witness :
  ∃ p files',
    transactions_view mozillian_session example_today (Some "prod"%string)
      "2024-1-1" ∅ example_s3
    = (Statistics p "prod" "2024-01-01.prod.log", files')
    ∧ log_name "prod" "2024-1-1" = Ok "2024-01-01.prod.log"%string.
Proof.
  destruct (transactions_view mozillian_session example_today
              (Some "prod"%string) "2024-1-1" ∅ example_s3)
    as [v files'] eqn:E.
  assert (match v with
          | Statistics _ sv fn =>
              sv = "prod"%string ∧ fn = "2024-01-01.prod.log"%string
          | _ => False
          end) as Hshape.
  { replace v with (transactions_view mozillian_session example_today
                      (Some "prod"%string) "2024-1-1" ∅ example_s3).1
      by (by rewrite E).
    vm_compute. exact (conj eq_refl eq_refl). }
  destruct v as [| | |p sv fn]; try contradiction.
  destruct Hshape as [-> ->].
  exists p, files'. split; [reflexivity|].
  exact (proj1 (statistics_are_those_of_the_cached_log _ _ _ _ _ _ _ _ _ _ E)).
Defined.

(** X21: a log is downloaded once: after a request that showed
    statistics, the same request shows the same page from the cache
    directory, without the object store (the answer is the same for every
    behaviour of the store) and without touching the directory. *)
Theorem second_request_is_served_from_the_cache
    (session : gmap string Build.pyobj) (today : datetime)
    (server : option string) (date : string)
    (files files' : gmap string (list row))
    (s3 s3' : string → string → download)
    (p : page) (sv fn : string) :
  transactions_view session today server date files s3
  = (Statistics p sv fn, files') →
  transactions_view session today server date files' s3'
  = (Statistics p sv fn, files').
Proof.
  intros H. apply view_inv in H
    as (Hmoz & -> & Hserver & d & day & rows & Hd & Hday & -> & Hfile
        & Hp & _).
  unfold transactions_view. rewrite Hmoz. cbn [negb].
  unfold transactions in Hp.
  destruct (dates_of today) as [dates|]; [|done].
  cbn [mbind result_bind] in Hp.
  rewrite Hserver, Hd. cbn [mbind result_bind]. rewrite Hday.
  destruct date as [|c date]; [by vm_compute in Hd|].
  cbn [truthy andb]. cbv zeta. rewrite Hfile. cbv beta iota. rewrite Hfile.
  cbn [default from_option Datatypes.id].
  destruct (aggregate rows) as [[parsed st]|]; [|done].
  cbn [mbind result_bind] in Hp. by injection Hp as <-.
Qed.

Lemma second_request_is_served_from_the_cache_witness :
  ∃ p fn files',
    transactions_view mozillian_session example_today (Some "prod"%string)
      "2024-01-01" ∅ example_s3
    = (Statistics p "prod" fn, files')
    ∧ transactions_view mozillian_session example_today
        (Some "prod"%string) "2024-01-01" files' unreachable_s3
      = (Statistics p "prod" fn, files').
Proof.
  destruct (transactions_view mozillian_session example_today
              (Some "prod"%string) "2024-01-01" ∅ example_s3)
    as [v files'] eqn:E.
  assert (match v with
          | Statistics _ sv _ => sv = "prod"%string
          | _ => False
          end) as Hshape.
  { replace v with (transactions_view mozillian_session example_today
                      (Some "prod"%string) "2024-01-01" ∅ example_s3).1
      by (by rewrite E).
    vm_compute. exact eq_refl. }
  destruct v as [| | |p sv fn]; try contradiction.
  subst sv.
  exists p, fn, files'. split; [reflexivity|].
  exact (second_request_is_served_from_the_cache _ _ _ _ _ _ _
           unreachable_s3 _ _ _ E).
Defined.

(** X22: the view only ever adds to the cache directory: whatever the
    request and its outcome, every file that was there is still there with
    the same content, and at most one file is new. *)
Theorem transactions_view_keeps_files
    (session : gmap string Build.pyobj) (today : datetime)
    (server : option string) (date : string)
    (files : gmap string (list row)) (s3 : string → string → download) :
  let files' := (transactions_view session today server date files s3).2 in
  files ⊆ files'
  ∧ (files' = files
     ∨ ∃ name rows, files !! name = None ∧ files' = <[name := rows]> files).
Proof.
  cbv zeta. unfold transactions_view.
  destruct (negb _); [by split; [|left]|].
  destruct (dates_of today); [|by split; [|left]].
  destruct (truthy server && truthy (Some date)); [|by split; [|left]].
  destruct (d ← strptime_date date; strftime_sfmt d) as [day|];
    [|by split; [|left]].
  cbv zeta.
  destruct (files !! (day +:+ "." +:+ str server +:+ ".log")%string)
    as [rows|] eqn:Hfile.
  - destruct (aggregate _) as [[? ?]|]; by split; [|left].
  - destruct (s3 _ _) as [content|[partial|]].
    + destruct (aggregate _) as [[? ?]|]; cbn [snd];
        (split; [by apply insert_subseteq|right; by eauto]).
    + cbn [snd]. split; [by apply insert_subseteq|right; by eauto].
    + by split; [|left].
Qed.

(** ** The date of a log file *)

Lemma forallb_seqZ (f : Z → bool) (lo len x : Z) :
  forallb f (seqZ lo len) = true → lo ≤ x < lo + len → f x = true.
Proof.
  intros Hall Hx. rewrite forallb_forall in Hall. apply Hall.
  apply list_elem_of_In, elem_of_seqZ. lia.
Qed.

(** The years 1000 to 9999 are written with four digits. *)
Lemma year_digits (y : Z) :
  1000 ≤ y ≤ 9999 →
  ∃ a b c e, chars (str_of_nat y) = [a; b; c; e]
    ∧ is_digit a = true ∧ is_digit b = true
    ∧ is_digit c = true ∧ is_digit e = true
    ∧ int_of_group [a; b; c; e] = y.
Proof.
  intros Hy.
  assert (forallb (λ y, match chars (str_of_nat y) with
                        | [a; b; c; e] =>
                            is_digit a && is_digit b && is_digit c
                            && is_digit e
                            && (int_of_group [a; b; c; e] =? y)
                        | _ => false
                        end) (seqZ 1000 9000) = true) as Hall
    by (vm_compute; reflexivity).
  apply (forallb_seqZ _ _ _ y) in Hall; [|lia]. cbv beta in Hall.
  destruct (chars (str_of_nat y)) as [|a [|b [|c [|e [|]]]]]; try done.
  apply andb_prop in Hall as [Hall Hint].
  apply andb_prop in Hall as [Hall He].
  apply andb_prop in Hall as [Hall Hc].
  apply andb_prop in Hall as [Ha Hb].
  exists a, b, c, e. apply Z.eqb_eq in Hint. done.
Qed.

(** Month and day, written with two digits each, are read back. *)
Lemma month_day_read_back (m d : Z) :
  1 ≤ m ≤ 12 → 1 ≤ d ≤ 31 →
  ∃ gm gd,
    re_match (drop 1 sfmt_regex)
      (chars ("-" +:+ two_digits m +:+ "-" +:+ two_digits d))
    = Some ([gm; gd], [])
    ∧ int_of_group gm = m ∧ int_of_group gd = d.
Proof.
  intros Hm Hd.
  assert (forallb (λ m, forallb (λ d,
            match re_match (drop 1 sfmt_regex)
                    (chars ("-" +:+ two_digits m +:+ "-" +:+ two_digits d))
            with
            | Some ([gm; gd], []) =>
                (int_of_group gm =? m) && (int_of_group gd =? d)
            | _ => false
            end) (seqZ 1 31)) (seqZ 1 12) = true) as Hall
    by (vm_compute; reflexivity).
  apply (forallb_seqZ _ _ _ m) in Hall; [|lia]. cbv beta in Hall.
  apply (forallb_seqZ _ _ _ d) in Hall; [|lia]. cbv beta in Hall.
  destruct (re_match _ _) as [[[|gm [|gd [|]]] [|]]|]; try done.
  apply andb_prop in Hall as [H1%Z.eqb_eq H2%Z.eqb_eq].
  by exists gm, gd.
Qed.

Lemma year_group (a b c e : ascii) (rest : list ascii) :
  is_digit a = true → is_digit b = true →
  is_digit c = true → is_digit e = true →
  re_match sfmt_regex (a :: b :: c :: e :: rest)
  = match re_match (drop 1 sfmt_regex) rest with
    | Some (groups, tail) => Some ([a; b; c; e] :: groups, tail)
    | None => None
    end.
Proof.
  intros Ha Hb Hc He.
  change sfmt_regex
    with (Group [[d_; d_; d_; d_]] :: drop 1 sfmt_regex) at 1.
  cbn [re_match match_classes]. unfold d_. by rewrite Ha, Hb, Hc, He.
Qed.

Lemma strptime_strftime (y m d : Z) :
  valid_datetime (midnight y m d) = true → 1900 ≤ y →
  ∃ s, strftime_sfmt (midnight y m d) = Ok s
       ∧ strptime_date s = Ok (midnight y m d).
Proof.
  intros Hvalid Hy.
  assert (1 ≤ y ≤ 9999 ∧ 1 ≤ m ≤ 12 ∧ 1 ≤ d ≤ 31) as (Hy' & Hm & Hd).
  { unfold valid_datetime, midnight in Hvalid. cbn in Hvalid.
    repeat (apply andb_prop in Hvalid as [Hvalid ?]).
    assert (days_in_month y m ≤ 31).
    { unfold days_in_month. repeat case_match; lia. }
    lia. }
  unfold strftime_sfmt. cbn [year month day midnight].
  destruct (Z.ltb_spec y 1900) as [?|_]; [lia|].
  eexists. split; [reflexivity|].
  unfold strptime_date. rewrite chars_app.
  destruct (year_digits y) as (a & b & c & e & -> & Ha & Hb & Hc & He & Hint);
    [lia|].
  cbn [app]. rewrite (year_group a b c e _ Ha Hb Hc He).
  destruct (month_day_read_back m d Hm Hd) as (gm & gd & -> & Hgm & Hgd).
  rewrite Hint, Hgm, Hgd. fold (midnight y m d). by rewrite Hvalid.
Qed.

Lemma strptime_date_midnight (s : string) (d : datetime) :
  strptime_date s = Ok d →
  valid_datetime d = true ∧ d = midnight (year d) (month d) (day d).
Proof.
  unfold strptime_date.
  destruct (re_match sfmt_regex (chars s))
    as [[[|gY [|gm [|gd [|]]]] [|]]|]; try done.
  destruct (valid_datetime _) eqn:Hvalid; [|done].
  intros [= <-]. done.
Qed.

(** X23: the day of a log file survives the round trip through its
    name: a date (at midnight) that the [datetime] constructor accepts,
    from the year 1900 on, is written by [strftime] as a string that
    [strptime] reads back as the same date. *)
Theorem log_date_round_trip (y m d : Z) :
  valid_datetime (midnight y m d) = true → 1900 ≤ y →
  ∃ s, strftime_sfmt (midnight y m d) = Ok s
       ∧ strptime_date s = Ok (midnight y m d).
Proof. apply strptime_strftime. Qed.

Lemma log_date_round_trip_witness :
  ∃ s, strftime_sfmt (midnight 2024 2 29) = Ok s
       ∧ strptime_date s = Ok (midnight 2024 2 29).
Proof. apply (log_date_round_trip 2024 2 29); [reflexivity|lia]. Defined.

(** X24: file names are canonical: when a date in the URL leads to a
    file name, the name starts with the day written [YYYY-MM-DD], and
    asking for that spelling leads to the same name; so every accepted
    spelling of a day (say [2024-1-5] and [2024-01-05]) shares one cached
    file per server. *)
Theorem log_name_is_canonical (server date fn : string) :
  log_name server date = Ok fn →
  ∃ day, fn = (day +:+ "." +:+ server +:+ ".log")%string
    ∧ length (chars day) = 10%nat
    ∧ log_name server day = Ok fn.
Proof.
  unfold log_name. intros H.
  apply bind_Ok_inv in H as (d & Hd & H).
  apply bind_Ok_inv in H as (day & Hday & [= <-]).
  apply strptime_date_midnight in Hd as [Hvalid Hmid].
  assert (1900 ≤ year d) as Hy.
  { unfold strftime_sfmt in Hday.
    destruct (Z.ltb_spec (year d) 1900); [done|lia]. }
  rewrite Hmid in Hvalid.
  destruct (strptime_strftime _ _ _ Hvalid Hy) as (s & Hs & Hback).
  rewrite <- Hmid in Hs, Hback.
  assert (s = day) as -> by congruence.
  exists day. split; [done|]. split.
  - unfold strftime_sfmt in Hday.
    destruct (Z.ltb_spec (year d) 1900); [done|].
    injection Hday as <-.
    assert (1 ≤ year d ≤ 9999) as Hrange.
    { rewrite Hmid in Hvalid. unfold valid_datetime, midnight in Hvalid.
      cbn in Hvalid. repeat (apply andb_prop in Hvalid as [Hvalid ?]). lia. }
    destruct (year_digits (year d)) as (a & b & c & e & Hch & _); [lia|].
    rewrite chars_app, Hch. reflexivity.
  - rewrite Hback. cbn [mbind result_bind]. by rewrite Hday.
Qed.

Lemma log_name_is_canonical_witness :
  ∃ day, "2024-01-05.prod.log"%string
         = (day +:+ "." +:+ "prod" +:+ ".log")%string
    ∧ length (chars day) = 10%nat
    ∧ log_name "prod" day = Ok "2024-01-05.prod.log"%string.
Proof.
  apply (log_name_is_canonical "prod" "2024-1-5" "2024-01-05.prod.log").
  reflexivity.
Defined.

(** ** [notify] *)

Lemma args_dict_snoc (args : list string) (a : string) :
  args_dict (args ++ [a]) = {["args"%string := a]}.
Proof.
  unfold args_dict. rewrite foldl_snoc.
  induction args as [|b args IH] using rev_ind.
  - cbn [foldl]. apply insert_empty.
  - rewrite foldl_snoc, insert_insert_eq. exact IH.
Qed.

(** X25: of the arguments of [notify] only the last one is sent: they
    are all stored under the one key [args] of a dict, so the URL is
    [https://notify.paas.allizom.org/notify/<msg>/?args=<last, quoted>],
    and with no argument the query string is empty. *)
Theorem notify_sends_the_last_argument
    (msg : string) (args : list string) (a : string) :
  notify_url msg (args ++ [a])
  = ("https://notify.paas.allizom.org/notify/" +:+ msg +:+ "/?args="
     +:+ quote_plus a)%string
  ∧ notify_url msg []
    = ("https://notify.paas.allizom.org/notify/" +:+ msg +:+ "/?")%string.
Proof.
  split; [|reflexivity].
  unfold notify_url, urlencode. rewrite args_dict_snoc, map_to_list_singleton.
  cbn [map String.concat].
  change (quote_plus "args") with "args"%string.
  reflexivity.
Qed.

Lemma quote_char_safe (c : ascii) :
  forallb query_safe (quote_char c) = true.
Proof. destruct c as [[] [] [] [] [] [] [] []]; vm_compute; reflexivity. Qed.

(** X26: [quote_plus] leaves nothing in a value that could end it or
    start another parameter: its result has only letters, digits, [_], [.],
    [-], [+] and [%], and the empty string is quoted as itself. *)
Theorem quote_plus_is_query_safe (s : string) :
  forallb query_safe (chars (quote_plus s)) = true
  ∧ quote_plus "" = ""%string.
Proof.
  split; [|reflexivity].
  unfold quote_plus, chars at 1.
  rewrite list_ascii_of_string_of_list_ascii.
  induction (chars s) as [|c l IH]; [reflexivity|].
  cbn [map concat]. rewrite forallb_app, IH, quote_char_safe. reflexivity.
Qed.

(** ** The three dates of the [transactions] page *)

Lemma foldl_congr {A B : Type} (f g : A → B → A) (a : A) (l : list B) :
  (∀ a x, f a x = g a x) → foldl f a l = foldl g a l.
Proof.
  intros Hfg. revert a. induction l as [|x l IH]; intros a; [done|].
  cbn [foldl]. by rewrite Hfg, IH.
Qed.

(** The months of a year are those of the canonical year of its kind. *)
Lemma days_in_month_canonical (y m : Z) :
  days_in_month y m = days_in_month (canonical_year (is_leap y)) m.
Proof. unfold days_in_month. by destruct (is_leap y). Qed.

Lemma days_before_month_canonical (y m : Z) :
  days_before_month y m = days_before_month (canonical_year (is_leap y)) m.
Proof.
  unfold days_before_month. apply foldl_congr.
  intros a x. by rewrite days_in_month_canonical.
Qed.

Lemma month_of_day_canonical (y n : Z) :
  month_of_day y n = month_of_day (canonical_year (is_leap y)) n.
Proof.
  unfold month_of_day. apply foldl_congr.
  intros [m r] x. by rewrite days_in_month_canonical.
Qed.

Lemma month_of_day_spec (y r : Z) :
  0 ≤ r < 365 →
  ∃ m q, month_of_day y r = (m, q)
    ∧ 1 ≤ m ≤ 12 ∧ 0 ≤ q < days_in_month y m
    ∧ days_before_month y m + q = r.
Proof.
  intros Hr.
  assert (∀ leap, forallb (month_of_day_ok leap) (seqZ 0 365) = true)
    as Hall by (intros []; vm_compute; reflexivity).
  pose proof (forallb_seqZ _ _ _ r (Hall (is_leap y)) ltac:(lia)) as Hok.
  unfold month_of_day_ok in Hok. cbv zeta in Hok.
  rewrite month_of_day_canonical.
  destruct (month_of_day (canonical_year (is_leap y)) r) as [m q].
  repeat (apply andb_prop in Hok as [Hok ?]).
  exists m, q. rewrite (days_before_month_canonical y m),
    (days_in_month_canonical y m).
  split; [done|]. lia.
Qed.

Lemma month_end (y m : Z) :
  1 ≤ m ≤ 12 →
  0 ≤ days_before_month y m
  ∧ days_before_month y m + days_in_month y m
    ≤ (if is_leap y then 366 else 365).
Proof.
  intros Hm.
  assert (∀ leap, forallb (month_end_ok leap) (seqZ 1 12) = true)
    as Hall by (intros []; vm_compute; reflexivity).
  pose proof (forallb_seqZ _ _ _ m (Hall (is_leap y)) ltac:(lia)) as Hok.
  unfold month_end_ok in Hok. cbv zeta in Hok.
  rewrite days_before_month_canonical, days_in_month_canonical.
  apply andb_prop in Hok as [? ?]. lia.
Qed.

(** The year after [a] cycles of 400 years, [b] centuries, [c] groups of
    four years and [e] years. *)
Lemma days_before_year_decomposed (a b c e : Z) :
  0 ≤ b ≤ 3 → 0 ≤ c ≤ 24 → 0 ≤ e ≤ 3 →
  days_before_year (a * 400 + b * 100 + c * 4 + e + 1)
  = 146097 * a + 36524 * b + 1461 * c + 365 * e.
Proof.
  intros Hb Hc He. unfold days_before_year. cbv zeta.
  set (p := a * 400 + b * 100 + c * 4 + e + 1 - 1).
  assert (p / 4 = 100 * a + 25 * b + c) as ->
    by (symmetry; apply (Z.div_unique p 4 _ e); lia).
  assert (p / 100 = 4 * a + b) as ->
    by (symmetry; apply (Z.div_unique p 100 _ (4 * c + e)); lia).
  assert (p / 400 = a) as ->
    by (symmetry; apply (Z.div_unique p 400 _ (100 * b + 4 * c + e)); lia).
  lia.
Qed.

Lemma is_leap_decomposed (a b c e : Z) :
  0 ≤ b ≤ 3 → 0 ≤ c ≤ 24 → 0 ≤ e ≤ 3 →
  is_leap (a * 400 + b * 100 + c * 4 + e + 1)
  = (e =? 3) && (negb (c =? 24) || (b =? 3)).
Proof.
  intros Hb Hc He. unfold is_leap.
  set (y := a * 400 + b * 100 + c * 4 + e + 1).
  pose proof (Z.div_mod y 4 ltac:(lia)).
  pose proof (Z.mod_pos_bound y 4 ltac:(lia)).
  pose proof (Z.div_mod y 100 ltac:(lia)).
  pose proof (Z.mod_pos_bound y 100 ltac:(lia)).
  pose proof (Z.div_mod y 400 ltac:(lia)).
  pose proof (Z.mod_pos_bound y 400 ltac:(lia)).
  destruct (Z.eqb_spec (y mod 4) 0), (Z.eqb_spec (y mod 100) 0),
    (Z.eqb_spec (y mod 400) 0), (Z.eqb_spec e 3), (Z.eqb_spec c 24),
    (Z.eqb_spec b 3); cbn; try reflexivity; exfalso; lia.
Qed.

(** [fromordinal] gives a date of the calendar, and [toordinal] gives
    its day number back. *)
Lemma fromordinal_spec (n : Z) :
  1 ≤ n ≤ 3652059 →
  ∃ y m d, fromordinal n = (y, m, d)
    ∧ 1 ≤ y ≤ 9999 ∧ 1 ≤ m ≤ 12 ∧ 1 ≤ d ≤ days_in_month y m
    ∧ days_before_year y + days_before_month y m + d = n.
Proof.
  intros Hn. unfold fromordinal. cbv zeta.
  pose proof (Z.div_mod (n - 1) 146097 ltac:(lia)) as E400.
  pose proof (Z.mod_pos_bound (n - 1) 146097 ltac:(lia)) as B400.
  set (a := (n - 1) / 146097) in *. set (r400 := (n - 1) mod 146097) in *.
  pose proof (Z.div_mod r400 36524 ltac:(lia)) as E100.
  pose proof (Z.mod_pos_bound r400 36524 ltac:(lia)) as B100.
  set (b := r400 / 36524) in *. set (r100 := r400 mod 36524) in *.
  pose proof (Z.div_mod r100 1461 ltac:(lia)) as E4.
  pose proof (Z.mod_pos_bound r100 1461 ltac:(lia)) as B4.
  set (c := r100 / 1461) in *. set (r4 := r100 mod 1461) in *.
  pose proof (Z.div_mod r4 365 ltac:(lia)) as E1.
  pose proof (Z.mod_pos_bound r4 365 ltac:(lia)) as B1.
  set (e := r4 / 365) in *. set (r1 := r4 mod 365) in *.
  assert (0 ≤ a ≤ 24 ∧ 0 ≤ b ≤ 4 ∧ 0 ≤ c ≤ 24 ∧ 0 ≤ e ≤ 4)
    as (Ha & Hb & Hc & He) by lia.
  destruct (Z.eqb_spec e 4) as [He4|He4]; cbn [orb].
  - (* the last day of a leap year *)
    assert (b ≤ 3 ∧ c ≤ 23 ∧ r1 = 0) as (? & ? & ?) by lia.
    replace (a * 400 + b * 100 + c * 4 + e + 1 - 1)
      with (a * 400 + b * 100 + c * 4 + 3 + 1) by lia.
    set (y := a * 400 + b * 100 + c * 4 + 3 + 1).
    assert (is_leap y = true) as Hleap.
    { unfold y. rewrite is_leap_decomposed by lia.
      destruct (Z.eqb_spec c 24); [lia|done]. }
    exists y, 12, 31. split; [done|].
    rewrite (days_before_month_canonical y 12),
      (days_in_month_canonical y 12), Hleap.
    change (days_before_month (canonical_year true) 12) with 335.
    change (days_in_month (canonical_year true) 12) with 31.
    assert (days_before_year y
            = 146097 * a + 36524 * b + 1461 * c + 365 * 3) as ->
      by (unfold y; apply days_before_year_decomposed; lia).
    unfold y. lia.
  - destruct (Z.eqb_spec b 4) as [Hb4|Hb4].
    + (* the last day of a cycle of 400 years *)
      assert (r100 = 0 ∧ c = 0 ∧ e = 0 ∧ r1 = 0) as (? & -> & -> & ?)
        by lia.
      replace (a * 400 + b * 100 + 0 * 4 + 0 + 1 - 1)
        with (a * 400 + 3 * 100 + 24 * 4 + 3 + 1) by lia.
      set (y := a * 400 + 3 * 100 + 24 * 4 + 3 + 1).
      assert (is_leap y = true) as Hleap
        by (unfold y; by rewrite is_leap_decomposed by lia).
      exists y, 12, 31. split; [done|].
      rewrite (days_before_month_canonical y 12),
        (days_in_month_canonical y 12), Hleap.
      change (days_before_month (canonical_year true) 12) with 335.
      change (days_in_month (canonical_year true) 12) with 31.
      assert (days_before_year y
              = 146097 * a + 36524 * 3 + 1461 * 24 + 365 * 3) as ->
        by (unfold y; apply days_before_year_decomposed; lia).
      unfold y. lia.
    + set (y := a * 400 + b * 100 + c * 4 + e + 1).
      destruct (month_of_day_spec y r1 ltac:(lia))
        as (m & q & -> & Hm & Hq & Hsum).
      exists y, m, (q + 1). split; [done|].
      assert (days_before_year y
              = 146097 * a + 36524 * b + 1461 * c + 365 * e) as ->
        by (unfold y; apply days_before_year_decomposed; lia).
      assert (1 ≤ y ≤ 9999) by (unfold y; lia).
      lia.
Qed.

(** The day number of a date of the calendar. *)
Lemma toordinal_bounds (d : datetime) :
  valid_datetime d = true → 1 ≤ toordinal d ≤ 3652059.
Proof.
  intros Hvalid. unfold valid_datetime in Hvalid.
  repeat (apply andb_prop in Hvalid as [Hvalid ?]).
  pose proof (month_end (year d) (month d) ltac:(lia)) as [Hlow Hend].
  unfold toordinal.
  assert (0 ≤ days_before_year (year d)
          ∧ days_before_year (year d)
            + (if is_leap (year d) then 366 else 365) ≤ 3652059) as Hyear.
  { destruct (Z.eq_dec (year d) 9999) as [->|Hne]; [by vm_compute|].
    unfold days_before_year. cbv zeta.
    pose proof (Z.div_mod (year d - 1) 4 ltac:(lia)).
    pose proof (Z.mod_pos_bound (year d - 1) 4 ltac:(lia)).
    pose proof (Z.div_mod (year d - 1) 100 ltac:(lia)).
    pose proof (Z.mod_pos_bound (year d - 1) 100 ltac:(lia)).
    pose proof (Z.div_mod (year d - 1) 400 ltac:(lia)).
    pose proof (Z.mod_pos_bound (year d - 1) 400 ltac:(lia)).
    destruct (is_leap (year d)); lia. }
  lia.
Qed.

Lemma datetime_sub_days_spec (today : datetime) (k : Z) :
  valid_datetime today = true → 0 ≤ k < toordinal today →
  ∃ d, datetime_sub_days today k = Ok d
    ∧ valid_datetime d = true
    ∧ toordinal d = toordinal today - k
    ∧ (hour d, minute d, second d)
      = (hour today, minute today, second today).
Proof.
  intros Hvalid Hk.
  pose proof (toordinal_bounds today Hvalid) as Hord.
  unfold datetime_sub_days. cbv zeta.
  destruct (Z.ltb_spec (toordinal today - k) 1); [lia|].
  destruct (Z.ltb_spec 3652059 (toordinal today - k)); [lia|].
  cbn [orb].
  destruct (fromordinal_spec (toordinal today - k))
    as (y & m & d & -> & Hy & Hm & Hd & Hn); [lia|].
  eexists. split; [reflexivity|].
  unfold valid_datetime in *. cbn [year month day hour minute second].
  repeat (apply andb_prop in Hvalid as [Hvalid ?]).
  split; [|split; [exact Hn|done]].
  repeat (apply andb_true_intro; split); try done; lia.
Qed.

(** The years from 1901 on begin after day 693959, the years before 1900
    before day 693233. *)
Lemma days_before_year_1901 (y : Z) :
  1901 ≤ y → 693959 ≤ days_before_year y.
Proof.
  intros Hy. unfold days_before_year. cbv zeta.
  pose proof (Z.div_mod (y - 1) 4 ltac:(lia)).
  pose proof (Z.mod_pos_bound (y - 1) 4 ltac:(lia)).
  pose proof (Z.div_mod (y - 1) 100 ltac:(lia)).
  pose proof (Z.mod_pos_bound (y - 1) 100 ltac:(lia)).
  pose proof (Z.div_mod (y - 1) 400 ltac:(lia)).
  pose proof (Z.mod_pos_bound (y - 1) 400 ltac:(lia)).
  lia.
Qed.

Lemma days_before_year_1899 (y : Z) :
  1 ≤ y ≤ 1899 → days_before_year y ≤ 693232.
Proof.
  intros Hy. unfold days_before_year. cbv zeta.
  pose proof (Z.div_mod (y - 1) 4 ltac:(lia)).
  pose proof (Z.mod_pos_bound (y - 1) 4 ltac:(lia)).
  pose proof (Z.div_mod (y - 1) 100 ltac:(lia)).
  pose proof (Z.mod_pos_bound (y - 1) 100 ltac:(lia)).
  pose proof (Z.div_mod (y - 1) 400 ltac:(lia)).
  pose proof (Z.mod_pos_bound (y - 1) 400 ltac:(lia)).
  lia.
Qed.

Lemma day_before_spec (today : datetime) (k : Z) :
  valid_datetime today = true → 1901 ≤ year today → 0 ≤ k ≤ 3 →
  ∃ d s, datetime_sub_days today k = Ok d ∧ day_before k today d s.
Proof.
  intros Hvalid Hyear Hk.
  pose proof (days_before_year_1901 _ Hyear) as Hlow.
  assert (693960 ≤ toordinal today) as Htoday.
  { unfold toordinal. unfold valid_datetime in Hvalid.
    repeat (apply andb_prop in Hvalid as [Hvalid ?]).
    pose proof (month_end (year today) (month today) ltac:(lia)). lia. }
  destruct (datetime_sub_days_spec today k Hvalid)
    as (d & Hd & Hdvalid & Hord & Htime); [lia|].
  assert (1900 ≤ year d) as Hdyear.
  { destruct (Z.le_gt_cases 1900 (year d)) as [?|Hlt]; [done|]. exfalso.
    pose proof Hdvalid as Hv. unfold valid_datetime in Hv.
    repeat (apply andb_prop in Hv as [Hv ?]).
    pose proof (days_before_year_1899 (year d) ltac:(lia)).
    pose proof (month_end (year d) (month d) ltac:(lia)) as [_ Hend].
    unfold toordinal in Hord, Htoday.
    destruct (is_leap (year d)); lia. }
  assert (valid_datetime (midnight (year d) (month d) (day d)) = true)
    as Hmid.
  { unfold valid_datetime, midnight in *.
    cbn [year month day hour minute second].
    repeat (apply andb_prop in Hdvalid as [Hdvalid ?]).
    repeat (apply andb_true_intro; split); done. }
  destruct (strptime_strftime _ _ _ Hmid Hdyear) as (s & Hs & Hback).
  exists d, s. split; [done|]. unfold day_before.
  split; [done|]. split; [done|]. split; [done|]. split; [|done].
  unfold strftime_sfmt in *. by cbn [year month day midnight] in Hs.
Qed.

(** X27: from the year 1901 on, [dates] holds three entries, labelled
    [-1 day], [-2 days] and [-3 days], and the date of each is the day
    that many days before today, written so that the view, given it as
    [date], reads that very day. *)
Theorem dates_are_the_three_previous_days (today : datetime) :
  valid_datetime today = true → 1901 ≤ year today →
  ∃ d1 d2 d3 s1 s2 s3,
    dates_of today
    = Ok [("-1 day", s1); ("-2 days", s2); ("-3 days", s3)]%string
    ∧ day_before 1 today d1 s1
    ∧ day_before 2 today d2 s2
    ∧ day_before 3 today d3 s3.
Proof.
  intros Hvalid Hyear.
  destruct (day_before_spec today 1 Hvalid Hyear) as (d1 & s1 & H1 & Hb1);
    [lia|].
  destruct (day_before_spec today 2 Hvalid Hyear) as (d2 & s2 & H2 & Hb2);
    [lia|].
  destruct (day_before_spec today 3 Hvalid Hyear) as (d3 & s3 & H3 & Hb3);
    [lia|].
  exists d1, d2, d3, s1, s2, s3. split; [|done].
  unfold dates_of. rewrite H1, H2, H3. cbn [mbind result_bind].
  destruct Hb1 as (_ & _ & _ & -> & _).
  destruct Hb2 as (_ & _ & _ & -> & _).
  destruct Hb3 as (_ & _ & _ & -> & _).
  reflexivity.
Qed.

Lemma dates_are_the_three_previous_days_witness :
  ∃ d1 d2 d3 s1 s2 s3,
    dates_of (midnight 2024 3 2)
    = Ok [("-1 day", s1); ("-2 days", s2); ("-3 days", s3)]%string
    ∧ day_before 1 (midnight 2024 3 2) d1 s1
    ∧ day_before 2 (midnight 2024 3 2) d2 s2
    ∧ day_before 3 (midnight 2024 3 2) d3 s3.
Proof.
  apply (dates_are_the_three_previous_days (midnight 2024 3 2));
    [reflexivity|cbn; lia].
Defined.

(** ** The mean latency *)

(** Integers below 2^53 are floats. *)
Lemma round_half_even_exact (n : Z) : round_half_even n 1 = n.
Proof.
  unfold round_half_even. rewrite Z.mod_1_r, Z.div_1_r. reflexivity.
Qed.

Lemma log2_ratio_int (n : Z) :
  0 < n < 2 ^ 53 → 0 <= log2_ratio n 1 <= 52.
Proof.
  intros [Hn Hlt].
  destruct (log2_ratio_spec n 1 Hn ltac:(lia)) as [Hlo Hhi].
  unfold ratio in *. rewrite Rdiv_1_r in *.
  apply IZR_lt in Hlt. rewrite pow2_Z in Hlt by lia.
  assert (1 <= IZR n)%R as H1 by (apply IZR_le; lia).
  rewrite <- pow2_0 in H1.
  assert (log2_ratio n 1 < 53) by (apply pow2_lt_inv; lra).
  assert (0 < log2_ratio n 1 + 1) by (apply pow2_lt_inv; lra).
  lia.
Qed.

(** [float(n)] for a non-zero int below 2^53 in absolute value: a finite
    float whose mantissa and exponent give back [n]. *)
Lemma float_of_int_exact (a : Z) :
  0 < Z.abs a < 2 ^ 53 →
  ∃ m e, float_of_int a = S754_finite (a <? 0) m e
    ∧ e <= 0 ∧ Zpos m = Z.abs a * 2 ^ (- e).
Proof.
  intros Ha. unfold float_of_int, b64_round.
  destruct (Z.eqb_spec (Z.abs a) 0) as [?|_]; [lia|].
  pose proof (log2_ratio_int (Z.abs a) Ha) as Hlr.
  destruct (log2_ratio_spec (Z.abs a) 1 ltac:(lia) ltac:(lia)) as [Hlo Hhi].
  set (lr := log2_ratio (Z.abs a) 1) in *.
  assert (Z.max (lr - 52) (-1074) = lr - 52) as -> by lia.
  unfold ratio in *. rewrite Rdiv_1_r in *.
  assert (2 ^ lr <= Z.abs a < 2 ^ (lr + 1)) as [Hlo' Hhi'].
  { split.
    - apply le_IZR. rewrite pow2_Z by lia. done.
    - apply lt_IZR. rewrite pow2_Z by lia. done. }
  assert (2 ^ 52 = 2 ^ lr * 2 ^ (52 - lr)) as H52.
  { rewrite <- Z.pow_add_r by lia. f_equal. lia. }
  assert (2 ^ (lr + 1) = 2 * 2 ^ lr) as Hlr1.
  { rewrite Z.pow_add_r by lia. lia. }
  assert (0 < 2 ^ (52 - lr)) as Hpos by (apply Z.pow_pos_nonneg; lia).
  assert (2 ^ 53 = 2 * 2 ^ 52) as H53 by reflexivity.
  unfold scale2.
  destruct (Z.leb_spec 0 (lr - 52)) as [Hz|Hneg].
  - assert (lr = 52) as Hlr52 by lia.
    replace (lr - 52) with 0 by lia.
    change (2 ^ 0) with 1. change (1 * 1) with 1.
    rewrite round_half_even_exact.
    destruct (Z.eqb_spec (Z.abs a) (2 ^ 53)) as [?|_]; [lia|].
    destruct (Z.abs a) as [|p|p] eqn:E; [lia| |lia].
    change (0 <=? 971) with true. cbv iota.
    exists p, 0. split; [done|]. split; [done|].
    change (2 ^ (- 0)) with 1. lia.
  - replace (- (lr - 52)) with (52 - lr) by lia.
    rewrite round_half_even_exact.
    destruct (Z.eqb_spec (Z.abs a * 2 ^ (52 - lr)) (2 ^ 53)) as [?|_];
      [nia|].
    destruct (Z.abs a * 2 ^ (52 - lr)) as [|p|p] eqn:E; [nia| |nia].
    assert ((lr - 52 <=? 971) = true) as -> by lia.
    exists p, (lr - 52). split; [done|]. split; [lia|].
    replace (- (lr - 52)) with (52 - lr) by lia. done.
Qed.

Lemma dyadic_of_int (neg : bool) (m : positive) (e x : Z) :
  e <= 0 → Zpos m = Z.abs x * 2 ^ (- e) → neg = (x <? 0) →
  dyadic neg m e = (x * 2 ^ (- e), - e).
Proof.
  intros He Hm ->. unfold dyadic.
  destruct (Z.leb_spec 0 e).
  - assert (e = 0) as -> by lia. change (2 ^ (- 0)) with 1 in *.
    change (2 ^ 0) with 1. destruct (Z.ltb_spec x 0); f_equal; lia.
  - destruct (Z.ltb_spec x 0); f_equal; nia.
Qed.

Lemma dyadic_of_abs (m : positive) (e x : Z) :
  e <= 0 → Zpos m = Z.abs x * 2 ^ (- e) →
  dyadic false m e = (Z.abs x * 2 ^ (- e), - e).
Proof.
  intros He Hm. unfold dyadic.
  destruct (Z.leb_spec 0 e).
  - assert (e = 0) as -> by lia. change (2 ^ (- 0)) with 1 in *.
    change (2 ^ 0) with 1. f_equal; lia.
  - f_equal; lia.
Qed.

(** [float(a) + float(b) = float(a + b)] while everything stays below
    2^53. *)
Lemma float_add_int (a b : Z) :
  Z.abs a < 2 ^ 53 → Z.abs b < 2 ^ 53 → Z.abs (a + b) < 2 ^ 53 →
  float_add (float_of_int a) (float_of_int b) = float_of_int (a + b).
Proof.
  intros Ha Hb Hab.
  destruct (Z.eq_dec b 0) as [->|Hbne].
  { rewrite Z.add_0_r. change (float_of_int 0) with (S754_zero false).
    destruct (Z.eq_dec a 0) as [->|Hane]; [reflexivity|].
    destruct (float_of_int_exact a ltac:(lia)) as (ma & ea & -> & _).
    reflexivity. }
  destruct (Z.eq_dec a 0) as [->|Hane].
  { rewrite Z.add_0_l. change (float_of_int 0) with (S754_zero false).
    destruct (float_of_int_exact b ltac:(lia)) as (mb & eb & -> & _).
    reflexivity. }
  destruct (float_of_int_exact a ltac:(lia)) as (ma & ea & -> & Hea & Hma).
  destruct (float_of_int_exact b ltac:(lia)) as (mb & eb & -> & Heb & Hmb).
  unfold float_add.
  rewrite (dyadic_of_int (a <? 0) ma ea a Hea Hma eq_refl).
  rewrite (dyadic_of_int (b <? 0) mb eb b Heb Hmb eq_refl).
  set (k := Z.max (- ea) (- eb)).
  assert (a * 2 ^ (- ea) * 2 ^ (k - - ea) + b * 2 ^ (- eb) * 2 ^ (k - - eb)
          = (a + b) * 2 ^ k) as ->.
  { rewrite <- !Z.mul_assoc, <- !Z.pow_add_r by lia.
    replace (- ea + (k - - ea)) with k by lia.
    replace (- eb + (k - - eb)) with k by lia. ring. }
  assert (0 < 2 ^ k) as Hk by (apply Z.pow_pos_nonneg; lia).
  destruct (Z.eqb_spec ((a + b) * 2 ^ k) 0) as [Hzero|Hnz].
  - assert (a + b = 0) as -> by nia. done.
  - assert (a + b ≠ 0) as Hne by nia.
    assert (((a + b) * 2 ^ k <? 0) = (a + b <? 0)) as ->.
    { destruct (Z.ltb_spec ((a + b) * 2 ^ k) 0), (Z.ltb_spec (a + b) 0);
        try done; nia. }
    rewrite Z.abs_mul, (Z.abs_eq (2 ^ k)) by lia.
    rewrite <- (Z.mul_1_l (2 ^ k)) at 2.
    rewrite b64_round_scale by lia. done.
Qed.

(** [float(a) / float(n)] is the quotient of the two ints rounded once. *)
Lemma float_div_int (a n : Z) :
  Z.abs a < 2 ^ 53 → 0 < n < 2 ^ 53 →
  float_div (float_of_int a) (float_of_int n) = int_true_divide a n.
Proof.
  intros Ha Hn. unfold int_true_divide.
  destruct (Z.eqb_spec n 0) as [?|_]; [lia|].
  destruct (float_of_int_exact n ltac:(lia)) as (mn & en & -> & Hen & Hmn).
  assert ((n <? 0) = false) as -> by lia.
  destruct (Z.eqb_spec a 0) as [->|Hane]; [reflexivity|].
  destruct (float_of_int_exact a ltac:(lia)) as (ma & ea & -> & Hea & Hma).
  unfold float_div.
  rewrite (dyadic_of_abs ma ea a Hea Hma), (dyadic_of_abs mn en n Hen Hmn).
  f_equal.
  assert (0 < 2 ^ (- ea) ∧ 0 < 2 ^ (- en)) as [? ?]
    by (split; apply Z.pow_pos_nonneg; lia).
  replace (Z.abs a * 2 ^ (- ea) * 2 ^ (- en))
    with (Z.abs a * (2 ^ (- ea) * 2 ^ (- en))) by ring.
  replace (Z.abs n * 2 ^ (- en) * 2 ^ (- ea))
    with (Z.abs n * (2 ^ (- ea) * 2 ^ (- en))) by ring.
  rewrite b64_round_scale by nia. done.
Qed.

Lemma int_sum_snoc (l : list Z) (x : Z) : int_sum (l ++ [x]) = int_sum l + x.
Proof. unfold int_sum. by rewrite foldl_snoc. Qed.

Lemma int_sum_bound (B : Z) (l : list Z) :
  Forall (λ x, Z.abs x ≤ B) l →
  Z.abs (int_sum l) ≤ Z.of_nat (length l) * B.
Proof.
  induction l as [|x l IH] using rev_ind; intros Hall.
  - unfold int_sum. simpl. lia.
  - apply Forall_app in Hall as [Hl Hx]. rewrite Forall_singleton in Hx.
    rewrite int_sum_snoc, length_app. cbn [length].
    specialize (IH Hl). lia.
Qed.

(** Summing the floats of integers loses nothing as long as the sums stay
    below 2^53. *)
Lemma float_sum_ints (B : Z) (l : list Z) :
  Forall (λ x, Z.abs x ≤ B) l →
  0 ≤ B → Z.of_nat (length l) * B < 2 ^ 53 →
  float_sum (map float_of_int l) = float_of_int (int_sum l).
Proof.
  induction l as [|x l IH] using rev_ind; intros Hall HB Hlen.
  - reflexivity.
  - apply Forall_app in Hall as [Hl Hx].
    pose proof (int_sum_bound B l Hl) as Hsum.
    pose proof (int_sum_bound B (l ++ [x])
                  ltac:(apply Forall_app; by split)) as Hsum'.
    rewrite Forall_singleton in Hx.
    rewrite length_app in Hlen, Hsum'. cbn [length] in Hlen, Hsum'.
    unfold float_sum in *. rewrite map_app. cbn [map]. rewrite foldl_snoc.
    rewrite IH by (try done; nia).
    rewrite int_sum_snoc in *. apply float_add_int; nia.
Qed.

Lemma strptime_valid (s : option string) (d : datetime) :
  strptime s = Ok d → valid_datetime d = true.
Proof.
  unfold strptime. destruct s as [s|]; [|done].
  destruct (re_match lfmt_regex (chars s))
    as [[[|gY [|gm [|gd [|gH [|gM [|gS [|]]]]]]] [|]]|]; try done.
  destruct (valid_datetime _) eqn:Hvalid; [|done].
  by intros [= <-].
Qed.

Lemma seconds_of_bounds (d : datetime) :
  valid_datetime d = true → 86400 ≤ seconds_of d < 315537984000.
Proof.
  intros Hvalid. pose proof (toordinal_bounds d Hvalid).
  unfold valid_datetime in Hvalid.
  repeat (apply andb_prop in Hvalid as [Hvalid ?]).
  unfold seconds_of. lia.
Qed.

Lemma nonzero_latency_bound (r : row) (s : Z) :
  nonzero_latency r = Some s → Z.abs s ≤ 315537984000.
Proof.
  unfold nonzero_latency, latency.
  destruct (strptime (row_created r)) as [c|] eqn:Hc; [|done].
  destruct (strptime (row_modified r)) as [m|] eqn:Hm; [|done].
  apply strptime_valid, seconds_of_bounds in Hc, Hm.
  destruct (_ =? 0); [done|]. intros [= <-]. lia.
Qed.

Lemma recorded_latency_nonzero (rows : list row) :
  omap recorded_latency rows = map float_of_int (omap nonzero_latency rows).
Proof.
  change (omap recorded_latency rows
          = float_of_int <$> omap nonzero_latency rows).
  rewrite list_fmap_omap. apply list_omap_ext, Forall_Forall2_diag.
  apply Forall_forall. intros r _. unfold recorded_latency, nonzero_latency.
  destruct (latency r) as [s|]; [|done]. by destruct (s =? 0).
Qed.

Lemma omap_length_le {A B : Type} (f : A → option B) (l : list A) :
  (length (omap f l) ≤ length l)%nat.
Proof.
  induction l as [|x l IH]; [done|].
  change (length (omap f l)) with (length (list_omap A B f l)) in IH.
  simpl. destruct (f x); simpl; lia.
Qed.

(** X28: in a file of fewer than 16384 rows the mean latency is exact up
    to one rounding: the latencies are whole numbers of seconds, their
    float sum is their integer sum, and the mean printed is ['%.2f'] of
    the quotient of that sum by their number, rounded once to a float. *)
Theorem mean_latency_is_rounded_once
    (rows : list row) (parsed : list parsed_row) (st : stats) :
  aggregate rows = Ok (parsed, st) →
  Z.of_nat (length rows) < 16384 →
  let secs := omap nonzero_latency rows in
  diff st = map float_of_int secs
  ∧ float_sum (diff st) = float_of_int (int_sum secs)
  ∧ (secs = [] → mean st = None)
  ∧ (secs ≠ [] →
     ∃ q, int_true_divide (int_sum secs) (Z.of_nat (length secs)) = Ok q
          ∧ mean st = Some (format_2f q)).
Proof.
  intros Hagg Hlen. cbv zeta.
  apply aggregate_inv in Hagg as (acc & Hloop & _ & -> & _ & Hmean & _ & _).
  apply loop_spec in Hloop as (_ & _ & _ & Hdiff & _).
  rewrite Hdiff, recorded_latency_nonzero in *.
  set (secs := omap nonzero_latency rows) in *.
  assert (Forall (λ x, Z.abs x ≤ 315537984000) secs) as Hbound.
  { apply Forall_forall. intros s Hs.
    apply list_elem_of_omap in Hs as (r & _ & Hr).
    by apply nonzero_latency_bound in Hr. }
  assert (length secs ≤ length rows)%nat as Hshort
    by apply omap_length_le.
  assert (Z.of_nat (length secs) * 315537984000 < 2 ^ 53) as Hsmall.
  { change (2 ^ 53) with 9007199254740992. lia. }
  pose proof (float_sum_ints _ secs Hbound ltac:(lia) Hsmall) as Hsum.
  pose proof (int_sum_bound _ secs Hbound) as Hmag.
  split; [done|]. split; [done|].
  apply mean_of_inv in Hmean as [Hnone Hsome].
  split.
  - intros Hnil. apply Hnone. by rewrite Hnil.
  - intros Hne.
    destruct Hsome as (q & Hq & ->); [by destruct secs|].
    exists q. split; [|done].
    rewrite Hsum, length_map in Hq. rewrite <- Hq. symmetry.
    apply float_div_int.
    + change (2 ^ 53) with 9007199254740992. lia.
    + change (2 ^ 53) with 9007199254740992.
      assert (length secs ≠ 0%nat)
        by (intros H0; apply Hne; by apply nil_length_inv).
      lia.
Qed.

Lemma mean_latency_is_rounded_once_witness :
  ∃ parsed st,
    aggregate backdated_rows = Ok (parsed, st)
    ∧ diff st = map float_of_int (omap nonzero_latency backdated_rows)
    ∧ float_sum (diff st)
      = float_of_int (int_sum (omap nonzero_latency backdated_rows)).
Proof.
  destruct (aggregate backdated_rows) as [[parsed st]|] eqn:E;
    [|vm_compute in E; discriminate].
  exists parsed, st.
  destruct (mean_latency_is_rounded_once backdated_rows parsed st E)
    as (H1 & H2 & _); [reflexivity|].
  exact (conj eq_refl (conj H1 H2)).
Defined.
